(** * Scramble: the game simulation and collision engine

    A shallow embedding of [src/entities.js], [src/levels.js] and the
    simulation half of [src/game.js], with the properties of the
    specification proved (or refuted) about it; then the pure helpers of
    the Nostr integration and further properties of the code.

    Conventions of the embedding
    - A JavaScript class becomes a [Module] holding a record [t] and one
      function per method; a method that mutates [this] returns the new
      record.
    - JavaScript numbers are kept abstract behind the class [JSNumber];
      every definition and every structural theorem is parametric in it.
      Two instances are given: [binary64], the IEEE 754 doubles of the
      real program (on [SpecFloat]), and [exactQ], exact rationals.
    - Counters that only ever hold small integers ([lives], cool-downs,
      timers, [health], [points], [score]) are [Z]; on them [++] and [--]
      are exact in doubles as well.
    - [Math.sin], [Math.cos], [Math.PI] and [Math.random] belong to the
      host: a record [Host], with [Math.random] an oracle indexed by the
      number of draws made so far. Code that draws lives in the state
      monad [Rand] over that count.
    - Colours, glow colours and the render/DOM half of [Game] do not take
      part in the simulation and are left out, except the explosion
      colour carried by particles.
    - In the Nostr helpers a string is the list of its UTF-16 code units
      and a [Uint8Array] a list of bytes. *)

From Stdlib Require Import ZArith List Bool String Lia QArith Qround Qreduction Lqa.
From Stdlib Require Import SpecFloat.
From Stdlib Require Import NArith Ascii.
From Stdlib Require Strings.Byte.
Import ListNotations.

Set Implicit Arguments.
Local Open Scope string_scope.
Local Open Scope list_scope.
Local Open Scope Z_scope.

(** ** Numbers *)

Class JSNumber : Type := {
  num : Type;
  add : num -> num -> num;
  sub : num -> num -> num;
  mul : num -> num -> num;
  div : num -> num -> num;
  ltb : num -> num -> bool;
  leb : num -> num -> bool;
  gtb : num -> num -> bool;
  geb : num -> num -> bool;
  (** an integer literal, or an integer counter read as a number *)
  ofZ : Z -> num;
  (** the decimal literal [m * 10^-k]: [dec 5 2] is [0.05] *)
  dec : Z -> nat -> num;
  Math_max : num -> num -> num;
  Math_min : num -> num -> num;
  (** [Math.floor] and [Math.ceil] of a finite number, [None] on NaN and
      the infinities *)
  floorZ : num -> option Z;
  ceilZ : num -> option Z;
  (** truthiness, as tested by [||]: neither zero nor NaN *)
  truthy : num -> bool;
  gtb_ltb : forall a b, gtb a b = ltb b a;
  geb_leb : forall a b, geb a b = leb b a
}.

Declare Scope js_scope.
Delimit Scope js_scope with js.
Infix "+" := add : js_scope.
Infix "-" := sub : js_scope.
Infix "*" := mul : js_scope.
Infix "/" := div : js_scope.
Infix "<?" := ltb : js_scope.
Infix "<=?" := leb : js_scope.
Infix ">?" := gtb (at level 70) : js_scope.
Infix ">=?" := geb (at level 70) : js_scope.

(** [a || d] on an optional numeric configuration field. *)
Definition orNum {N : JSNumber} (a : option num) (d : num) : num :=
  match a with
  | Some v => if truthy v then v else d
  | None => d
  end.

(** ** The host: implementation-defined [Math] functions *)

Record Host {N : JSNumber} : Type := {
  Math_sin : num -> num;
  Math_cos : num -> num;
  Math_PI : num;
  Math_random : nat -> num
}.
Arguments Host {_}.

(** ** Drawing random numbers *)

Definition Rand (A : Type) : Type := nat -> A * nat.

Definition ret {A} (a : A) : Rand A := fun n => (a, n).

Definition bind {A B} (m : Rand A) (k : A -> Rand B) : Rand B :=
  fun n => let (a, n') := m n in k a n'.

Notation "x <- m ;; k" := (bind m (fun x => k))
  (at level 61, m at next level, right associativity).
Notation "' pat <- m ;; k" := (bind m (fun x => match x with pat => k end))
  (at level 61, pat pattern, m at next level, right associativity).

Definition random {N : JSNumber} (host : Host) : Rand num :=
  fun n => (Math_random host n, S n).

(** ** entities.js *)

(** The object [{x, y, width, height}] returned by [getBounds()]. *)
Module Bounds.
Section WithNumbers.
Context {N : JSNumber}.
Record t : Type := mk { x : num; y : num; width : num; height : num }.
End WithNumbers.
End Bounds.

Module Entity.
Section WithNumbers.
Context {N : JSNumber}.
Local Open Scope js_scope.

Record t : Type := mk {
  x : num;
  y : num;
  width : num;
  height : num;
  active : bool
}.

(** [constructor(x, y, width, height)] *)
Definition new (x0 y0 w h : num) : t := mk x0 y0 w h true.

Definition with_x (e : t) (v : num) : t :=
  mk v (y e) (width e) (height e) (active e).
Definition with_y (e : t) (v : num) : t :=
  mk (x e) v (width e) (height e) (active e).
Definition with_active (e : t) (b : bool) : t :=
  mk (x e) (y e) (width e) (height e) b.

Definition getBounds (e : t) : Bounds.t :=
  Bounds.mk (x e) (y e) (width e) (height e).

(** [collidesWith(other)]: AABB test on the two [getBounds()], gated on
    both operands being active. *)
Definition collidesWith (this other : t) : bool :=
  if negb (active this) || negb (active other) then false
  else
    let a := getBounds this in
    let b := getBounds other in
    (Bounds.x a <? Bounds.x b + Bounds.width b) &&
    (Bounds.x a + Bounds.width a >? Bounds.x b) &&
    (Bounds.y a <? Bounds.y b + Bounds.height b) &&
    (Bounds.y a + Bounds.height a >? Bounds.y b).

Definition getCenterX (e : t) : num := x e + width e / ofZ 2.
Definition getCenterY (e : t) : num := y e + height e / ofZ 2.
End WithNumbers.
End Entity.

(** The input struct [{up, down, left, right, shoot, bomb}] of [Game]. *)
Module Input.
Record t : Type := mk {
  up : bool; down : bool; left : bool; right : bool;
  shoot : bool; bomb : bool
}.
Definition none : t := mk false false false false false false.
End Input.

Module Bullet.
Section WithNumbers.
Context {N : JSNumber}.
Local Open Scope js_scope.

Record t : Type := mk {
  base : Entity.t;
  velocityX : num;
  velocityY : num;
  isPlayerBullet : bool;
  damage : Z
}.

Definition x b := Entity.x (base b).
Definition y b := Entity.y (base b).
Definition active b := Entity.active (base b).

Definition with_base (b : t) (e : Entity.t) : t :=
  mk e (velocityX b) (velocityY b) (isPlayerBullet b) (damage b).
Definition with_active (b : t) (a : bool) : t :=
  with_base b (Entity.with_active (base b) a).

(** [constructor(x, y, velocityX, velocityY, isPlayerBullet, damage = 1)];
    every call site leaves [damage] at its default. *)
Definition new (x0 y0 vx vy : num) (isPlayer : bool) : t :=
  mk (Entity.new x0 y0 (ofZ 8) (ofZ 4)) vx vy isPlayer 1.

Definition update (b : t) (canvasWidth canvasHeight : num) : t :=
  let b := with_base b (Entity.with_x (base b) (x b + velocityX b)) in
  let b := with_base b (Entity.with_y (base b) (y b + velocityY b)) in
  if (x b <? ofZ (-20)) || (x b >? canvasWidth + ofZ 20) ||
     (y b <? ofZ (-20)) || (y b >? canvasHeight + ofZ 20)
  then with_active b false
  else b.
End WithNumbers.
End Bullet.

Module Bomb.
Section WithNumbers.
Context {N : JSNumber}.
Local Open Scope js_scope.

Record t : Type := mk {
  base : Entity.t;
  velocityX : num;
  velocityY : num;
  gravity : num;
  damage : Z;
  color : string
}.

Definition x b := Entity.x (base b).
Definition y b := Entity.y (base b).
Definition active b := Entity.active (base b).

Definition with_base (b : t) (e : Entity.t) : t :=
  mk e (velocityX b) (velocityY b) (gravity b) (damage b) (color b).
Definition with_velocityY (b : t) (v : num) : t :=
  mk (base b) (velocityX b) v (gravity b) (damage b) (color b).
Definition with_active (b : t) (a : bool) : t :=
  with_base b (Entity.with_active (base b) a).

Definition new (x0 y0 vx vy : num) : t :=
  mk (Entity.new x0 y0 (ofZ 6) (ofZ 6)) vx vy (dec 15 2) 2 "#ff8c00".

Definition update (b : t) (canvasWidth canvasHeight : num) : t :=
  let b := with_base b (Entity.with_x (base b) (x b + velocityX b)) in
  let b := with_velocityY b (velocityY b + gravity b) in
  let b := with_base b (Entity.with_y (base b) (y b + velocityY b)) in
  if (x b <? ofZ (-20)) || (x b >? canvasWidth + ofZ 20) ||
     (y b >? canvasHeight + ofZ 20)
  then with_active b false
  else b.
End WithNumbers.
End Bomb.

Module Player.
Section WithNumbers.
Context {N : JSNumber}.
Local Open Scope js_scope.

Record t : Type := mk {
  base : Entity.t;
  speed : num;
  lives : Z;
  shootCooldown : Z;
  shootCooldownMax : Z;
  bombCooldown : Z;
  bombCooldownMax : Z;
  isInvincible : bool;
  invincibleTimer : Z;
  invincibleDuration : Z;
  canvasWidth : num;
  canvasHeight : num;
  fuel : num;
  maxFuel : num;
  fuelDrainRate : num
}.

Definition x p := Entity.x (base p).
Definition y p := Entity.y (base p).
Definition width p := Entity.width (base p).
Definition height p := Entity.height (base p).
Definition active p := Entity.active (base p).

Definition with_base (p : t) (e : Entity.t) : t :=
  mk e (speed p) (lives p) (shootCooldown p) (shootCooldownMax p)
     (bombCooldown p) (bombCooldownMax p) (isInvincible p)
     (invincibleTimer p) (invincibleDuration p) (canvasWidth p)
     (canvasHeight p) (fuel p) (maxFuel p) (fuelDrainRate p).
Definition with_x p v := with_base p (Entity.with_x (base p) v).
Definition with_y p v := with_base p (Entity.with_y (base p) v).
Definition with_lives (p : t) (v : Z) : t :=
  mk (base p) (speed p) v (shootCooldown p) (shootCooldownMax p)
     (bombCooldown p) (bombCooldownMax p) (isInvincible p)
     (invincibleTimer p) (invincibleDuration p) (canvasWidth p)
     (canvasHeight p) (fuel p) (maxFuel p) (fuelDrainRate p).
Definition with_shootCooldown (p : t) (v : Z) : t :=
  mk (base p) (speed p) (lives p) v (shootCooldownMax p)
     (bombCooldown p) (bombCooldownMax p) (isInvincible p)
     (invincibleTimer p) (invincibleDuration p) (canvasWidth p)
     (canvasHeight p) (fuel p) (maxFuel p) (fuelDrainRate p).
Definition with_bombCooldown (p : t) (v : Z) : t :=
  mk (base p) (speed p) (lives p) (shootCooldown p) (shootCooldownMax p)
     v (bombCooldownMax p) (isInvincible p)
     (invincibleTimer p) (invincibleDuration p) (canvasWidth p)
     (canvasHeight p) (fuel p) (maxFuel p) (fuelDrainRate p).
Definition with_isInvincible (p : t) (v : bool) : t :=
  mk (base p) (speed p) (lives p) (shootCooldown p) (shootCooldownMax p)
     (bombCooldown p) (bombCooldownMax p) v
     (invincibleTimer p) (invincibleDuration p) (canvasWidth p)
     (canvasHeight p) (fuel p) (maxFuel p) (fuelDrainRate p).
Definition with_invincibleTimer (p : t) (v : Z) : t :=
  mk (base p) (speed p) (lives p) (shootCooldown p) (shootCooldownMax p)
     (bombCooldown p) (bombCooldownMax p) (isInvincible p)
     v (invincibleDuration p) (canvasWidth p)
     (canvasHeight p) (fuel p) (maxFuel p) (fuelDrainRate p).
Definition with_fuel (p : t) (v : num) : t :=
  mk (base p) (speed p) (lives p) (shootCooldown p) (shootCooldownMax p)
     (bombCooldown p) (bombCooldownMax p) (isInvincible p)
     (invincibleTimer p) (invincibleDuration p) (canvasWidth p)
     (canvasHeight p) v (maxFuel p) (fuelDrainRate p).

(** [constructor(canvasWidth, canvasHeight)] *)
Definition new (cw ch : num) : t :=
  let width := ofZ 32 in
  let height := ofZ 16 in
  mk (Entity.new (ofZ 60) (ch / ofZ 2 - height / ofZ 2) width height)
     (ofZ 4) 3 0 10 0 30 false 0 120 cw ch
     (ofZ 100) (ofZ 100) (dec 5 2).

(** [update(input, topBound, bottomBound)], block by block. *)

(* Movement - up/down and slight forward/back *)
Definition move (p : t) (input : Input.t) (topBound bottomBound : num) : t :=
  let p := if Input.up input && (y p >? topBound + ofZ 5)
           then with_y p (y p - speed p) else p in
  let p := if Input.down input && (y p + height p <? bottomBound - ofZ 5)
           then with_y p (y p + speed p) else p in
  let p := if Input.left input && (x p >? ofZ 30)
           then with_x p (x p - speed p * dec 5 1) else p in
  if Input.right input && (x p <? canvasWidth p * dec 4 1)
  then with_x p (x p + speed p * dec 5 1) else p.

(* Cooldowns *)
Definition coolDown (p : t) : t :=
  let p := if (shootCooldown p >? 0)%Z
           then with_shootCooldown p (shootCooldown p - 1)%Z else p in
  if (bombCooldown p >? 0)%Z
  then with_bombCooldown p (bombCooldown p - 1)%Z else p.

(* Invincibility timer *)
Definition tickInvincibility (p : t) : t :=
  if isInvincible p then
    let p := with_invincibleTimer p (invincibleTimer p - 1)%Z in
    if (invincibleTimer p <=? 0)%Z then with_isInvincible p false else p
  else p.

(* Fuel drain *)
Definition drainFuel (p : t) : t :=
  let p := with_fuel p (fuel p - fuelDrainRate p) in
  if fuel p <=? ofZ 0 then with_fuel p (ofZ 0) else p.

Definition update (p : t) (input : Input.t) (topBound bottomBound : num) : t :=
  drainFuel (tickInvincibility (coolDown (move p input topBound bottomBound))).

(** [shoot()]: [null] while the cool-down runs. *)
Definition shoot (p : t) : option Bullet.t * t :=
  if (shootCooldown p >? 0)%Z then (None, p)
  else
    let p := with_shootCooldown p (shootCooldownMax p) in
    (Some (Bullet.new (x p + width p)
                      (Entity.getCenterY (base p) - ofZ 2)
                      (ofZ 10) (ofZ 0) true), p).

(** [bomb()]: [null] while the cool-down runs. *)
Definition bomb (p : t) : option Bomb.t * t :=
  if (bombCooldown p >? 0)%Z then (None, p)
  else
    let p := with_bombCooldown p (bombCooldownMax p) in
    (Some (Bomb.new (Entity.getCenterX (base p))
                    (y p + height p)
                    (ofZ 3) (ofZ 4)), p).

(** [hit()]: the returned flag says whether the hit counted. *)
Definition hit (p : t) : bool * t :=
  if isInvincible p then (false, p)
  else
    let p := with_lives p (lives p - 1)%Z in
    let p := with_isInvincible p true in
    let p := with_invincibleTimer p (invincibleDuration p) in
    (true, p).

Definition addFuel (p : t) (amount : num) : t :=
  with_fuel p (Math_min (maxFuel p) (fuel p + amount)).

Definition reset (p : t) (cw ch : num) : t :=
  let p := with_x p (ofZ 60) in
  let p := with_y p (ch / ofZ 2 - height p / ofZ 2) in
  let p := with_lives p 3 in
  let p := with_fuel p (maxFuel p) in
  let p := with_isInvincible p false in
  let p := with_invincibleTimer p 0 in
  let p := with_shootCooldown p 0 in
  with_bombCooldown p 0.
End WithNumbers.
End Player.

(** The [behavior] tag of an enemy type. *)
Inductive Behavior : Type := straight | wave | dive | chase.

(** An entry of [ENEMY_TYPES]; fields a type may omit are optional. *)
Module EnemyConfig.
Section WithNumbers.
Context {N : JSNumber}.
Record t : Type := mk {
  width : num;
  height : num;
  health : Z;
  points : Z;
  color : string;
  behavior : option Behavior;
  speed : option num;
  waveAmplitude : option num;
  waveSpeed : option num;
  shootChance : option num
}.
End WithNumbers.
End EnemyConfig.

Module Enemy.
Section WithNumbers.
Context {N : JSNumber} (host : Host).
Local Open Scope js_scope.

Record t : Type := mk {
  base : Entity.t;
  type : string;
  health : Z;
  maxHealth : Z;
  points : Z;
  color : string;
  behavior : Behavior;
  speed : num;
  shootChance : num;
  startY : num;
  angle : num;
  waveAmplitude : num;
  waveSpeed : num;
  animFrame : Z;
  animTimer : Z
}.

Definition x e := Entity.x (base e).
Definition y e := Entity.y (base e).
Definition width e := Entity.width (base e).
Definition active e := Entity.active (base e).

Definition with_base (e : t) (b : Entity.t) : t :=
  mk b (type e) (health e) (maxHealth e) (points e) (color e) (behavior e)
     (speed e) (shootChance e) (startY e) (angle e) (waveAmplitude e)
     (waveSpeed e) (animFrame e) (animTimer e).
Definition with_x e v := with_base e (Entity.with_x (base e) v).
Definition with_y e v := with_base e (Entity.with_y (base e) v).
Definition with_active e a := with_base e (Entity.with_active (base e) a).
Definition with_health (e : t) (v : Z) : t :=
  mk (base e) (type e) v (maxHealth e) (points e) (color e) (behavior e)
     (speed e) (shootChance e) (startY e) (angle e) (waveAmplitude e)
     (waveSpeed e) (animFrame e) (animTimer e).
Definition with_angle (e : t) (v : num) : t :=
  mk (base e) (type e) (health e) (maxHealth e) (points e) (color e)
     (behavior e) (speed e) (shootChance e) (startY e) v (waveAmplitude e)
     (waveSpeed e) (animFrame e) (animTimer e).
Definition with_anim (e : t) (frame timer : Z) : t :=
  mk (base e) (type e) (health e) (maxHealth e) (points e) (color e)
     (behavior e) (speed e) (shootChance e) (startY e) (angle e)
     (waveAmplitude e) (waveSpeed e) frame timer.

(** [constructor(x, y, type, config)]; draws the starting wave phase. *)
Definition new (x0 y0 : num) (ty : string) (config : EnemyConfig.t) : Rand t :=
  r <- random host ;;
  ret (mk (Entity.new x0 y0 (EnemyConfig.width config) (EnemyConfig.height config))
          ty
          (EnemyConfig.health config)
          (EnemyConfig.health config)
          (EnemyConfig.points config)
          (EnemyConfig.color config)
          (match EnemyConfig.behavior config with Some b => b | None => straight end)
          (orNum (EnemyConfig.speed config) (ofZ 2))
          (orNum (EnemyConfig.shootChance config) (ofZ 0))
          y0
          (r * Math_PI host * ofZ 2)
          (orNum (EnemyConfig.waveAmplitude config) (ofZ 30))
          (orNum (EnemyConfig.waveSpeed config) (dec 5 2))
          0 0).

Definition update (e : t) (scrollSpeed : num) : t :=
  (* Move left with the scroll *)
  let e := with_x e (x e - (scrollSpeed + speed e)) in
  (* Behavior patterns *)
  let e := match behavior e with
           | wave =>
               let e := with_angle e (angle e + waveSpeed e) in
               with_y e (startY e + Math_sin host (angle e) * waveAmplitude e)
           | dive => with_y e (y e + ofZ 2)
           | chase => e
           | straight => e
           end in
  (* Animation *)
  let e := with_anim e (animFrame e) (animTimer e + 1)%Z in
  let e := if (animTimer e >? 15)%Z then with_anim e (1 - animFrame e)%Z 0
           else e in
  (* Deactivate if off screen left *)
  if x e + width e <? ofZ (-50) then with_active e false else e.

(** [takeDamage(amount)]: the flag says whether the enemy was destroyed. *)
Definition takeDamage (e : t) (amount : Z) : bool * t :=
  let e := with_health e (health e - amount)%Z in
  if (health e <=? 0)%Z then (true, with_active e false) else (false, e).

Definition shouldShoot (e : t) : Rand bool :=
  r <- random host ;; ret (r <? shootChance e).

Definition shoot (e : t) : Bullet.t :=
  Bullet.new (x e) (Entity.getCenterY (base e) - ofZ 2)
             (ofZ (-6)) (ofZ 0) false.
End WithNumbers.
End Enemy.

(** An entry of [GROUND_TARGET_TYPES]. *)
Module GroundTargetConfig.
Section WithNumbers.
Context {N : JSNumber}.
Record t : Type := mk {
  width : num;
  height : num;
  points : Z;
  color : string;
  givesFuel : option bool;
  fuelAmount : option num;
  shootChance : option num;
  floatHeight : option num
}.
End WithNumbers.
End GroundTargetConfig.

Module GroundTarget.
Section WithNumbers.
Context {N : JSNumber} (host : Host).
Local Open Scope js_scope.

Record t : Type := mk {
  base : Entity.t;
  type : string;
  points : Z;
  color : string;
  givesFuel : bool;
  fuelAmount : num;
  shootChance : num
}.

Definition x g := Entity.x (base g).
Definition y g := Entity.y (base g).
Definition width g := Entity.width (base g).
Definition active g := Entity.active (base g).

Definition with_base (g : t) (b : Entity.t) : t :=
  mk b (type g) (points g) (color g) (givesFuel g) (fuelAmount g)
     (shootChance g).
Definition with_x g v := with_base g (Entity.with_x (base g) v).
Definition with_active g a := with_base g (Entity.with_active (base g) a).

Definition new (x0 y0 : num) (ty : string) (config : GroundTargetConfig.t) : t :=
  mk (Entity.new x0 y0 (GroundTargetConfig.width config)
                 (GroundTargetConfig.height config))
     ty
     (GroundTargetConfig.points config)
     (GroundTargetConfig.color config)
     (match GroundTargetConfig.givesFuel config with Some b => b | None => false end)
     (orNum (GroundTargetConfig.fuelAmount config) (ofZ 0))
     (orNum (GroundTargetConfig.shootChance config) (ofZ 0)).

Definition update (g : t) (scrollSpeed : num) : t :=
  let g := with_x g (x g - scrollSpeed) in
  if x g + width g <? ofZ (-50) then with_active g false else g.

Definition shouldShoot (g : t) : Rand bool :=
  r <- random host ;; ret (r <? shootChance g).

Definition shoot (g : t) : Bullet.t :=
  Bullet.new (Entity.getCenterX (base g)) (y g) (ofZ 0) (ofZ (-5)) false.
End WithNumbers.
End GroundTarget.

(** The wall reported by a terrain collision: ['top'] or ['bottom']
    ([false] is [None]). *)
Inductive Wall : Type := top | bottom.

Module TerrainSegment.
Section WithNumbers.
Context {N : JSNumber}.
Local Open Scope js_scope.

Record t : Type := mk {
  x : num;
  topHeight : num;
  bottomHeight : num;
  width : num
}.

Definition update (s : t) (scrollSpeed : num) : t :=
  mk (x s - scrollSpeed) (topHeight s) (bottomHeight s) (width s).

Definition collidesWithEntity (s : t) (entity : Entity.t) (canvasHeight : num)
  : option Wall :=
  if negb (Entity.active entity) then None
  else
    let entityBounds := Entity.getBounds entity in
    (* Check top wall collision *)
    if (Bounds.y entityBounds <? topHeight s) &&
       (Bounds.x entityBounds <? x s + width s) &&
       (Bounds.x entityBounds + Bounds.width entityBounds >? x s)
    then Some top
    else
      (* Check bottom wall collision *)
      let bottomY := canvasHeight - bottomHeight s in
      if (Bounds.y entityBounds + Bounds.height entityBounds >? bottomY) &&
         (Bounds.x entityBounds <? x s + width s) &&
         (Bounds.x entityBounds + Bounds.width entityBounds >? x s)
      then Some bottom
      else None.
End WithNumbers.
End TerrainSegment.

Module Particle.
Section WithNumbers.
Context {N : JSNumber} (host : Host).
Local Open Scope js_scope.

Record t : Type := mk {
  x : num;
  y : num;
  color : string;
  vx : num;
  vy : num;
  size : num;
  life : num;
  maxLife : num;
  active : bool
}.

(** [constructor(x, y, color)]: four draws, in source order. *)
Definition new (x0 y0 : num) (c : string) : Rand t :=
  r1 <- random host ;;
  let angle := r1 * Math_PI host * ofZ 2 in
  r2 <- random host ;;
  let speed := ofZ 1 + r2 * ofZ 4 in
  r3 <- random host ;;
  r4 <- random host ;;
  let life := ofZ 25 + r4 * ofZ 20 in
  ret (mk x0 y0 c
          (Math_cos host angle * speed)
          (Math_sin host angle * speed)
          (ofZ 2 + r3 * ofZ 4)
          life life true).

Definition update (p : t) : t :=
  let x1 := x p + vx p in
  let y1 := y p + vy p in
  let vy1 := vy p + dec 8 2 in
  let life1 := life p - ofZ 1 in
  mk x1 y1 (color p) (vx p) vy1 (size p) life1 (maxLife p)
     (if life1 <=? ofZ 0 then false else active p).

Definition getAlpha (p : t) : num := life p / maxLife p.
End WithNumbers.
End Particle.

Section Explosion.
Context {N : JSNumber} (host : Host).

(** [createExplosion(x, y, color, count)]; the default [count] is 10. *)
Fixpoint createExplosion (x y : num) (color : string) (count : nat)
  : Rand (list Particle.t) :=
  match count with
  | O => ret []
  | S k =>
      p <- Particle.new host x y color ;;
      ps <- createExplosion x y color k ;;
      ret (p :: ps)
  end.
End Explosion.

Section TypeTables.
Context {N : JSNumber}.

Definition ENEMY_TYPES (key : string) : option EnemyConfig.t :=
  if String.eqb key "rocket" then
    Some (EnemyConfig.mk (ofZ 20) (ofZ 12) 1 50 "#e74c3c"
            (Some straight) (Some (ofZ 1)) None None (Some (ofZ 0)))
  else if String.eqb key "ufo" then
    Some (EnemyConfig.mk (ofZ 24) (ofZ 14) 1 100 "#9b59b6"
            (Some wave) (Some (ofZ 2)) (Some (ofZ 40)) (Some (dec 8 2))
            (Some (dec 1 2)))
  else if String.eqb key "fighter" then
    Some (EnemyConfig.mk (ofZ 22) (ofZ 10) 2 150 "#3498db"
            (Some straight) (Some (ofZ 3)) None None (Some (dec 2 2)))
  else if String.eqb key "bomber" then
    Some (EnemyConfig.mk (ofZ 28) (ofZ 16) 3 200 "#f39c12"
            (Some wave) (Some (ofZ 1)) (Some (ofZ 20)) (Some (dec 3 2))
            (Some (dec 15 3)))
  else None.

Definition GROUND_TARGET_TYPES (key : string) : option GroundTargetConfig.t :=
  if String.eqb key "fuelTank" then
    Some (GroundTargetConfig.mk (ofZ 16) (ofZ 20) 150 "#22c55e"
            (Some true) (Some (ofZ 25)) (Some (ofZ 0)) (Some (ofZ 35)))
  else if String.eqb key "rocket" then
    Some (GroundTargetConfig.mk (ofZ 8) (ofZ 24) 80 "#ef4444"
            None None (Some (dec 5 3)) None)
  else if String.eqb key "base" then
    Some (GroundTargetConfig.mk (ofZ 24) (ofZ 16) 100 "#64748b"
            None None (Some (dec 8 3)) None)
  else if String.eqb key "radar" then
    Some (GroundTargetConfig.mk (ofZ 12) (ofZ 18) 120 "#06b6d4"
            None None (Some (ofZ 0)) None)
  else None.
End TypeTables.

(** ** levels.js *)

Section Arrays.
Context {N : JSNumber}.
Local Open Scope js_scope.

(** [arr[v]] for a number [v] that came out of [Math.floor]: [None]
    ([undefined]) when [v] is not an index of [arr]. *)
Definition arrayGet {A} (arr : list A) (v : option Z) : option A :=
  match v with
  | Some z => if (z <? 0)%Z then None else nth_error arr (Z.to_nat z)
  | None => None
  end.

(** [arr[arr.length - 1]] *)
Fixpoint lastOf {A} (arr : list A) : option A :=
  match arr with
  | [] => None
  | [a] => Some a
  | _ :: rest => lastOf rest
  end.

(** [Math.ceil] as a number. *)
Definition Math_ceil (v : num) : num :=
  match ceilZ v with Some z => ofZ z | None => v end.

(** The number of rounds of [for (let i = 0; i < n; i++)]; [None] when
    the loop does not end ([n] is [+Infinity]). *)
Definition forCount (n : num) : option nat :=
  match ceilZ n with
  | Some z => Some (Z.to_nat z)
  | None => if ofZ 0 <? n then None else Some O
  end.
End Arrays.

(** A stage record of [STAGES]. *)
Module Stage.
Section WithNumbers.
Context {N : JSNumber}.
Record t : Type := mk {
  name : string;
  baseTopHeight : num;
  baseBottomHeight : num;
  terrainVariation : num;
  enemyDensity : num;
  groundTargetDensity : num;
  scrollSpeed : num;
  enemyTypes : list string;
  groundTargetTypes : list string;
  length : num
}.
End WithNumbers.
End Stage.

Section Stages.
Context {N : JSNumber}.

Definition ROCKY_CANYON : Stage.t :=
  Stage.mk "ROCKY CANYON" (ofZ 40) (ofZ 80) (ofZ 25) (dec 8 3) (dec 12 3)
           (dec 18 1) ["rocket"] ["fuelTank"; "fuelTank"; "rocket"]
           (ofZ 1800).
Definition ENEMY_BASE : Stage.t :=
  Stage.mk "ENEMY BASE" (ofZ 50) (ofZ 90) (ofZ 35) (dec 15 3) (dec 12 3)
           (ofZ 2) ["rocket"; "ufo"] ["rocket"; "base"; "fuelTank"]
           (ofZ 2200).
Definition MISSILE_SILOS : Stage.t :=
  Stage.mk "MISSILE SILOS" (ofZ 60) (ofZ 100) (ofZ 45) (dec 22 3) (dec 15 3)
           (dec 22 1) ["rocket"; "ufo"; "fighter"]
           ["rocket"; "base"; "radar"; "fuelTank"] (ofZ 2500).
Definition NARROW_CAVES : Stage.t :=
  Stage.mk "NARROW CAVES" (ofZ 90) (ofZ 110) (ofZ 50) (dec 25 3) (dec 1 2)
           (dec 25 1) ["ufo"; "fighter"] ["fuelTank"; "radar"] (ofZ 2200).
Definition FINAL_FORTRESS : Stage.t :=
  Stage.mk "FINAL FORTRESS" (ofZ 80) (ofZ 100) (ofZ 45) (dec 35 3) (dec 2 2)
           (dec 28 1) ["ufo"; "fighter"; "bomber"]
           ["rocket"; "base"; "radar"; "fuelTank"] (ofZ 3000).

Definition STAGES : list Stage.t :=
  [ROCKY_CANYON; ENEMY_BASE; MISSILE_SILOS; NARROW_CAVES; FINAL_FORTRESS].

Definition getTotalStages : Z := Z.of_nat (List.length STAGES).

(** [getStage(index)] is [STAGES[Math.min(index, STAGES.length - 1)]];
    [None] is the [undefined] an array yields outside its indices. *)
Definition getStage (index : Z) : option Stage.t :=
  arrayGet STAGES (Some (Z.min index (Z.of_nat (List.length STAGES) - 1))).
End Stages.

(** The object [{top, bottom}] returned by the terrain queries. *)
Module Zone.
Section WithNumbers.
Context {N : JSNumber}.
Record t : Type := mk { top : num; bottom : num }.
End WithNumbers.
End Zone.

Module TerrainGenerator.
Section WithNumbers.
Context {N : JSNumber} (host : Host).
Local Open Scope js_scope.

Record t : Type := mk {
  canvasWidth : num;
  canvasHeight : num;
  config : Stage.t;
  segments : list TerrainSegment.t;
  segmentWidth : num;
  noiseOffset : num
}.

Definition with_segments (g : t) (l : list TerrainSegment.t) : t :=
  mk (canvasWidth g) (canvasHeight g) (config g) l (segmentWidth g)
     (noiseOffset g).

(** Simple noise function *)
Definition noise (g : t) (x : num) : num :=
  let sin1 := Math_sin host (x * dec 2 2 + noiseOffset g) in
  let sin2 := Math_sin host (x * dec 5 2 + noiseOffset g * ofZ 2) * dec 5 1 in
  let sin3 := Math_sin host (x * dec 1 2 + noiseOffset g * dec 5 1) * dec 3 1 in
  (sin1 + sin2 + sin3) / dec 18 1.

Definition createSegment (g : t) (x worldX : num) : TerrainSegment.t :=
  let noise := noise g worldX in
  let topHeight :=
    Stage.baseTopHeight (config g) + noise * Stage.terrainVariation (config g) in
  let bottomHeight :=
    Stage.baseBottomHeight (config g) +
    noise * Stage.terrainVariation (config g) * dec 8 1 in
  TerrainSegment.mk x topHeight bottomHeight (segmentWidth g).

(** The body of the loop of [generateInitialTerrain], rounds [i], [i+1],
    ... for [k] rounds. *)
Fixpoint initialSegments (g : t) (i : Z) (k : nat) : list TerrainSegment.t :=
  match k with
  | O => []
  | S k' =>
      let x := ofZ i * segmentWidth g in
      createSegment g x x :: initialSegments g (i + 1)%Z k'
  end.

(** [None] when the loop of the source does not end. *)
Definition generateInitialTerrain (g : t) : option t :=
  let numSegments := Math_ceil (canvasWidth g / segmentWidth g) + ofZ 10 in
  match forCount numSegments with
  | Some k => Some (with_segments g (segments g ++ initialSegments g 0 k))
  | None => None
  end.

(** [constructor(canvasWidth, canvasHeight, stageConfig)] *)
Definition new (cw ch : num) (stageConfig : Stage.t) : Rand (option t) :=
  r <- random host ;;
  ret (generateInitialTerrain (mk cw ch stageConfig [] (ofZ 4) (r * ofZ 1000))).

Definition update (g : t) (scrollSpeed worldDistance : num) : t :=
  (* Move all segments left *)
  let moved := map (fun s => TerrainSegment.update s scrollSpeed) (segments g) in
  (* Remove segments that are off screen left *)
  let kept :=
    filter (fun s => TerrainSegment.x s + TerrainSegment.width s >? ofZ (-10))
           moved in
  (* Add new segments on the right *)
  match lastOf kept with
  | Some lastSegment =>
      if TerrainSegment.x lastSegment <? canvasWidth g + ofZ 50 then
        let newX := TerrainSegment.x lastSegment + segmentWidth g in
        let worldX := worldDistance + newX in
        with_segments g (kept ++ [createSegment g newX worldX])
      else with_segments g kept
  | None => with_segments g kept
  end.

Definition covers (x : num) (s : TerrainSegment.t) : bool :=
  (x >=? TerrainSegment.x s) &&
  (x <? TerrainSegment.x s + TerrainSegment.width s).

(** Get terrain bounds at a given x position *)
Definition getBoundsAt (g : t) (x : num) : Zone.t :=
  match find (covers x) (segments g) with
  | Some segment =>
      Zone.mk (TerrainSegment.topHeight segment)
              (canvasHeight g - TerrainSegment.bottomHeight segment)
  | None =>
      (* Default bounds *)
      Zone.mk (Stage.baseTopHeight (config g))
              (canvasHeight g - Stage.baseBottomHeight (config g))
  end.

(** Check collision with an entity *)
Fixpoint checkSegments (l : list TerrainSegment.t) (entity : Entity.t)
         (ch : num) : option Wall :=
  match l with
  | [] => None
  | segment :: rest =>
      match TerrainSegment.collidesWithEntity segment entity ch with
      | Some w => Some w
      | None => checkSegments rest entity ch
      end
  end.

Definition checkCollision (g : t) (entity : Entity.t) : option Wall :=
  checkSegments (segments g) entity (canvasHeight g).

(** Get current safe flying zone: the average of the visible terrain. *)
Definition getSafeZone (g : t) : Zone.t :=
  let '(avgTop, avgBottom, count) :=
    fold_left
      (fun (acc : num * num * Z) segment =>
         let '(avgTop, avgBottom, count) := acc in
         if (TerrainSegment.x segment >=? ofZ 0) &&
            (TerrainSegment.x segment <=? canvasWidth g)
         then (avgTop + TerrainSegment.topHeight segment,
               avgBottom + (canvasHeight g - TerrainSegment.bottomHeight segment),
               (count + 1)%Z)
         else acc)
      (segments g) (ofZ 0, ofZ 0, 0%Z) in
  if (count =? 0)%Z then
    Zone.mk (Stage.baseTopHeight (config g))
            (canvasHeight g - Stage.baseBottomHeight (config g))
  else
    Zone.mk (avgTop / ofZ count) (avgBottom / ofZ count).
End WithNumbers.
End TerrainGenerator.

Module SpawnManager.
Section WithNumbers.
Context {N : JSNumber} (host : Host).
Local Open Scope js_scope.

Record t : Type := mk {
  canvasWidth : num;
  canvasHeight : num;
  config : Stage.t;
  spawnTimer : Z;
  groundSpawnTimer : Z
}.

Definition new (cw ch : num) (stageConfig : Stage.t) : t :=
  mk cw ch stageConfig 0 0.

(** [types[Math.floor(Math.random() * types.length)]] *)
Definition pickType (types : list string) : Rand (option string) :=
  r <- random host ;;
  ret (arrayGet types (floorZ (r * ofZ (Z.of_nat (List.length types))))).

(** [TABLE[type]] where [type] may be [undefined]. *)
Definition lookupType {C} (table : string -> option C) (type : option string)
  : option C :=
  match type with Some k => table k | None => None end.

(** [spawnEnemy(terrain)]: [None] is the [null] of the source. *)
Definition spawnEnemy (m : t) (terrain : TerrainGenerator.t)
  : Rand (option Enemy.t) :=
  type <- pickType (Stage.enemyTypes (config m)) ;;
  match type, lookupType ENEMY_TYPES type with
  | Some type, Some config =>
      (* Spawn off the right side of the screen *)
      let x := canvasWidth m + ofZ 50 in
      (* Get safe zone for spawning *)
      let safeZone := TerrainGenerator.getSafeZone terrain in
      let minY := Zone.top safeZone + ofZ 10 in
      let maxY := Zone.bottom safeZone - EnemyConfig.height config - ofZ 10 in
      if maxY <=? minY then ret None
      else
        r <- random host ;;
        let y := minY + r * (maxY - minY) in
        e <- Enemy.new host x y type config ;;
        ret (Some e)
  | _, _ => ret None
  end.

(** [spawnGroundTarget(terrain)] *)
Definition spawnGroundTarget (m : t) (terrain : TerrainGenerator.t)
  : Rand (option GroundTarget.t) :=
  type <- pickType (Stage.groundTargetTypes (config m)) ;;
  match type, lookupType GROUND_TARGET_TYPES type with
  | Some type, Some config =>
      (* Spawn on the ground (bottom terrain) *)
      let x := canvasWidth m + ofZ 50 in
      (* Get terrain height at spawn position *)
      let bounds := TerrainGenerator.getBoundsAt terrain x in
      (* Some targets float above ground (like fuel tanks) *)
      let floatOffset := orNum (GroundTargetConfig.floatHeight config) (ofZ 0) in
      let y := Zone.bottom bounds - GroundTargetConfig.height config - floatOffset in
      ret (Some (GroundTarget.new x y type config))
  | _, _ => ret None
  end.

Definition optList {A} (o : option A) : list A :=
  match o with Some a => [a] | None => [] end.

(** [update(terrain, worldDistance)]: the spawned enemies and ground
    targets of this frame, and the manager with its timers advanced. *)
Definition update (m : t) (terrain : TerrainGenerator.t) (worldDistance : num)
  : Rand (list Enemy.t * list GroundTarget.t * t) :=
  (* Spawn flying enemies *)
  let m := mk (canvasWidth m) (canvasHeight m) (config m)
              (spawnTimer m + 1)%Z (groundSpawnTimer m) in
  r <- random host ;;
  enemies <- (if r <? Stage.enemyDensity (config m)
              then e <- spawnEnemy m terrain ;; ret (optList e)
              else ret []) ;;
  (* Spawn ground targets *)
  let m := mk (canvasWidth m) (canvasHeight m) (config m)
              (spawnTimer m) (groundSpawnTimer m + 1)%Z in
  r <- random host ;;
  groundTargets <- (if r <? Stage.groundTargetDensity (config m)
                    then g <- spawnGroundTarget m terrain ;; ret (optList g)
                    else ret []) ;;
  ret (enemies, groundTargets, m).
End WithNumbers.
End SpawnManager.

(** ** game.js *)

Inductive GameState : Type :=
  START_SCREEN | PLAYING | STAGE_TRANSITION | GAME_OVER | VICTORY | PAUSED.

(** The two properties of the canvas element that the simulation reads. *)
Module Canvas.
Section WithNumbers.
Context {N : JSNumber}.
Record t : Type := mk { width : num; height : num }.
End WithNumbers.
End Canvas.

Section Loops.
(** The inner loop shared by the collision passes: over [l] in order,
    skipping elements that are not [live], the first element that [hits]
    is replaced by [struck] of it and the loop breaks. The result is the
    element found, as it was, and the list after the replacement; [None]
    when the loop ran to its end. *)
Fixpoint strikeFirst {A} (live hits : A -> bool) (struck : A -> A)
         (l : list A) : option (A * list A) :=
  match l with
  | [] => None
  | a :: rest =>
      if live a && hits a then Some (a, struck a :: rest)
      else match strikeFirst live hits struck rest with
           | Some (found, rest') => Some (found, a :: rest')
           | None => None
           end
  end.
End Loops.

(** [Game], for a game on which [start()] has run: [player], [terrain] and
    [spawnManager] are set. The observers [onStateChange] and
    [onScoreChange], the renderer and the frame scheduling are outside the
    simulation. *)
Module Game.
Section WithNumbers.
Context {N : JSNumber} (host : Host).
Local Open Scope js_scope.

Record t : Type := mk {
  state : GameState;
  stateTimer : Z;
  player : Player.t;
  enemies : list Enemy.t;
  groundTargets : list GroundTarget.t;
  bullets : list Bullet.t;
  bombs : list Bomb.t;
  particles : list Particle.t;
  terrain : TerrainGenerator.t;
  spawnManager : SpawnManager.t;
  score : Z;
  bestScore : Z;
  currentStage : nat;
  distance : num;
  scrollSpeed : num;
  input : Input.t;
  canvas : Canvas.t
}.

Definition with_state (g : t) (v : GameState) : t :=
  mk v (stateTimer g) (player g) (enemies g) (groundTargets g)
     (bullets g) (bombs g) (particles g) (terrain g) (spawnManager g)
     (score g) (bestScore g) (currentStage g) (distance g)
     (scrollSpeed g) (input g) (canvas g).
Definition with_stateTimer (g : t) (v : Z) : t :=
  mk (state g) v (player g) (enemies g) (groundTargets g) (bullets g)
     (bombs g) (particles g) (terrain g) (spawnManager g) (score g)
     (bestScore g) (currentStage g) (distance g) (scrollSpeed g)
     (input g) (canvas g).
Definition with_player (g : t) (v : Player.t) : t :=
  mk (state g) (stateTimer g) v (enemies g) (groundTargets g)
     (bullets g) (bombs g) (particles g) (terrain g) (spawnManager g)
     (score g) (bestScore g) (currentStage g) (distance g)
     (scrollSpeed g) (input g) (canvas g).
Definition with_enemies (g : t) (v : list Enemy.t) : t :=
  mk (state g) (stateTimer g) (player g) v (groundTargets g) (bullets g)
     (bombs g) (particles g) (terrain g) (spawnManager g) (score g)
     (bestScore g) (currentStage g) (distance g) (scrollSpeed g)
     (input g) (canvas g).
Definition with_groundTargets (g : t) (v : list GroundTarget.t) : t :=
  mk (state g) (stateTimer g) (player g) (enemies g) v (bullets g)
     (bombs g) (particles g) (terrain g) (spawnManager g) (score g)
     (bestScore g) (currentStage g) (distance g) (scrollSpeed g)
     (input g) (canvas g).
Definition with_bullets (g : t) (v : list Bullet.t) : t :=
  mk (state g) (stateTimer g) (player g) (enemies g) (groundTargets g) v
     (bombs g) (particles g) (terrain g) (spawnManager g) (score g)
     (bestScore g) (currentStage g) (distance g) (scrollSpeed g)
     (input g) (canvas g).
Definition with_bombs (g : t) (v : list Bomb.t) : t :=
  mk (state g) (stateTimer g) (player g) (enemies g) (groundTargets g)
     (bullets g) v (particles g) (terrain g) (spawnManager g) (score g)
     (bestScore g) (currentStage g) (distance g) (scrollSpeed g)
     (input g) (canvas g).
Definition with_particles (g : t) (v : list Particle.t) : t :=
  mk (state g) (stateTimer g) (player g) (enemies g) (groundTargets g)
     (bullets g) (bombs g) v (terrain g) (spawnManager g) (score g)
     (bestScore g) (currentStage g) (distance g) (scrollSpeed g)
     (input g) (canvas g).
Definition with_terrain (g : t) (v : TerrainGenerator.t) : t :=
  mk (state g) (stateTimer g) (player g) (enemies g) (groundTargets g)
     (bullets g) (bombs g) (particles g) v (spawnManager g) (score g)
     (bestScore g) (currentStage g) (distance g) (scrollSpeed g)
     (input g) (canvas g).
Definition with_spawnManager (g : t) (v : SpawnManager.t) : t :=
  mk (state g) (stateTimer g) (player g) (enemies g) (groundTargets g)
     (bullets g) (bombs g) (particles g) (terrain g) v (score g)
     (bestScore g) (currentStage g) (distance g) (scrollSpeed g)
     (input g) (canvas g).
Definition with_score (g : t) (v : Z) : t :=
  mk (state g) (stateTimer g) (player g) (enemies g) (groundTargets g)
     (bullets g) (bombs g) (particles g) (terrain g) (spawnManager g) v
     (bestScore g) (currentStage g) (distance g) (scrollSpeed g)
     (input g) (canvas g).
Definition with_bestScore (g : t) (v : Z) : t :=
  mk (state g) (stateTimer g) (player g) (enemies g) (groundTargets g)
     (bullets g) (bombs g) (particles g) (terrain g) (spawnManager g)
     (score g) v (currentStage g) (distance g) (scrollSpeed g) (input g)
     (canvas g).
Definition with_currentStage (g : t) (v : nat) : t :=
  mk (state g) (stateTimer g) (player g) (enemies g) (groundTargets g)
     (bullets g) (bombs g) (particles g) (terrain g) (spawnManager g)
     (score g) (bestScore g) v (distance g) (scrollSpeed g) (input g)
     (canvas g).
Definition with_distance (g : t) (v : num) : t :=
  mk (state g) (stateTimer g) (player g) (enemies g) (groundTargets g)
     (bullets g) (bombs g) (particles g) (terrain g) (spawnManager g)
     (score g) (bestScore g) (currentStage g) v (scrollSpeed g)
     (input g) (canvas g).
Definition with_scrollSpeed (g : t) (v : num) : t :=
  mk (state g) (stateTimer g) (player g) (enemies g) (groundTargets g)
     (bullets g) (bombs g) (particles g) (terrain g) (spawnManager g)
     (score g) (bestScore g) (currentStage g) (distance g) v (input g)
     (canvas g).
Definition with_input (g : t) (v : Input.t) : t :=
  mk (state g) (stateTimer g) (player g) (enemies g) (groundTargets g)
     (bullets g) (bombs g) (particles g) (terrain g) (spawnManager g)
     (score g) (bestScore g) (currentStage g) (distance g)
     (scrollSpeed g) v (canvas g).

Definition saveBestScore (g : t) : t :=
  if (score g >? bestScore g)%Z then with_bestScore g (score g) else g.

Definition onStateEnter (g : t) (st : GameState) : t :=
  match st with
  | STAGE_TRANSITION => with_stateTimer g 120
  | GAME_OVER => saveBestScore g
  | VICTORY => saveBestScore g
  | _ => g
  end.

Definition setState (g : t) (newState : GameState) : t :=
  let g := with_state g newState in
  let g := with_stateTimer g 0 in
  onStateEnter g newState.

Definition addScore (g : t) (points : Z) : t :=
  with_score g (score g + points)%Z.

(** [getStage(this.currentStage)]. The stage index of a game is never
    negative, so the lookup is always defined ([getStage_defined]
    below) and the last branch is never taken. *)
Definition stageConfigAt (index : nat) : Stage.t :=
  match getStage (Z.of_nat index) with
  | Some stageConfig => stageConfig
  | None => FINAL_FORTRESS
  end.

Definition explode (g : t) (x y : num) (color : string) (count : nat) : Rand t :=
  ps <- createExplosion host x y color count ;;
  ret (with_particles g (particles g ++ ps)).

Definition playerHit (g : t) : Rand t :=
  let (wasHit, p) := Player.hit (player g) in
  let g := with_player g p in
  if wasHit then
    g <- explode g (Entity.getCenterX (Player.base (player g)))
                   (Entity.getCenterY (Player.base (player g)))
                   "#ff8c00" 15 ;;
    if (Player.lives (player g) <=? 0)%Z then ret (setState g GAME_OVER)
    else ret g
  else ret g.

Definition playerCrash (g : t) : Rand t :=
  g <- explode g (Entity.getCenterX (Player.base (player g)))
                 (Entity.getCenterY (Player.base (player g)))
                 "#ff8c00" 20 ;;
  let g := with_player g
             (Player.with_lives (player g) (Player.lives (player g) - 1)%Z) in
  if (Player.lives (player g) <=? 0)%Z then ret (setState g GAME_OVER)
  else
    (* Reset player position and give brief invincibility *)
    let p := player g in
    let p := Player.with_x p (ofZ 60) in
    let p := Player.with_y p
               (Canvas.height (canvas g) / ofZ 2 - Player.height p / ofZ 2) in
    let p := Player.with_isInvincible p true in
    let p := Player.with_invincibleTimer p 120 in
    let p := Player.with_fuel p (Math_max (Player.fuel p) (ofZ 30)) in
    ret (with_player g p).

(** The loop of [updateEnemies]: the enemies after their update and the
    bullets they fired, in firing order. *)
Fixpoint stepEnemies (es : list Enemy.t) (scrollSpeed : num)
  : Rand (list Enemy.t * list Bullet.t) :=
  match es with
  | [] => ret ([], [])
  | enemy :: rest =>
      if negb (Enemy.active enemy) then
        '(es', fired) <- stepEnemies rest scrollSpeed ;;
        ret (enemy :: es', fired)
      else
        let enemy := Enemy.update host enemy scrollSpeed in
        (* Enemy shooting *)
        s <- Enemy.shouldShoot host enemy ;;
        '(es', fired) <- stepEnemies rest scrollSpeed ;;
        ret (enemy :: es',
             if s then Enemy.shoot enemy :: fired else fired)
  end.

Definition updateEnemies (g : t) : Rand t :=
  '(es, fired) <- stepEnemies (enemies g) (scrollSpeed g) ;;
  let g := with_bullets g (bullets g ++ fired) in
  (* Remove inactive enemies *)
  ret (with_enemies g (filter Enemy.active es)).

Fixpoint stepGroundTargets (ts : list GroundTarget.t) (scrollSpeed : num)
  : Rand (list GroundTarget.t * list Bullet.t) :=
  match ts with
  | [] => ret ([], [])
  | target :: rest =>
      if negb (GroundTarget.active target) then
        '(ts', fired) <- stepGroundTargets rest scrollSpeed ;;
        ret (target :: ts', fired)
      else
        let target := GroundTarget.update target scrollSpeed in
        (* Target shooting (missiles, etc.) *)
        s <- GroundTarget.shouldShoot host target ;;
        '(ts', fired) <- stepGroundTargets rest scrollSpeed ;;
        ret (target :: ts',
             if s then GroundTarget.shoot target :: fired else fired)
  end.

Definition updateGroundTargets (g : t) : Rand t :=
  '(ts, fired) <- stepGroundTargets (groundTargets g) (scrollSpeed g) ;;
  let g := with_bullets g (bullets g ++ fired) in
  (* Remove inactive targets *)
  ret (with_groundTargets g (filter GroundTarget.active ts)).

Definition updateBullets (g : t) : t :=
  let bs := map (fun bullet =>
                   Bullet.update bullet (Canvas.width (canvas g))
                                 (Canvas.height (canvas g)))
                (bullets g) in
  (* Remove inactive bullets *)
  with_bullets g (filter Bullet.active bs).

(** The loop of [updateBombs], which pushes particles as it goes. *)
Fixpoint stepBombs (bs : list Bomb.t) (g : t) : Rand (list Bomb.t * t) :=
  match bs with
  | [] => ret ([], g)
  | bomb :: rest =>
      let bomb := Bomb.update bomb (Canvas.width (canvas g))
                              (Canvas.height (canvas g)) in
      (* Check terrain collision for bombs *)
      match TerrainGenerator.checkCollision (terrain g) (Bomb.base bomb) with
      | Some _ =>
          g <- explode g (Entity.getCenterX (Bomb.base bomb))
                         (Entity.getCenterY (Bomb.base bomb))
                         (Bomb.color bomb) 6 ;;
          '(bs', g) <- stepBombs rest g ;;
          ret (Bomb.with_active bomb false :: bs', g)
      | None =>
          '(bs', g) <- stepBombs rest g ;;
          ret (bomb :: bs', g)
      end
  end.

Definition updateBombs (g : t) : Rand t :=
  '(bs, g) <- stepBombs (bombs g) g ;;
  (* Remove inactive bombs *)
  ret (with_bombs g (filter Bomb.active bs)).

Definition updateParticles (g : t) : t :=
  with_particles g (filter Particle.active (map Particle.update (particles g))).

(** *** checkCollisions, pass by pass *)

(** Player bullets vs enemies: the outer loop over the bullets. *)
Fixpoint bulletsVsEnemies (bs : list Bullet.t) (g : t) : Rand (list Bullet.t * t) :=
  match bs with
  | [] => ret ([], g)
  | bullet :: rest =>
      if negb (Bullet.isPlayerBullet bullet) || negb (Bullet.active bullet) then
        '(bs', g) <- bulletsVsEnemies rest g ;;
        ret (bullet :: bs', g)
      else
        match strikeFirst Enemy.active
                (fun enemy => Entity.collidesWith (Bullet.base bullet) (Enemy.base enemy))
                (fun enemy => snd (Enemy.takeDamage enemy (Bullet.damage bullet)))
                (enemies g) with
        | Some (enemy, es) =>
            let bullet := Bullet.with_active bullet false in
            let (destroyed, enemy) := Enemy.takeDamage enemy (Bullet.damage bullet) in
            let g := with_enemies g es in
            g <- (if destroyed then
                    let g := addScore g (Enemy.points enemy) in
                    explode g (Entity.getCenterX (Enemy.base enemy))
                              (Entity.getCenterY (Enemy.base enemy))
                              (Enemy.color enemy) 10
                  else ret g) ;;
            '(bs', g) <- bulletsVsEnemies rest g ;;
            ret (bullet :: bs', g)
        | None =>
            '(bs', g) <- bulletsVsEnemies rest g ;;
            ret (bullet :: bs', g)
        end
  end.

(** What the destruction of a ground target does, with [count]
    particles: score, explosion and fuel pickup. *)
Definition destroyTarget (g : t) (target : GroundTarget.t) (count : nat) : Rand t :=
  let g := addScore g (GroundTarget.points target) in
  g <- explode g (Entity.getCenterX (GroundTarget.base target))
                 (Entity.getCenterY (GroundTarget.base target))
                 (GroundTarget.color target) count ;;
  (* Fuel pickup *)
  if GroundTarget.givesFuel target then
    ret (with_player g (Player.addFuel (player g) (GroundTarget.fuelAmount target)))
  else ret g.

(** Bombs vs ground targets. *)
Fixpoint bombsVsTargets (bs : list Bomb.t) (g : t) : Rand (list Bomb.t * t) :=
  match bs with
  | [] => ret ([], g)
  | bomb :: rest =>
      if negb (Bomb.active bomb) then
        '(bs', g) <- bombsVsTargets rest g ;;
        ret (bomb :: bs', g)
      else
        match strikeFirst GroundTarget.active
                (fun target => Entity.collidesWith (Bomb.base bomb) (GroundTarget.base target))
                (fun target => GroundTarget.with_active target false)
                (groundTargets g) with
        | Some (target, ts) =>
            let bomb := Bomb.with_active bomb false in
            let g := with_groundTargets g ts in
            g <- destroyTarget g (GroundTarget.with_active target false) 12 ;;
            '(bs', g) <- bombsVsTargets rest g ;;
            ret (bomb :: bs', g)
        | None =>
            '(bs', g) <- bombsVsTargets rest g ;;
            ret (bomb :: bs', g)
        end
  end.

(** Player bullets vs ground targets. *)
Fixpoint bulletsVsTargets (bs : list Bullet.t) (g : t) : Rand (list Bullet.t * t) :=
  match bs with
  | [] => ret ([], g)
  | bullet :: rest =>
      if negb (Bullet.isPlayerBullet bullet) || negb (Bullet.active bullet) then
        '(bs', g) <- bulletsVsTargets rest g ;;
        ret (bullet :: bs', g)
      else
        match strikeFirst GroundTarget.active
                (fun target => Entity.collidesWith (Bullet.base bullet) (GroundTarget.base target))
                (fun target => GroundTarget.with_active target false)
                (groundTargets g) with
        | Some (target, ts) =>
            let bullet := Bullet.with_active bullet false in
            let g := with_groundTargets g ts in
            g <- destroyTarget g (GroundTarget.with_active target false) 10 ;;
            '(bs', g) <- bulletsVsTargets rest g ;;
            ret (bullet :: bs', g)
        | None =>
            '(bs', g) <- bulletsVsTargets rest g ;;
            ret (bullet :: bs', g)
        end
  end.

(** Enemy bullets vs player: the first hostile bullet that touches the
    player is spent on it, and the loop breaks. *)
Definition hostileBulletsVsPlayer (g : t) : Rand t :=
  match strikeFirst
          (fun bullet => negb (Bullet.isPlayerBullet bullet) && Bullet.active bullet)
          (fun bullet => Entity.collidesWith (Bullet.base bullet) (Player.base (player g)))
          (fun bullet => Bullet.with_active bullet false)
          (bullets g) with
  | Some (_, bs) => playerHit (with_bullets g bs)
  | None => ret g
  end.

(** Player vs enemies (collision = death) *)
Definition playerVsEnemies (g : t) : Rand t :=
  match strikeFirst Enemy.active
          (fun enemy => Entity.collidesWith (Player.base (player g)) (Enemy.base enemy))
          (fun enemy => Enemy.with_active enemy false)
          (enemies g) with
  | Some (enemy, es) =>
      g <- explode g (Entity.getCenterX (Enemy.base enemy))
                     (Entity.getCenterY (Enemy.base enemy))
                     (Enemy.color enemy) 10 ;;
      playerHit (with_enemies g es)
  | None => ret g
  end.

Definition checkCollisions (g : t) : Rand t :=
  (* Player bullets vs enemies *)
  '(bs, g) <- bulletsVsEnemies (bullets g) g ;;
  let g := with_bullets g bs in
  (* Bombs vs ground targets *)
  '(bombs', g) <- bombsVsTargets (bombs g) g ;;
  let g := with_bombs g bombs' in
  (* Player bullets vs ground targets *)
  '(bs, g) <- bulletsVsTargets (bullets g) g ;;
  let g := with_bullets g bs in
  (* Enemy bullets vs player *)
  g <- hostileBulletsVsPlayer g ;;
  (* Player vs enemies (collision = death) *)
  playerVsEnemies g.

(** [updatePlaying], block by block. *)

(** Distance, terrain and player. *)
Definition flyFrame (g : t) : t :=
  (* Update distance (score multiplier) *)
  let g := with_distance g (distance g + scrollSpeed g) in
  (* Update terrain *)
  let g := with_terrain g
             (TerrainGenerator.update host (terrain g) (scrollSpeed g) (distance g)) in
  (* Get player safe bounds from terrain *)
  let safeZone := TerrainGenerator.getSafeZone (terrain g) in
  (* Update player *)
  with_player g
    (Player.update (player g) (input g)
                   (Zone.top safeZone) (Zone.bottom safeZone)).

Definition fireFrame (g : t) : t :=
  (* Player shooting *)
  let g := if Input.shoot (input g) then
             match Player.shoot (player g) with
             | (Some bullet, p) => with_bullets (with_player g p) (bullets g ++ [bullet])
             | (None, p) => with_player g p
             end
           else g in
  (* Player bombing *)
  if Input.bomb (input g) then
    match Player.bomb (player g) with
    | (Some bomb, p) => with_bombs (with_player g p) (bombs g ++ [bomb])
    | (None, p) => with_player g p
    end
  else g.

(* Spawn new enemies and targets *)
Definition spawnFrame (g : t) : Rand t :=
  '(es, ts, sm) <- SpawnManager.update host (spawnManager g) (terrain g) (distance g) ;;
  let g := with_spawnManager g sm in
  let g := with_enemies g (enemies g ++ es) in
  ret (with_groundTargets g (groundTargets g ++ ts)).

(** The first half of [updatePlaying]: everything up to and including
    [checkCollisions]. *)
Definition simulateFrame (g : t) : Rand t :=
  g <- spawnFrame (fireFrame (flyFrame g)) ;;
  (* Update all entities *)
  g <- updateEnemies g ;;
  g <- updateGroundTargets g ;;
  g <- updateBombs (updateBullets g) ;;
  (* Check collisions *)
  checkCollisions g.

(** The second half of [updatePlaying]: the three checks that end the
    frame; [stageConfig] is the one read at the top of the method. *)
Definition resolveFrame (stageConfig : Stage.t) (g : t) : Rand t :=
  (* Check terrain collision for player *)
  match TerrainGenerator.checkCollision (terrain g) (Player.base (player g)) with
  | Some _ => playerCrash g
  | None =>
      (* Check fuel - out of fuel means game over *)
      if Player.fuel (player g) <=? ofZ 0 then playerCrash g
      else
        (* Check stage completion *)
        if distance g >=? Stage.length stageConfig
        then ret (setState g STAGE_TRANSITION)
        else ret g
  end.

Definition updatePlaying (g : t) : Rand t :=
  let stageConfig := stageConfigAt (currentStage g) in
  g <- simulateFrame g ;;
  resolveFrame stageConfig g.

(** [initStage()]; [None] when building the terrain does not end. *)
Definition initStage (g : t) : Rand (option t) :=
  let stageConfig := stageConfigAt (currentStage g) in
  let g := with_scrollSpeed g (Stage.scrollSpeed stageConfig) in
  (* Create new terrain and spawn manager for this stage *)
  terrain <- TerrainGenerator.new host (Canvas.width (canvas g))
               (Canvas.height (canvas g)) stageConfig ;;
  match terrain with
  | None => ret None
  | Some terrain =>
      let g := with_terrain g terrain in
      let g := with_spawnManager g
                 (SpawnManager.new (Canvas.width (canvas g))
                                   (Canvas.height (canvas g)) stageConfig) in
      (* Reset distance for stage *)
      let g := with_distance g (ofZ 0) in
      (* Clear enemies but keep player *)
      let g := with_enemies g [] in
      let g := with_groundTargets g [] in
      let g := with_bullets g [] in
      ret (Some (with_bombs g []))
  end.

Definition advanceStage (g : t) : Rand (option t) :=
  let g := with_currentStage g (S (currentStage g)) in
  if (Z.of_nat (currentStage g) >=? getTotalStages)%Z then
    (* All stages complete! *)
    ret (Some (setState g VICTORY))
  else
    (* Initialize next stage *)
    g <- initStage g ;;
    match g with
    | Some g => ret (Some (setState g PLAYING))
    | None => ret None
    end.

(** [update(deltaTime)]: one frame of the state machine. *)
Definition update (g : t) : Rand (option t) :=
  (* Always update particles *)
  let g := updateParticles g in
  match state g with
  | PLAYING => g <- updatePlaying g ;; ret (Some g)
  | STAGE_TRANSITION =>
      let g := with_stateTimer g (stateTimer g - 1)%Z in
      if (stateTimer g <=? 0)%Z then advanceStage g else ret (Some g)
  | _ => ret (Some g)
  end.

(** [start()], also reached through [restart()]. *)
Definition start (g : t) : Rand (option t) :=
  (* Reset game state *)
  let g := with_score g 0%Z in
  let g := with_currentStage g O in
  let g := with_distance g (ofZ 0) in
  (* Get stage config *)
  let stageConfig := stageConfigAt (currentStage g) in
  let g := with_scrollSpeed g (Stage.scrollSpeed stageConfig) in
  (* Create terrain and spawn manager *)
  terrain <- TerrainGenerator.new host (Canvas.width (canvas g))
               (Canvas.height (canvas g)) stageConfig ;;
  match terrain with
  | None => ret None
  | Some terrain =>
      let g := with_terrain g terrain in
      let g := with_spawnManager g
                 (SpawnManager.new (Canvas.width (canvas g))
                                   (Canvas.height (canvas g)) stageConfig) in
      (* Create player *)
      let g := with_player g
                 (Player.new (Canvas.width (canvas g)) (Canvas.height (canvas g))) in
      (* Clear entities *)
      let g := with_enemies g [] in
      let g := with_groundTargets g [] in
      let g := with_bullets g [] in
      let g := with_bombs g [] in
      let g := with_particles g [] in
      (* Start playing *)
      ret (Some (setState g PLAYING))
  end.

Definition restart (g : t) : Rand (option t) := start g.

Definition pause (g : t) : t :=
  match state g with
  | PLAYING => setState g PAUSED
  | PAUSED => setState g PLAYING
  | _ => g
  end.

(** [setInput(key, value)]; a key outside the six flags changes none. *)
Definition setInput (g : t) (key : string) (value : bool) : t :=
  let i := input g in
  with_input g
    (Input.mk
       (if String.eqb key "up" then value else Input.up i)
       (if String.eqb key "down" then value else Input.down i)
       (if String.eqb key "left" then value else Input.left i)
       (if String.eqb key "right" then value else Input.right i)
       (if String.eqb key "shoot" then value else Input.shoot i)
       (if String.eqb key "bomb" then value else Input.bomb i)).
End WithNumbers.
End Game.

(** ** nostr.js: the pure helpers

    [bytesToHex], [hexToBytes] and [getShortNpub] of the Nostr integration
    ([src/unnamed/part_000]). A JavaScript string is the list of its
    UTF-16 code units; a [Uint8Array] is a list of bytes. *)
Module Nostr.
Local Open Scope N_scope.

Definition JSString : Type := list N.

(** A string literal of ASCII characters. *)
Definition lit (s : string) : JSString :=
  map N_of_ascii (list_ascii_of_string s).

(** The digit of value [d < 16] as [toString(16)] writes it. *)
Definition hexDigit (d : N) : N :=
  nth (N.to_nat d) (lit "0123456789abcdef") 0.

(** [b.toString(16)] for an element [b] of a [Uint8Array]: one or two
    lower-case digits, no leading zero. *)
Definition toString16 (b : Byte.byte) : JSString :=
  let n := Byte.to_N b in
  if n <? 16 then [hexDigit n] else [hexDigit (n / 16); hexDigit (n mod 16)].

(** [s.padStart(2, '0')] *)
Definition padStart2 (s : JSString) : JSString :=
  match s with
  | [] => lit "00"
  | [c] => N_of_ascii "0" :: [c]
  | _ => s
  end.

(** [Array.from(buf).map(b => b.toString(16).padStart(2, '0')).join('')] *)
Definition bytesToHex (buf : list Byte.byte) : JSString :=
  List.concat (map (fun b => padStart2 (toString16 b)) buf).

(** The code units [parseInt] skips at the start of its input: the
    WhiteSpace and LineTerminator code points of the language. *)
Definition isStrWhiteSpaceChar (c : N) : bool :=
  (c =? 9) || (c =? 10) || (c =? 11) || (c =? 12) || (c =? 13) || (c =? 32) ||
  (c =? 160) || (c =? 5760) || ((8192 <=? c) && (c <=? 8202)) ||
  (c =? 8232) || (c =? 8233) || (c =? 8239) || (c =? 8287) || (c =? 12288) ||
  (c =? 65279).

Fixpoint trimStart (s : JSString) : JSString :=
  match s with
  | c :: rest => if isStrWhiteSpaceChar c then trimStart rest else s
  | [] => []
  end.

(** The value of a radix-16 digit; [None] for any other code unit. *)
Definition digitValue16 (c : N) : option N :=
  if (48 <=? c) && (c <=? 57) then Some (c - 48)
  else if (97 <=? c) && (c <=? 102) then Some (c - 87)
  else if (65 <=? c) && (c <=? 70) then Some (c - 55)
  else None.

(** The digits at the start of [s], up to the first code unit that is
    not a radix-16 digit. *)
Fixpoint leadingDigits (s : JSString) : list N :=
  match s with
  | c :: rest =>
      match digitValue16 c with
      | Some d => d :: leadingDigits rest
      | None => []
      end
  | [] => []
  end.

Definition digitsValue (ds : list N) : N :=
  fold_left (fun acc d => acc * 16 + d) ds 0.

(** [parseInt(s, 16)]: [None] is NaN. White space is skipped, a sign
    taken, a prefix [0x] or [0X] dropped, and the longest run of digits
    read; what follows it is ignored. *)
Definition parseInt16 (s : JSString) : option Z :=
  let s := trimStart s in
  let '(sign, s) :=
    match s with
    | c :: rest =>
        if c =? N_of_ascii "-" then ((-1)%Z, rest)
        else if c =? N_of_ascii "+" then (1%Z, rest)
        else (1%Z, s)
    | [] => (1%Z, s)
    end in
  let s :=
    match s with
    | c0 :: cx :: rest =>
        if (c0 =? N_of_ascii "0") &&
           ((cx =? N_of_ascii "x") || (cx =? N_of_ascii "X"))
        then rest else s
    | _ => s
    end in
  match leadingDigits s with
  | [] => None
  | ds => Some (sign * Z.of_N (digitsValue ds))%Z
  end.

(** The Byte.byte a [Uint8Array] stores when assigned a number: NaN is 0, an
    integer is taken modulo 256. *)
Definition toUint8 (v : option Z) : Byte.byte :=
  match v with
  | None => Byte.x00
  | Some z =>
      match Byte.of_N (Z.to_N (z mod 256)) with
      | Some b => b
      | None => Byte.x00
      end
  end.

(** [hexToBytes(hex)]: an array of [floor(hex.length / 2)] bytes, one
    per pair of code units. A last odd code unit is parsed and the
    assignment, beyond the end of the array, has no effect. *)
Fixpoint hexToBytes (hex : JSString) : list Byte.byte :=
  match hex with
  | c1 :: c2 :: rest => toUint8 (parseInt16 [c1; c2]) :: hexToBytes rest
  | _ => []
  end.

(** [getShortNpub(npub)]; [None] is [null] or [undefined]. *)
Definition getShortNpub (npub : option JSString) : option JSString :=
  match npub with
  | None => None
  | Some s =>
      (* !npub || npub.length < 20 *)
      if Nat.eqb (List.length s) 0 || Nat.ltb (List.length s) 20
      then Some s
      else Some (firstn 12 s ++ lit "..." ++ skipn (List.length s - 6) s)
  end.

End Nostr.

(** ** The two number systems *)

(** IEEE 754 binary64, the numbers of the running program. *)
Module B64.
Definition prec : Z := 53.
Definition emax : Z := 1024.

Definition add := SFadd prec emax.
Definition sub := SFsub prec emax.
Definition mul := SFmul prec emax.
Definition div := SFdiv prec emax.

Definition ltb (a b : spec_float) : bool :=
  match SFcompare a b with Some Lt => true | _ => false end.
Definition leb (a b : spec_float) : bool :=
  match SFcompare a b with Some (Lt | Eq) => true | _ => false end.
Definition gtb (a b : spec_float) : bool :=
  match SFcompare a b with Some Gt => true | _ => false end.
Definition geb (a b : spec_float) : bool :=
  match SFcompare a b with Some (Gt | Eq) => true | _ => false end.

(** An integer, rounded to the nearest double (exact below [2^53]). *)
Definition ofZ (z : Z) : spec_float := binary_normalize prec emax z 0 false.

(** A decimal literal, as the correctly rounded quotient of two
    integers that are doubles themselves. *)
Definition dec (m : Z) (k : nat) : spec_float :=
  div (ofZ m) (ofZ (10 ^ Z.of_nat k)).

(** [Math.max] and [Math.min]: NaN if either is NaN, and [-0 < +0]. *)
Definition Math_max (a b : spec_float) : spec_float :=
  match SFcompare a b with
  | None => S754_nan
  | Some Lt => b
  | Some Gt => a
  | Some Eq => match a with S754_zero true => b | _ => a end
  end.
Definition Math_min (a b : spec_float) : spec_float :=
  match SFcompare a b with
  | None => S754_nan
  | Some Lt => a
  | Some Gt => b
  | Some Eq => match a with S754_zero true => a | _ => b end
  end.

(** The value of a finite double is [(-1)^s * m * 2^e]; a shift by a
    negative amount rounds towards minus infinity. *)
Definition floorZ (a : spec_float) : option Z :=
  match a with
  | S754_zero _ => Some 0
  | S754_finite s m e => Some (Z.shiftl (cond_Zopp s (Zpos m)) e)
  | _ => None
  end.
Definition ceilZ (a : spec_float) : option Z :=
  match a with
  | S754_zero _ => Some 0
  | S754_finite s m e => Some (- Z.shiftl (- cond_Zopp s (Zpos m)) e)
  | _ => None
  end.

Definition truthy (a : spec_float) : bool :=
  match a with
  | S754_zero _ => false
  | S754_nan => false
  | _ => true
  end.

Lemma SFcompare_swap (a b : spec_float) :
  SFcompare b a = option_map CompOpp (SFcompare a b).
Proof.
  destruct a as [sa|sa| |sa ma ea], b as [sb|sb| |sb mb eb]; simpl;
    try reflexivity;
    try (destruct sa; reflexivity); try (destruct sb; reflexivity);
    try (destruct sa, sb; reflexivity).
  destruct sa, sb; try reflexivity;
    rewrite (Z.compare_antisym ea eb);
    destruct (ea ?= eb); simpl; try reflexivity;
    change (Pos.compare_cont Eq mb ma) with (Pos.compare mb ma);
    change (Pos.compare_cont Eq ma mb) with (Pos.compare ma mb);
    rewrite (Pos.compare_antisym ma mb);
    destruct (Pos.compare ma mb); reflexivity.
Qed.

Lemma gtb_ltb (a b : spec_float) : gtb a b = ltb b a.
Proof.
  unfold gtb, ltb. rewrite (SFcompare_swap a b).
  destruct (SFcompare a b) as [[]|]; reflexivity.
Qed.

Lemma geb_leb (a b : spec_float) : geb a b = leb b a.
Proof.
  unfold geb, leb. rewrite (SFcompare_swap a b).
  destruct (SFcompare a b) as [[]|]; reflexivity.
Qed.
End B64.

#[export] Instance binary64 : JSNumber := {|
  num := spec_float;
  add := B64.add; sub := B64.sub; mul := B64.mul; div := B64.div;
  ltb := B64.ltb; leb := B64.leb; gtb := B64.gtb; geb := B64.geb;
  ofZ := B64.ofZ; dec := B64.dec;
  Math_max := B64.Math_max; Math_min := B64.Math_min;
  floorZ := B64.floorZ; ceilZ := B64.ceilZ;
  truthy := B64.truthy;
  gtb_ltb := B64.gtb_ltb; geb_leb := B64.geb_leb
|}.

(** Exact rational arithmetic: the numbers of the specification's
    back-of-the-envelope calculations. There is neither NaN nor infinity;
    values are kept reduced, and [a / 0] is [0] as in [Q]. *)
Module ExactQ.
Definition add (a b : Q) : Q := Qred (a + b).
Definition sub (a b : Q) : Q := Qred (a - b).
Definition mul (a b : Q) : Q := Qred (a * b).
Definition div (a b : Q) : Q := Qred (a / b).
Definition leb (a b : Q) : bool := Qle_bool a b.
Definition ltb (a b : Q) : bool := negb (Qle_bool b a).
Definition gtb (a b : Q) : bool := ltb b a.
Definition geb (a b : Q) : bool := leb b a.
Definition ofZ (z : Z) : Q := inject_Z z.
Definition dec (m : Z) (k : nat) : Q := Qred (m # Z.to_pos (10 ^ Z.of_nat k)).
Definition Math_max (a b : Q) : Q := if Qle_bool a b then b else a.
Definition Math_min (a b : Q) : Q := if Qle_bool a b then a else b.
Definition floorZ (a : Q) : option Z := Some (Qfloor a).
Definition ceilZ (a : Q) : option Z := Some (Qceiling a).
Definition truthy (a : Q) : bool := negb (Qeq_bool a 0).
End ExactQ.

#[export] Instance exactQ : JSNumber := {|
  num := Q;
  add := ExactQ.add; sub := ExactQ.sub; mul := ExactQ.mul; div := ExactQ.div;
  ltb := ExactQ.ltb; leb := ExactQ.leb; gtb := ExactQ.gtb; geb := ExactQ.geb;
  ofZ := ExactQ.ofZ; dec := ExactQ.dec;
  Math_max := ExactQ.Math_max; Math_min := ExactQ.Math_min;
  floorZ := ExactQ.floorZ; ceilZ := ExactQ.ceilZ;
  truthy := ExactQ.truthy;
  gtb_ltb := fun _ _ => eq_refl; geb_leb := fun _ _ => eq_refl
|}.

(** ** Worked-example data *)

(** A host for the worked examples: [Math.sin] constantly 0 (a flat
    terrain), [Math.cos] constantly 1, [Math.random] constantly 0.5 (no
    spawn trial succeeds, nobody shoots). The theorems below hold for
    every host; this one only serves to run them on concrete frames. *)
Definition exampleHost {N : JSNumber} : Host :=
  {| Math_sin := fun _ => ofZ 0;
     Math_cos := fun _ => ofZ 1;
     Math_PI := div (ofZ 355) (ofZ 113);
     Math_random := fun _ => dec 5 1 |}.

(** A game record as it is before [start()] fills it in, on an 800 x 600
    canvas, and the game [start()] makes of it under [exampleHost]. *)
Definition blankGame {N : JSNumber} : Game.t :=
  let cw := ofZ 800 in
  let ch := ofZ 600 in
  Game.mk START_SCREEN 0 (Player.new cw ch) [] [] [] [] []
    (TerrainGenerator.mk cw ch ROCKY_CANYON [] (ofZ 4) (ofZ 0))
    (SpawnManager.new cw ch ROCKY_CANYON) 0 0 O (ofZ 0) (ofZ 2) Input.none
    (Canvas.mk cw ch).

Definition exampleGame {N : JSNumber} : Game.t :=
  match fst (Game.start exampleHost blankGame O) with
  | Some g => g
  | None => blankGame
  end.

(** [f] applied [k] times. *)
Fixpoint iterate {A} (k : nat) (f : A -> A) (a : A) : A :=
  match k with
  | O => a
  | S k' => iterate k' f (f a)
  end.

(** [m] run [k] times in a row, threading the game and the draws. *)
Fixpoint repeatRand {A} (k : nat) (m : A -> Rand A) (a : A) : Rand A :=
  match k with
  | O => ret a
  | S k' => a' <- m a ;; repeatRand k' m a'
  end.

(** What combat-hit resolution may touch: lives, the invincibility flag
    and timer, and the state of the state machine. *)
Definition vitals {N : JSNumber} (g : Game.t) : Z * bool * Z * GameState :=
  (Player.lives (Game.player g),
   Player.isInvincible (Game.player g),
   Player.invincibleTimer (Game.player g),
   Game.state g).

Unset Implicit Arguments.

(** ** Observations

    What the properties below observe of a state or of a run. *)

(** The fuel after one [Player.update], as a function of the fuel before
    and the drain rate. *)
Definition fuelStep {N : JSNumber} (rate fuel : num) : num :=
  let f := sub fuel rate in
  if leb f (ofZ 0) then ofZ 0 else f.

(** A run of [Player.update] calls, one per frame, each with its input
    and bounds. *)
Fixpoint runPlayer {N : JSNumber} (p : Player.t)
         (frames : list (Input.t * num * num)) : Player.t :=
  match frames with
  | [] => p
  | (input, topBound, bottomBound) :: rest =>
      runPlayer (Player.update p input topBound bottomBound) rest
  end.

(** A list of bullets none of which is the player's. *)
Definition hostileOnly {N : JSNumber} (bs : list Bullet.t) : bool :=
  forallb (fun b => negb (Bullet.isPlayerBullet b)) bs.

(** No player projectile is in flight and none is being fired. *)
Definition noPlayerFire {N : JSNumber} (g : Game.t) : bool :=
  negb (Input.shoot (Game.input g)) && negb (Input.bomb (Game.input g)) &&
  match Game.bombs g with [] => true | _ => false end &&
  hostileOnly (Game.bullets g).

(** The footprint of the four entity updates that precede collision
    resolution: the player, the state and the terrain stay; bombs stay
    absent if there were none; bullets stay hostile if they all were. *)
Definition calm {N : JSNumber} (g g' : Game.t) : Prop :=
  Game.player g' = Game.player g /\ Game.state g' = Game.state g /\
  Game.canvas g' = Game.canvas g /\ Game.terrain g' = Game.terrain g /\
  (Game.bombs g = [] -> Game.bombs g' = []) /\
  (hostileOnly (Game.bullets g) = true -> hostileOnly (Game.bullets g') = true).

(** What a bullet could damage, award or grant: the enemies, the ground
    targets, the score and the player's fuel. *)
Definition world {N : JSNumber} (g : Game.t)
  : list Enemy.t * list GroundTarget.t * Z * num :=
  (Game.enemies g, Game.groundTargets g, Game.score g,
   Player.fuel (Game.player g)).

Definition hostile {N : JSNumber} (b : Bullet.t) : bool :=
  negb (Bullet.isPlayerBullet b).

(** [segment.x <= x < segment.x + segment.width] *)
Definition covering {N : JSNumber} (x : num) (s : TerrainSegment.t) : Prop :=
  leb (TerrainSegment.x s) x = true /\
  ltb x (add (TerrainSegment.x s) (TerrainSegment.width s)) = true.

(** The vertical range [spawnEnemy] draws from, for an enemy of height
    [h]: [safeZone.top + 10] and [safeZone.bottom - h - 10]. *)
Definition spawnMinY {N : JSNumber} (terrain : TerrainGenerator.t) : num :=
  add (Zone.top (TerrainGenerator.getSafeZone terrain)) (ofZ 10).
Definition spawnMaxY {N : JSNumber} (terrain : TerrainGenerator.t) (h : num) : num :=
  sub (sub (Zone.bottom (TerrainGenerator.getSafeZone terrain)) h) (ofZ 10).

(** Whether [spawnEnemy] placed an enemy, and within the range. *)
Definition placedInRange {N : JSNumber} (host : Host) (m : SpawnManager.t)
    (terrain : TerrainGenerator.t) (n : nat) : bool :=
  match fst (SpawnManager.spawnEnemy host m terrain n) with
  | Some e =>
      leb (spawnMinY terrain) (Enemy.y e)
      && leb (Enemy.y e) (spawnMaxY terrain (Entity.height (Enemy.base e)))
  | None => false
  end.

(** One frame of a cool-down counter: [if (c > 0) c--]. *)
Definition coolStep (c : Z) : Z := if (c >? 0)%Z then c - 1 else c.

(** The timers of a player: the two cool-downs with their reload values,
    and the invincibility flag, timer and duration. *)
Definition clocks {N : JSNumber} (p : Player.t)
  : Z * Z * Z * Z * bool * Z * Z :=
  (Player.shootCooldown p, Player.shootCooldownMax p,
   Player.bombCooldown p, Player.bombCooldownMax p,
   Player.isInvincible p, Player.invincibleTimer p,
   Player.invincibleDuration p).

(** What no method of [Player] assigns after the constructor. *)
Definition build {N : JSNumber} (p : Player.t)
  : num * num * bool * num * Z * Z * Z * num * num * num * num :=
  (Player.width p, Player.height p, Player.active p, Player.speed p,
   Player.shootCooldownMax p, Player.bombCooldownMax p,
   Player.invincibleDuration p, Player.canvasWidth p, Player.canvasHeight p,
   Player.maxFuel p, Player.fuelDrainRate p).

(** A call of one of the methods of [Player] that play makes. *)
Inductive PlayerCall {N : JSNumber} : Type :=
| callUpdate (input : Input.t) (topBound bottomBound : num)
| callShoot
| callBomb
| callHit
| callAddFuel (amount : num).

Definition callPlayer {N : JSNumber} (p : Player.t) (c : PlayerCall) : Player.t :=
  match c with
  | callUpdate input topBound bottomBound =>
      Player.update p input topBound bottomBound
  | callShoot => snd (Player.shoot p)
  | callBomb => snd (Player.bomb p)
  | callHit => snd (Player.hit p)
  | callAddFuel amount => Player.addFuel p amount
  end.

Definition playPlayer {N : JSNumber} (p : Player.t) (calls : list PlayerCall)
  : Player.t :=
  fold_left callPlayer calls p.

(** An enemy after [k] calls of [takeDamage(amount)]. *)
Definition damaged {N : JSNumber} (e : Enemy.t) (amount : Z) (k : nat) : Enemy.t :=
  iterate k (fun e => snd (Enemy.takeDamage e amount)) e.

(** An enemy after [k] calls of [update(scrollSpeed)]. *)
Definition flown {N : JSNumber} (host : Host) (e : Enemy.t) (scrollSpeed : num)
    (k : nat) : Enemy.t :=
  iterate k (fun e => Enemy.update host e scrollSpeed) e.

(** The segments that count for the safe zone: [0 <= x <= canvasWidth]. *)
Definition visible {N : JSNumber} (g : TerrainGenerator.t)
    (s : TerrainSegment.t) : bool :=
  geb (TerrainSegment.x s) (ofZ 0) &&
  leb (TerrainSegment.x s) (TerrainGenerator.canvasWidth g).

(** The sum of [l], added up from the left starting at [acc]. *)
Definition sumFrom {N : JSNumber} (acc : num) (l : list num) : num :=
  fold_left add l acc.

(** Where a game stands: the state of the state machine with its timer,
    the best score and the stage index. *)
Definition standing {N : JSNumber} (g : Game.t) : GameState * Z * Z * nat :=
  (Game.state g, Game.stateTimer g, Game.bestScore g, Game.currentStage g).

(** The best score is on record: in the two final states it is not
    below the score. *)
Definition recorded {N : JSNumber} (g : Game.t) : Prop :=
  Game.state g = GAME_OVER \/ Game.state g = VICTORY ->
  Game.score g <= Game.bestScore g.

(** The footprint of the passes that may end the game: the stage index
    and the score stay; the best score does not drop; either the game
    stands where it stood, or it is over with its score on record. *)
Definition settled {N : JSNumber} (g g' : Game.t) : Prop :=
  Game.currentStage g' = Game.currentStage g /\
  Game.score g' = Game.score g /\
  Game.bestScore g <= Game.bestScore g' /\
  (standing g' = standing g \/
   Game.state g' = GAME_OVER /\ Game.score g' <= Game.bestScore g').

(** The particles one frame later: [updateParticles]. *)
Definition agedParticles {N : JSNumber} (ps : list Particle.t) : list Particle.t :=
  filter Particle.active (map Particle.update ps).

(** [k] frames of [Game.update] in a row; [None] when one of them does
    not return. *)
Fixpoint runFrames {N : JSNumber} (host : Host) (k : nat) (g : Game.t)
  : Rand (option Game.t) :=
  match k with
  | O => ret (Some g)
  | S k' =>
      g' <- Game.update host g ;;
      match g' with
      | Some g' => runFrames host k' g'
      | None => ret None
      end
  end.

(** The stage index is on the table: below the number of stages, or
    equal to it once the game is won. *)
Definition onTable {N : JSNumber} (g : Game.t) : Prop :=
  Z.of_nat (Game.currentStage g) < getTotalStages (N := N) \/
  Z.of_nat (Game.currentStage g) = getTotalStages (N := N) /\ Game.state g = VICTORY.

(** No enemy and no ground target of the game is worth a negative number
    of points. *)
Definition fairPoints {N : JSNumber} (g : Game.t) : Prop :=
  Forall (fun e => 0 <= Enemy.points e) (Game.enemies g) /\
  Forall (fun t => 0 <= GroundTarget.points t) (Game.groundTargets g).

(** The footprint of a pass on the score: it does not drop, and points
    stay non-negative. *)
Definition gaining {N : JSNumber} (g g' : Game.t) : Prop :=
  fairPoints g -> Game.score g <= Game.score g' /\ fairPoints g'.

(** What the passes that may hit the player cost: nothing; or one life of
    a player that was not invincible and now is, the game being over
    when that was the last life. *)
Definition struck {N : JSNumber} (g g' : Game.t) : Prop :=
  vitals g' = vitals g \/
  Player.isInvincible (Game.player g) = false /\
  Player.isInvincible (Game.player g') = true /\
  Player.lives (Game.player g') = Player.lives (Game.player g) - 1 /\
  Game.state g' =
    (if Player.lives (Game.player g') <=? 0 then GAME_OVER else Game.state g).



(** A radix-16 digit in lower case. *)
Definition lowerHex (c : N) : N :=
  if ((65 <=? c) && (c <=? 70))%N then (c + 32)%N else c.

Definition isHexDigit (c : N) : bool :=
  match Nostr.digitValue16 c with Some _ => true | None => false end.

(** Whether encoding what a pair of hex digits decodes to gives the pair
    back in lower case. *)
Definition pairRoundTrip (c1 c2 : N) : bool :=
  implb (isHexDigit c1 && isHexDigit c2)
    match Nostr.bytesToHex (Nostr.hexToBytes [c1; c2]) with
    | [a; b] => ((a =? lowerHex c1) && (b =? lowerHex c2))%N
    | _ => false
    end.

(** ** Example runs and states *)

(** The frames of a player who touches no key in an open corridor. *)
Definition idleFrames {N : JSNumber} (k : nat) : list (Input.t * num * num) :=
  repeat (Input.none, ofZ 0, ofZ 600) k.

(** The fuel that 1999 and 2000 drains of 0.05 leave of 100, in doubles:
    [0x1.9999999a164e4p-5] (about 0.0500000000035) and
    [0x1.f2d28p-39] (about 3.54e-12). *)
Definition fuelAfter1999 : spec_float := S754_finite false 7205759404303588 (-57).
Definition fuelAfter2000 : spec_float := S754_finite false 8775374099972096 (-91).

(** The game of the worked example once its player has idled through
    2000 frames. *)
Definition gameAfter2000 : @Game.t binary64 :=
  Game.with_player exampleGame
    (runPlayer (Player.new (ofZ 800) (ofZ 600)) (idleFrames 2000)).

(** The example game with its tank run dry. *)
Definition gameOutOfFuel : @Game.t binary64 :=
  Game.with_player exampleGame
    (Player.with_fuel (Game.player exampleGame) (ofZ 0)).

(** The example game right after a crash: the player is invincible. *)
Definition gameAfterCrash : @Game.t binary64 :=
  fst (Game.playerCrash exampleHost exampleGame O).

(** The example game after two crashes: one life left. *)
Definition gameWithOneLife : @Game.t binary64 :=
  fst (repeatRand 2 (Game.playerCrash exampleHost) exampleGame O).

(** The terrain of the second stage (scroll speed 2) on the example
    canvas, and the same after [k] frames of scrolling. *)
Definition stageTwoTerrain : @TerrainGenerator.t binary64 :=
  match fst (TerrainGenerator.new exampleHost (ofZ 800) (ofZ 600) ENEMY_BASE O) with
  | Some t => t
  | None => TerrainGenerator.mk (ofZ 800) (ofZ 600) ENEMY_BASE [] (ofZ 4) (ofZ 0)
  end.

Fixpoint scrollTerrain (k : nat) (t : @TerrainGenerator.t binary64)
         (distance : @num binary64) : @TerrainGenerator.t binary64 :=
  match k with
  | O => t
  | S k' =>
      let distance := add distance (ofZ 2) in
      scrollTerrain k' (TerrainGenerator.update exampleHost t (ofZ 2) distance)
                    distance
  end.

(** A host whose every draw is [r]. *)
Definition hostDrawing {N : JSNumber} (r : num) : Host :=
  {| Math_sin := Math_sin exampleHost;
     Math_cos := Math_cos exampleHost;
     Math_PI := Math_PI exampleHost;
     Math_random := fun _ => r |}.



(** A fighter as [spawnEnemy] makes it, for the worked examples. *)
Definition fighterConfig {N : JSNumber} : EnemyConfig.t :=
  match ENEMY_TYPES "fighter" with
  | Some config => config
  | None => EnemyConfig.mk (ofZ 0) (ofZ 0) 0 0 "" None None None None None
  end.

Definition exampleFighter {N : JSNumber} : Enemy.t :=
  fst (Enemy.new exampleHost (ofZ 850) (ofZ 100) "fighter" fighterConfig O).

(** The example game on the transition screen after its first stage. *)
Definition gameInTransition : @Game.t binary64 :=
  Game.setState exampleGame STAGE_TRANSITION.


(** * Properties *)

Ltac rand_unfold := unfold bind, ret, random in *.

(** ** Collision symmetry *)

(** C5. For every pair of entities [a] and [b], [a.collidesWith(b)] equals
    [b.collidesWith(a)]; and whenever either of them is inactive both
    tests are false. Holds in every number system, IEEE doubles with
    their NaN included. *)
Theorem collidesWith_symmetric {N : JSNumber} (a b : Entity.t) :
  Entity.collidesWith a b = Entity.collidesWith b a /\
  (Entity.active a = false \/ Entity.active b = false ->
   Entity.collidesWith a b = false /\ Entity.collidesWith b a = false).
Proof.
  unfold Entity.collidesWith, Entity.getBounds; simpl.
  rewrite !gtb_ltb.
  destruct (Entity.active a), (Entity.active b); simpl.
  - split.
    + repeat match goal with
             | |- context [ltb ?u ?v] => destruct (ltb u v)
             end; reflexivity.
    + intros [E | E]; discriminate E.
  - split; [reflexivity | intros _; split; reflexivity].
  - split; [reflexivity | intros _; split; reflexivity].
  - split; [reflexivity | intros _; split; reflexivity].
Qed.

(** C5 on the player of the example game and an enemy bullet at the same
    place that has been spent. *)
Lemma collidesWith_witness :
  let a := Player.base (Game.player (N := binary64) exampleGame) in
  let b := Entity.with_active (Entity.new (ofZ 60) (ofZ 292) (ofZ 8) (ofZ 4)) false in
  Entity.collidesWith a b = false /\ Entity.collidesWith b a = false.
Proof.
  cbv zeta.
  destruct (collidesWith_symmetric
              (Player.base (Game.player (N := binary64) exampleGame))
              (Entity.with_active (Entity.new (ofZ 60) (ofZ 292) (ofZ 8) (ofZ 4)) false))
    as (_ & H).
  apply H. right. reflexivity.
Defined.

(** ** Combat hits *)

Section HitLemmas.
Context {N : JSNumber} (host : Host).

Lemma with_player_same (g : Game.t) : Game.with_player g (Game.player g) = g.
Proof. destruct g; reflexivity. Qed.

Lemma setState_state (g : Game.t) (st : GameState) :
  Game.state (Game.setState g st) = st.
Proof.
  unfold Game.setState, Game.onStateEnter, Game.saveBestScore.
  destruct st; simpl; try reflexivity;
    destruct (_ >? _)%Z; reflexivity.
Qed.

(** [setState] touches the state, its timer and the best score only. *)
Lemma setState_frame (g : Game.t) (st : GameState) :
  let g' := Game.setState g st in
  Game.player g' = Game.player g /\
  Game.enemies g' = Game.enemies g /\
  Game.groundTargets g' = Game.groundTargets g /\
  Game.bullets g' = Game.bullets g /\ Game.bombs g' = Game.bombs g /\
  Game.score g' = Game.score g /\ Game.canvas g' = Game.canvas g /\
  Game.terrain g' = Game.terrain g.
Proof.
  unfold Game.setState, Game.onStateEnter, Game.saveBestScore.
  destruct st; simpl; repeat split;
    destruct (_ >? _)%Z; reflexivity.
Qed.

Lemma explode_frame (g : Game.t) x y c k n :
  let g' := fst (Game.explode host g x y c k n) in
  Game.player g' = Game.player g /\ Game.state g' = Game.state g /\
  Game.enemies g' = Game.enemies g /\
  Game.groundTargets g' = Game.groundTargets g /\
  Game.bullets g' = Game.bullets g /\ Game.bombs g' = Game.bombs g /\
  Game.score g' = Game.score g /\ Game.canvas g' = Game.canvas g /\
  Game.terrain g' = Game.terrain g.
Proof.
  unfold Game.explode; rand_unfold.
  destruct (createExplosion host x y c k n); simpl. repeat split.
Qed.

Lemma playerHit_invincible (g : Game.t) (n : nat) :
  Player.isInvincible (Game.player g) = true ->
  Game.playerHit host g n = (g, n).
Proof.
  intros Hinv. unfold Game.playerHit, Player.hit. rewrite Hinv.
  rewrite with_player_same. reflexivity.
Qed.
End HitLemmas.

(** C2. Invincibility idempotence: for a player with [isInvincible] set,
    [Player.hit] reports no hit and returns the player as it was (lives
    and [invincibleTimer] untouched); [Game.playerHit] leaves the whole
    game as it was and draws nothing (no explosion, no GAME_OVER); so do
    any number [k] of hits in a row; and the two collision passes that
    lead to a hit, hostile bullets against the player and the player
    against enemy bodies, leave lives, flag, timer and state alone. *)
Theorem invincible_hits_do_nothing {N : JSNumber} (host : Host)
        (g : Game.t) (n k : nat) :
  Player.isInvincible (Game.player g) = true ->
  Player.hit (Game.player g) = (false, Game.player g) /\
  Game.playerHit host g n = (g, n) /\
  repeatRand k (Game.playerHit host) g n = (g, n) /\
  vitals (fst (Game.hostileBulletsVsPlayer host g n)) = vitals g /\
  vitals (fst (Game.playerVsEnemies host g n)) = vitals g.
Proof.
  intros Hinv. repeat split.
  - unfold Player.hit. rewrite Hinv. reflexivity.
  - apply playerHit_invincible, Hinv.
  - induction k as [|k IH]; [reflexivity|].
    simpl. unfold bind at 1. rewrite playerHit_invincible by exact Hinv.
    exact IH.
  - unfold Game.hostileBulletsVsPlayer.
    destruct (strikeFirst _ _ _ (Game.bullets g)) as [[b bs]|]; [|reflexivity].
    rewrite playerHit_invincible by exact Hinv. reflexivity.
  - unfold Game.playerVsEnemies.
    destruct (strikeFirst _ _ _ (Game.enemies g)) as [[e es]|]; [|reflexivity].
    unfold bind.
    destruct (Game.explode host g _ _ _ 10 n) as [g1 n1] eqn:E.
    pose proof (explode_frame host g (Entity.getCenterX (Enemy.base e))
                  (Entity.getCenterY (Enemy.base e)) (Enemy.color e) 10 n) as F.
    rewrite E in F; simpl in F. destruct F as (Fp & Fs & _).
    rewrite playerHit_invincible by (simpl; rewrite Fp; exact Hinv).
    unfold vitals; simpl. rewrite Fp, Fs. reflexivity.
Qed.

(** C2 on the example game after a crash: three hits in a row change
    nothing and draw nothing. *)
Lemma invincible_hits_witness :
  Player.isInvincible (Game.player gameAfterCrash) = true /\
  repeatRand 3 (Game.playerHit exampleHost) gameAfterCrash O = (gameAfterCrash, O).
Proof.
  assert (H : Player.isInvincible (Game.player gameAfterCrash) = true)
    by (vm_compute; reflexivity).
  split; [exact H|].
  destruct (invincible_hits_do_nothing exampleHost gameAfterCrash O 3 H)
    as (_ & _ & R & _).
  exact R.
Defined.

(** ** Crash resolution *)

(** C1. Crash resolution. [playerCrash] takes exactly one life, whatever
    the invincibility flag says. If lives remain, the player is back at
    [x = 60], vertically centred on the canvas (for a player of the
    constructor's height this is the constructor's starting position),
    invincible with a timer of 120 frames, with fuel [Math.max(fuel, 30)],
    and the state is unchanged; if no life remains the state is GAME_OVER.
    [updatePlaying] resolves a crash exactly this way whenever, after the
    frame's simulation, the terrain reports a wall under the player or
    the fuel is [<= 0]. *)
Theorem playerCrash_resolution {N : JSNumber} (host : Host)
        (g : Game.t) (n : nat) :
  let g' := fst (Game.playerCrash host g n) in
  let p := Game.player g in
  let p' := Game.player g' in
  Player.lives p' = Player.lives p - 1 /\
  (0 < Player.lives p' ->
     Player.x p' = ofZ 60 /\
     Player.y p' = sub (div (Canvas.height (Game.canvas g)) (ofZ 2))
                       (div (Player.height p) (ofZ 2)) /\
     (forall cw, Player.height p = Player.height (Player.new cw (Canvas.height (Game.canvas g))) ->
        Player.x p' = Player.x (Player.new cw (Canvas.height (Game.canvas g))) /\
        Player.y p' = Player.y (Player.new cw (Canvas.height (Game.canvas g)))) /\
     Player.isInvincible p' = true /\
     Player.invincibleTimer p' = 120 /\
     Player.fuel p' = Math_max (Player.fuel p) (ofZ 30) /\
     Game.state g' = Game.state g) /\
  (Player.lives p' <= 0 -> Game.state g' = GAME_OVER) /\
  (forall stageConfig,
     TerrainGenerator.checkCollision (Game.terrain g) (Player.base p) <> None \/
     leb (Player.fuel p) (ofZ 0) = true ->
     Game.resolveFrame host stageConfig g n = Game.playerCrash host g n) /\
  (let (g1, n1) := Game.simulateFrame host g n in
   TerrainGenerator.checkCollision (Game.terrain g1) (Player.base (Game.player g1)) <> None \/
   leb (Player.fuel (Game.player g1)) (ofZ 0) = true ->
   Game.updatePlaying host g n = Game.playerCrash host g1 n1).
Proof.
  assert (Hresolve : forall stageConfig g0 n0,
     TerrainGenerator.checkCollision (Game.terrain g0) (Player.base (Game.player g0)) <> None \/
     leb (Player.fuel (Game.player g0)) (ofZ 0) = true ->
     Game.resolveFrame host stageConfig g0 n0 = Game.playerCrash host g0 n0).
  { intros cfg g0 n0 Hc. unfold Game.resolveFrame.
    destruct (TerrainGenerator.checkCollision _ _) as [w|]; [reflexivity|].
    destruct Hc as [Hc | Hc]; [contradiction Hc; reflexivity|].
    rewrite Hc. reflexivity. }
  assert (Hupdate :
     let (g1, n1) := Game.simulateFrame host g n in
     TerrainGenerator.checkCollision (Game.terrain g1) (Player.base (Game.player g1)) <> None \/
     leb (Player.fuel (Game.player g1)) (ofZ 0) = true ->
     Game.updatePlaying host g n = Game.playerCrash host g1 n1).
  { unfold Game.updatePlaying, bind.
    destruct (Game.simulateFrame host g n) as [g2 n2]. apply Hresolve. }
  cbv zeta.
  split; [|split; [|split; [|split; [exact (fun cfg => Hresolve cfg g n) | exact Hupdate]]]];
    clear Hresolve Hupdate;
    unfold Game.playerCrash, bind;
    pose proof (explode_frame host g (Entity.getCenterX (Player.base (Game.player g)))
                  (Entity.getCenterY (Player.base (Game.player g))) "#ff8c00" 20 n) as F;
    destruct (Game.explode host g _ _ _ 20 n) as [g1 n1]; simpl in F;
    destruct F as (Fp & Fs & _ & _ & _ & _ & _ & Fc & _);
    cbn [Game.player Game.with_player Player.lives Player.with_lives];
    rewrite Fp;
    destruct (Player.lives (Game.player g) - 1 <=? 0) eqn:El;
    cbn [fst ret].
  - destruct (setState_frame (Game.with_player g1
                (Player.with_lives (Game.player g) (Player.lives (Game.player g) - 1)))
                GAME_OVER) as (-> & _). reflexivity.
  - reflexivity.
  - apply Z.leb_le in El.
    destruct (setState_frame (Game.with_player g1
                (Player.with_lives (Game.player g) (Player.lives (Game.player g) - 1)))
                GAME_OVER) as (-> & _).
    cbn. intros; lia.
  - intros _. cbn. rewrite Fc, Fs.
    split; [reflexivity|]. split; [reflexivity|].
    split; [|repeat split].
    intros cw Hh. unfold Player.x, Player.y, Player.height, Player.new in *;
      cbn in *.
    rewrite Hh. split; reflexivity.
  - intros _. apply setState_state.
  - apply Z.leb_gt in El. cbn. intros; lia.
Qed.

(** C1 on the example game with an empty tank: the crash leaves 2 lives,
    a player back at the start, invincible for 120 frames, with 30 units
    of fuel (not 100), and the game still PLAYING. *)
Lemma playerCrash_witness :
  let g' := fst (Game.playerCrash exampleHost gameOutOfFuel O) in
  Player.lives (Game.player g') = 2 /\
  Player.x (Game.player g') = ofZ 60 /\
  Player.isInvincible (Game.player g') = true /\
  Player.invincibleTimer (Game.player g') = 120 /\
  Player.fuel (Game.player g') = ofZ 30 /\
  Game.state g' = PLAYING.
Proof.
  cbv zeta.
  destruct (playerCrash_resolution exampleHost gameOutOfFuel O)
    as (Hl & Hrest & _).
  assert (Hl2 : Player.lives (Game.player gameOutOfFuel) - 1 = 2)
    by (vm_compute; reflexivity).
  rewrite Hl2 in Hl.
  assert (Hpos : 0 < Player.lives
                       (Game.player (fst (Game.playerCrash exampleHost gameOutOfFuel O))))
    by (rewrite Hl; lia).
  destruct (Hrest Hpos) as (Hx & _ & _ & Hi & Ht & Hf & Hs).
  split; [exact Hl|]. split; [exact Hx|]. split; [exact Hi|].
  split; [exact Ht|].
  split; [rewrite Hf; vm_compute; reflexivity|].
  rewrite Hs. vm_compute. reflexivity.
Defined.

(** ** The player's frame *)

Section PlayerLemmas.
Context {N : JSNumber}.

(** What [Player.update] leaves alone, and what it does to the fuel. *)
Lemma Player_move_frame (p : Player.t) input topBound bottomBound :
  let p' := Player.move p input topBound bottomBound in
  Player.lives p' = Player.lives p /\
  Player.fuelDrainRate p' = Player.fuelDrainRate p /\
  Player.maxFuel p' = Player.maxFuel p /\
  Player.fuel p' = Player.fuel p.
Proof.
  pose (obs := fun q : Player.t =>
                 (Player.lives q, Player.fuelDrainRate q, Player.maxFuel q,
                  Player.fuel q)).
  assert (Hy : forall (c : bool) q v, obs (if c then Player.with_y q v else q) = obs q)
    by (intros [] q v; reflexivity).
  assert (Hx : forall (c : bool) q v, obs (if c then Player.with_x q v else q) = obs q)
    by (intros [] q v; reflexivity).
  assert (H : obs (Player.move p input topBound bottomBound) = obs p).
  { unfold Player.move. rewrite Hx, Hx, Hy, Hy. reflexivity. }
  unfold obs in H. injection H as H1 H2 H3 H4. cbv zeta. auto.
Qed.

Lemma Player_coolDown_frame (p : Player.t) :
  let p' := Player.coolDown p in
  Player.lives p' = Player.lives p /\
  Player.fuelDrainRate p' = Player.fuelDrainRate p /\
  Player.maxFuel p' = Player.maxFuel p /\
  Player.fuel p' = Player.fuel p.
Proof.
  unfold Player.coolDown.
  destruct (Player.shootCooldown p >? 0)%Z;
    match goal with |- context [if ?c then _ else _] => destruct c end;
    cbn; repeat split.
Qed.

Lemma Player_tickInvincibility_frame (p : Player.t) :
  let p' := Player.tickInvincibility p in
  Player.lives p' = Player.lives p /\
  Player.fuelDrainRate p' = Player.fuelDrainRate p /\
  Player.maxFuel p' = Player.maxFuel p /\
  Player.fuel p' = Player.fuel p.
Proof.
  unfold Player.tickInvincibility.
  destruct (Player.isInvincible p); [|repeat split].
  match goal with |- context [if ?c then _ else _] => destruct c end;
    cbn; repeat split.
Qed.

Lemma Player_drainFuel_frame (p : Player.t) :
  let p' := Player.drainFuel p in
  Player.lives p' = Player.lives p /\
  Player.fuelDrainRate p' = Player.fuelDrainRate p /\
  Player.maxFuel p' = Player.maxFuel p /\
  Player.fuel p' = fuelStep (Player.fuelDrainRate p) (Player.fuel p).
Proof.
  unfold Player.drainFuel, fuelStep. cbn.
  destruct (leb _ _); cbn; repeat split.
Qed.

(** What [Player.update] leaves alone, and what it does to the fuel. *)
Lemma Player_update_frame (p : Player.t) input topBound bottomBound :
  let p' := Player.update p input topBound bottomBound in
  Player.lives p' = Player.lives p /\
  Player.fuelDrainRate p' = Player.fuelDrainRate p /\
  Player.maxFuel p' = Player.maxFuel p /\
  Player.fuel p' = fuelStep (Player.fuelDrainRate p) (Player.fuel p).
Proof.
  unfold Player.update.
  destruct (Player_move_frame p input topBound bottomBound) as (M1 & M2 & M3 & M4).
  destruct (Player_coolDown_frame (Player.move p input topBound bottomBound))
    as (C1 & C2 & C3 & C4).
  destruct (Player_tickInvincibility_frame
              (Player.coolDown (Player.move p input topBound bottomBound)))
    as (T1 & T2 & T3 & T4).
  destruct (Player_drainFuel_frame
              (Player.tickInvincibility
                 (Player.coolDown (Player.move p input topBound bottomBound))))
    as (D1 & D2 & D3 & D4).
  cbv zeta in *.
  rewrite D1, D2, D3, D4, T1, T2, T3, T4, C1, C2, C3, C4, M1, M2, M3, M4.
  repeat split.
Qed.

Lemma runPlayer_fuel (frames : list (Input.t * num * num)) (p : Player.t) :
  Player.fuel (runPlayer p frames) =
    iterate (List.length frames) (fuelStep (Player.fuelDrainRate p)) (Player.fuel p) /\
  Player.fuelDrainRate (runPlayer p frames) = Player.fuelDrainRate p /\
  Player.lives (runPlayer p frames) = Player.lives p.
Proof.
  revert p. induction frames as [|[[i t] b] rest IH]; intros p; simpl.
  - repeat split.
  - destruct (Player_update_frame p i t b) as (Hl & Hr & _ & Hf).
    destruct (IH (Player.update p i t b)) as (IHf & IHr & IHl).
    rewrite IHf, IHr, IHl, Hl, Hr, Hf. repeat split.
Qed.

Lemma Player_shoot_frame (p : Player.t) :
  let p' := snd (Player.shoot p) in
  Player.lives p' = Player.lives p /\ Player.fuel p' = Player.fuel p /\
  Player.isInvincible p' = Player.isInvincible p /\
  Player.invincibleTimer p' = Player.invincibleTimer p /\
  Player.base p' = Player.base p /\
  (forall b, fst (Player.shoot p) = Some b -> Bullet.isPlayerBullet b = true).
Proof.
  unfold Player.shoot. destruct (_ >? _)%Z; cbn; repeat split;
    try discriminate.
  intros b [= <-]. reflexivity.
Qed.

Lemma Player_bomb_frame (p : Player.t) :
  let p' := snd (Player.bomb p) in
  Player.lives p' = Player.lives p /\ Player.fuel p' = Player.fuel p /\
  Player.isInvincible p' = Player.isInvincible p /\
  Player.invincibleTimer p' = Player.invincibleTimer p /\
  Player.base p' = Player.base p.
Proof.
  unfold Player.bomb. destruct (_ >? _)%Z; cbn; repeat split.
Qed.

Lemma Player_hit_frame (p : Player.t) :
  let p' := snd (Player.hit p) in
  Player.lives p' <= Player.lives p /\ Player.fuel p' = Player.fuel p /\
  Player.base p' = Player.base p.
Proof.
  unfold Player.hit. destruct (Player.isInvincible p); cbn; repeat split; lia.
Qed.

Lemma Player_addFuel_frame (p : Player.t) (amount : num) :
  let p' := Player.addFuel p amount in
  Player.lives p' = Player.lives p /\
  Player.isInvincible p' = Player.isInvincible p /\
  Player.invincibleTimer p' = Player.invincibleTimer p /\
  Player.base p' = Player.base p.
Proof. cbn. repeat split. Qed.
End PlayerLemmas.

(** ** What each pass of a frame leaves alone *)

(** Projections of the game record through its setters. *)
Ltac game_cbn :=
  cbn [Game.state Game.stateTimer Game.player Game.enemies
       Game.groundTargets Game.bullets Game.bombs Game.particles
       Game.terrain Game.spawnManager Game.score Game.bestScore
       Game.currentStage Game.distance Game.scrollSpeed Game.input
       Game.canvas Game.with_state Game.with_stateTimer Game.with_player
       Game.with_enemies Game.with_groundTargets Game.with_bullets
       Game.with_bombs Game.with_particles Game.with_terrain
       Game.with_spawnManager Game.with_score Game.with_bestScore
       Game.with_currentStage Game.with_distance Game.with_scrollSpeed
       Game.with_input Game.addScore
       fst snd] in *.

(** [Some a = Some b] used as [a = b], without unfolding [a]. *)
Ltac some_inj E :=
  match type of E with
  | Some ?a = Some ?b =>
      let H := fresh in
      assert (H : a = b) by congruence; clear E; subst b
  end.

Ltac run_rand :=
  repeat first
    [ progress cbn [fst snd]
    | progress (unfold bind, ret)
    | match goal with
      | |- context [let (_, _) := ?m in _] => destruct m as [? ?] eqn:?
      end ].

Section PassLemmas.
Context {N : JSNumber} (host : Host).

Lemma explode_eq (g : Game.t) x y c k n g' n' :
  Game.explode host g x y c k n = (g', n') ->
  Game.player g' = Game.player g /\ Game.state g' = Game.state g /\
  Game.enemies g' = Game.enemies g /\
  Game.groundTargets g' = Game.groundTargets g /\
  Game.bullets g' = Game.bullets g /\ Game.bombs g' = Game.bombs g /\
  Game.score g' = Game.score g /\ Game.canvas g' = Game.canvas g /\
  Game.terrain g' = Game.terrain g.
Proof.
  intros E. pose proof (explode_frame host g x y c k n) as F.
  rewrite E in F. exact F.
Qed.

Lemma hostileOnly_app (a b : list Bullet.t) :
  hostileOnly (a ++ b) = hostileOnly a && hostileOnly b.
Proof. apply forallb_app. Qed.

(** Bullets fired by enemies and ground targets are hostile. *)
Lemma stepEnemies_fired (es : list Enemy.t) v n es' fired n' :
  Game.stepEnemies host es v n = (es', fired, n') -> hostileOnly fired = true.
Proof.
  revert n es' fired n'. induction es as [|e rest IH]; intros n es' fired n' E;
    simpl in E.
  - injection E as <- <- <-. reflexivity.
  - destruct (negb (Enemy.active e)); revert E; run_rand; intros E;
      injection E as <- <- <-;
      match goal with
      | H : Game.stepEnemies _ _ _ _ = _ |- _ => apply IH in H
      end; subst; cbn [fst snd] in *.
    + assumption.
    + match goal with |- context [if ?c then _ else _] => destruct c end;
        [simpl; assumption | assumption].
Qed.

Lemma stepGroundTargets_fired (ts : list GroundTarget.t) v n ts' fired n' :
  Game.stepGroundTargets host ts v n = (ts', fired, n') ->
  hostileOnly fired = true.
Proof.
  revert n ts' fired n'. induction ts as [|e rest IH]; intros n ts' fired n' E;
    simpl in E.
  - injection E as <- <- <-. reflexivity.
  - destruct (negb (GroundTarget.active e)); revert E; run_rand; intros E;
      injection E as <- <- <-;
      match goal with
      | H : Game.stepGroundTargets _ _ _ _ = _ |- _ => apply IH in H
      end; subst; cbn [fst snd] in *.
    + assumption.
    + match goal with |- context [if ?c then _ else _] => destruct c end;
        [simpl; assumption | assumption].
Qed.

Lemma calm_trans (g1 g2 g3 : Game.t) : calm g1 g2 -> calm g2 g3 -> calm g1 g3.
Proof.
  unfold calm. intros (A1 & A2 & A3 & A4 & A5 & A6) (B1 & B2 & B3 & B4 & B5 & B6).
  repeat split; try congruence; auto.
Qed.

Lemma updateEnemies_calm (g : Game.t) n g' n' :
  Game.updateEnemies host g n = (g', n') -> calm g g'.
Proof.
  unfold Game.updateEnemies. run_rand. intros E. injection E as <- <-.
  match goal with
  | H : Game.stepEnemies _ _ _ _ = _ |- _ => apply stepEnemies_fired in H
  end.
  subst. unfold calm; game_cbn. repeat split; auto.
  intros Hb. rewrite hostileOnly_app, Hb. assumption.
Qed.

Lemma updateGroundTargets_calm (g : Game.t) n g' n' :
  Game.updateGroundTargets host g n = (g', n') -> calm g g'.
Proof.
  unfold Game.updateGroundTargets. run_rand. intros E. injection E as <- <-.
  match goal with
  | H : Game.stepGroundTargets _ _ _ _ = _ |- _ =>
      apply stepGroundTargets_fired in H
  end.
  subst. unfold calm; game_cbn. repeat split; auto.
  intros Hb. rewrite hostileOnly_app, Hb. assumption.
Qed.

Lemma Bullet_update_owner (b : Bullet.t) cw ch :
  Bullet.isPlayerBullet (Bullet.update b cw ch) = Bullet.isPlayerBullet b.
Proof.
  unfold Bullet.update. cbv zeta.
  match goal with |- context [if ?c then _ else _] => destruct c end;
    reflexivity.
Qed.

Lemma hostileOnly_filter (f : Bullet.t -> bool) (bs : list Bullet.t) :
  hostileOnly bs = true -> hostileOnly (filter f bs) = true.
Proof.
  unfold hostileOnly. rewrite !forallb_forall. intros H b Hb.
  apply filter_In in Hb. apply H, Hb.
Qed.

Lemma updateBullets_calm (g : Game.t) : calm g (Game.updateBullets g).
Proof.
  unfold calm, Game.updateBullets; game_cbn. repeat split; auto.
  intros Hb. apply hostileOnly_filter.
  unfold hostileOnly in *. rewrite forallb_forall in *. intros b Hin.
  apply in_map_iff in Hin. destruct Hin as (b0 & <- & Hin).
  rewrite Bullet_update_owner. apply Hb, Hin.
Qed.

Lemma stepBombs_eq (bs : list Bomb.t) (g : Game.t) n bs' g' n' :
  Game.stepBombs host bs g n = (bs', g', n') ->
  Game.player g' = Game.player g /\ Game.state g' = Game.state g /\
  Game.canvas g' = Game.canvas g /\ Game.terrain g' = Game.terrain g /\
  Game.bullets g' = Game.bullets g /\ (bs = [] -> bs' = []).
Proof.
  revert g n bs' g' n'. induction bs as [|b rest IH]; intros g n bs' g' n' E;
    simpl in E.
  - injection E as <- <- <-. repeat split.
  - destruct (TerrainGenerator.checkCollision _ _); revert E; run_rand;
      intros E; injection E as <- <- <-;
      repeat match goal with
        | H : Game.explode _ _ _ _ _ _ _ = _ |- _ =>
            apply explode_eq in H;
            destruct H as (? & ? & _ & _ & ? & _ & _ & ? & ?)
        | H : Game.stepBombs _ _ _ _ = _ |- _ =>
            apply IH in H; destruct H as (? & ? & ? & ? & ? & _)
        end; subst; game_cbn;
      repeat split; try congruence; discriminate.
Qed.

Lemma updateBombs_calm (g : Game.t) n g' n' :
  Game.updateBombs host g n = (g', n') -> calm g g'.
Proof.
  unfold Game.updateBombs. run_rand. intros E. injection E as <- <-.
  match goal with
  | H : Game.stepBombs _ _ _ _ = _ |- _ =>
      apply stepBombs_eq in H; destruct H as (? & ? & ? & ? & ? & Hnil)
  end.
  subst. unfold calm; game_cbn. repeat split; try congruence.
  intros Hb. rewrite (Hnil Hb). reflexivity.
Qed.

(** A hostile bullet is skipped by both bullet passes: if no bullet is
    the player's, the passes change nothing and draw nothing. *)
Lemma bulletsVsEnemies_hostile (bs : list Bullet.t) (g : Game.t) n :
  hostileOnly bs = true -> Game.bulletsVsEnemies host bs g n = (bs, g, n).
Proof.
  induction bs as [|b rest IH]; intros Hh; simpl in *; [reflexivity|].
  apply andb_prop in Hh. destruct Hh as [Hb Hrest].
  rewrite Hb. simpl. unfold bind. rewrite (IH Hrest). reflexivity.
Qed.

Lemma bulletsVsTargets_hostile (bs : list Bullet.t) (g : Game.t) n :
  hostileOnly bs = true -> Game.bulletsVsTargets host bs g n = (bs, g, n).
Proof.
  induction bs as [|b rest IH]; intros Hh; simpl in *; [reflexivity|].
  apply andb_prop in Hh. destruct Hh as [Hb Hrest].
  rewrite Hb. simpl. unfold bind. rewrite (IH Hrest). reflexivity.
Qed.

Lemma bulletsVsEnemies_eq (bs : list Bullet.t) (g : Game.t) n bs' g' n' :
  Game.bulletsVsEnemies host bs g n = (bs', g', n') ->
  Game.player g' = Game.player g /\ Game.state g' = Game.state g /\
  Game.groundTargets g' = Game.groundTargets g /\
  Game.bombs g' = Game.bombs g /\ Game.bullets g' = Game.bullets g.
Proof.
  revert g n bs' g' n'. induction bs as [|b rest IH]; intros g n bs' g' n' E;
    simpl in E.
  - injection E as <- <- <-. repeat split.
  - destruct (negb (Bullet.isPlayerBullet b) || negb (Bullet.active b)).
    + revert E; run_rand; intros E; injection E as <- <- <-.
      match goal with
      | H : Game.bulletsVsEnemies _ _ _ _ = _ |- _ => apply IH in H
      end. subst; assumption.
    + destruct (strikeFirst _ _ _ (Game.enemies g)) as [[e es]|].
      * destruct (Enemy.takeDamage e _) as [[] e'];
          revert E; run_rand; intros E; injection E as <- <- <-;
          repeat match goal with
            | H : Game.explode _ _ _ _ _ _ _ = _ |- _ =>
                apply explode_eq in H;
                destruct H as (? & ? & _ & ? & ? & ? & _)
            | H : Game.bulletsVsEnemies _ _ _ _ = _ |- _ =>
                apply IH in H; destruct H as (? & ? & ? & ? & ?)
            | H : ret _ _ = _ |- _ => unfold ret in H; injection H as <- <-
            | H : (_, _) = (_, _) |- _ => injection H as <- <-
            end; subst; game_cbn; repeat split; congruence.
      * revert E; run_rand; intros E; injection E as <- <- <-.
        match goal with
        | H : Game.bulletsVsEnemies _ _ _ _ = _ |- _ => apply IH in H
        end. subst; assumption.
Qed.

Lemma destroyTarget_vitals (g : Game.t) target k n g' n' :
  Game.destroyTarget host g target k n = (g', n') -> vitals g' = vitals g.
Proof.
  unfold Game.destroyTarget. run_rand.
  match goal with
  | H : Game.explode _ _ _ _ _ _ _ = _ |- _ =>
      apply explode_eq in H; destruct H as (Hp & Hs & _)
  end.
  destruct (GroundTarget.givesFuel target); intros E; injection E as <- <-;
    unfold vitals; game_cbn; rewrite ?Hp, ?Hs; reflexivity.
Qed.

Lemma bombsVsTargets_vitals (bs : list Bomb.t) (g : Game.t) n bs' g' n' :
  Game.bombsVsTargets host bs g n = (bs', g', n') -> vitals g' = vitals g.
Proof.
  revert g n bs' g' n'. induction bs as [|b rest IH]; intros g n bs' g' n' E;
    simpl in E.
  - injection E as <- <- <-. reflexivity.
  - destruct (negb (Bomb.active b));
      [| destruct (strikeFirst _ _ _ (Game.groundTargets g)) as [[e es]|]];
      revert E; run_rand; intros E; injection E as <- <- <-;
      repeat match goal with
        | H : Game.destroyTarget _ _ _ _ _ = _ |- _ =>
            apply destroyTarget_vitals in H
        | H : Game.bombsVsTargets _ _ _ _ = _ |- _ => apply IH in H
        end; subst; unfold vitals in *; game_cbn; congruence.
Qed.

Lemma bulletsVsTargets_vitals (bs : list Bullet.t) (g : Game.t) n bs' g' n' :
  Game.bulletsVsTargets host bs g n = (bs', g', n') -> vitals g' = vitals g.
Proof.
  revert g n bs' g' n'. induction bs as [|b rest IH]; intros g n bs' g' n' E;
    simpl in E.
  - injection E as <- <- <-. reflexivity.
  - destruct (negb (Bullet.isPlayerBullet b) || negb (Bullet.active b));
      [| destruct (strikeFirst _ _ _ (Game.groundTargets g)) as [[e es]|]];
      revert E; run_rand; intros E; injection E as <- <- <-;
      repeat match goal with
        | H : Game.destroyTarget _ _ _ _ _ = _ |- _ =>
            apply destroyTarget_vitals in H
        | H : Game.bulletsVsTargets _ _ _ _ = _ |- _ => apply IH in H
        end; subst; unfold vitals in *; game_cbn; congruence.
Qed.

(** Combat-hit resolution never adds a life and never touches the fuel,
    the enemies, the ground targets or the score. *)
Lemma playerHit_eq (g : Game.t) n g' n' :
  Game.playerHit host g n = (g', n') ->
  Player.lives (Game.player g') <= Player.lives (Game.player g) /\
  Player.fuel (Game.player g') = Player.fuel (Game.player g) /\
  Game.enemies g' = Game.enemies g /\
  Game.groundTargets g' = Game.groundTargets g /\
  Game.score g' = Game.score g.
Proof.
  unfold Game.playerHit, Player.hit.
  destruct (Player.isInvincible (Game.player g)).
  - rewrite with_player_same. intros E; injection E as <- <-.
    repeat split; lia.
  - run_rand.
    match goal with
    | H : Game.explode _ _ _ _ _ _ _ = _ |- _ =>
        apply explode_eq in H;
        destruct H as (Hp & _ & He & Ht & _ & _ & Hsc & _)
    end.
    destruct (Player.lives _ <=? 0); intros E;
      apply pair_equal_spec in E; destruct E as [<- <-].
    + match goal with
      | |- context [Game.setState ?a ?b] =>
          destruct (setState_frame a b) as (-> & -> & -> & _ & _ & -> & _)
      end.
      game_cbn. rewrite Hp, He, Ht, Hsc. cbn. repeat split; lia.
    + game_cbn. rewrite Hp, He, Ht, Hsc. cbn. repeat split; lia.
Qed.

Lemma hostileBulletsVsPlayer_eq (g : Game.t) n g' n' :
  Game.hostileBulletsVsPlayer host g n = (g', n') ->
  Player.lives (Game.player g') <= Player.lives (Game.player g) /\
  Player.fuel (Game.player g') = Player.fuel (Game.player g) /\
  Game.enemies g' = Game.enemies g /\
  Game.groundTargets g' = Game.groundTargets g /\
  Game.score g' = Game.score g.
Proof.
  unfold Game.hostileBulletsVsPlayer.
  destruct (strikeFirst _ _ _ (Game.bullets g)) as [[b bs]|].
  - intros E. apply playerHit_eq in E. exact E.
  - intros E; injection E as <- <-. repeat split; lia.
Qed.

Lemma playerVsEnemies_eq (g : Game.t) n g' n' :
  Game.playerVsEnemies host g n = (g', n') ->
  Player.lives (Game.player g') <= Player.lives (Game.player g) /\
  Player.fuel (Game.player g') = Player.fuel (Game.player g) /\
  Game.groundTargets g' = Game.groundTargets g /\
  Game.score g' = Game.score g.
Proof.
  unfold Game.playerVsEnemies.
  destruct (strikeFirst _ _ _ (Game.enemies g)) as [[e es]|].
  - run_rand. intros E. apply playerHit_eq in E.
    match goal with
    | H : Game.explode _ _ _ _ _ _ _ = _ |- _ =>
        apply explode_eq in H;
        destruct H as (Hp & _ & _ & Ht & _ & _ & Hsc & _)
    end.
    game_cbn. rewrite Hp, Ht, Hsc in E.
    destruct E as (? & ? & _ & ? & ?). repeat split; assumption.
  - intros E; injection E as <- <-. repeat split; lia.
Qed.

Lemma with_bullets_same (g : Game.t) : Game.with_bullets g (Game.bullets g) = g.
Proof. destruct g; reflexivity. Qed.

Lemma with_bombs_same (g : Game.t) : Game.with_bombs g (Game.bombs g) = g.
Proof. destruct g; reflexivity. Qed.

(** Collision resolution never adds a life. *)
Lemma checkCollisions_lives (g : Game.t) n g' n' :
  Game.checkCollisions host g n = (g', n') ->
  Player.lives (Game.player g') <= Player.lives (Game.player g).
Proof.
  unfold Game.checkCollisions. run_rand. intros E.
  repeat match goal with
    | H : Game.bulletsVsEnemies _ _ _ _ = _ |- _ =>
        apply bulletsVsEnemies_eq in H; destruct H as (? & _)
    | H : Game.bombsVsTargets _ _ _ _ = _ |- _ =>
        apply bombsVsTargets_vitals in H
    | H : Game.bulletsVsTargets _ _ _ _ = _ |- _ =>
        apply bulletsVsTargets_vitals in H
    | H : Game.hostileBulletsVsPlayer _ _ _ = _ |- _ =>
        apply hostileBulletsVsPlayer_eq in H; destruct H as (? & _)
    end.
  apply playerVsEnemies_eq in E. destruct E as (E & _).
  subst. unfold vitals in *. game_cbn.
  repeat match goal with
    | H : (_, _) = (_, _) |- _ => injection H as ? ? ? ?
    end.
  rewrite H in *. lia.
Qed.

(** With no player projectile about, collision resolution cannot grant
    fuel. *)
Lemma checkCollisions_quiet (g : Game.t) n g' n' :
  hostileOnly (Game.bullets g) = true -> Game.bombs g = [] ->
  Game.checkCollisions host g n = (g', n') ->
  Player.fuel (Game.player g') = Player.fuel (Game.player g).
Proof.
  intros Hh Hb. unfold Game.checkCollisions. unfold bind at 1.
  rewrite bulletsVsEnemies_hostile by exact Hh. rewrite with_bullets_same.
  unfold bind at 1. rewrite Hb. simpl Game.bombsVsTargets. unfold ret at 1.
  rewrite <- Hb, with_bombs_same.
  unfold bind at 1.
  rewrite bulletsVsTargets_hostile by exact Hh. rewrite with_bullets_same.
  run_rand. intros E.
  match goal with
  | H : Game.hostileBulletsVsPlayer _ _ _ = _ |- _ =>
      apply hostileBulletsVsPlayer_eq in H; destruct H as (_ & H & _)
  end.
  apply playerVsEnemies_eq in E. destruct E as (_ & E & _).
  congruence.
Qed.

Lemma flyFrame_eq (g : Game.t) :
  let g' := Game.flyFrame host g in
  (exists topBound bottomBound,
     Game.player g' = Player.update (Game.player g) (Game.input g) topBound bottomBound) /\
  Game.bullets g' = Game.bullets g /\ Game.bombs g' = Game.bombs g /\
  Game.input g' = Game.input g /\ Game.state g' = Game.state g /\
  Game.canvas g' = Game.canvas g.
Proof.
  unfold Game.flyFrame; game_cbn. split; [|repeat split].
  eexists; eexists; reflexivity.
Qed.

Lemma fireFrame_eq (g : Game.t) :
  let g' := Game.fireFrame g in
  Player.lives (Game.player g') = Player.lives (Game.player g) /\
  Player.fuel (Game.player g') = Player.fuel (Game.player g) /\
  Player.isInvincible (Game.player g') = Player.isInvincible (Game.player g) /\
  Player.invincibleTimer (Game.player g') = Player.invincibleTimer (Game.player g) /\
  Game.state g' = Game.state g /\ Game.canvas g' = Game.canvas g /\
  (Input.shoot (Game.input g) = false -> Input.bomb (Game.input g) = false ->
   g' = g).
Proof.
  unfold Game.fireFrame.
  set (g1 := if Input.shoot (Game.input g) then _ else g).
  assert (H1 : Player.lives (Game.player g1) = Player.lives (Game.player g) /\
               Player.fuel (Game.player g1) = Player.fuel (Game.player g) /\
               Player.isInvincible (Game.player g1) = Player.isInvincible (Game.player g) /\
               Player.invincibleTimer (Game.player g1) = Player.invincibleTimer (Game.player g) /\
               Game.state g1 = Game.state g /\ Game.canvas g1 = Game.canvas g /\
               Game.input g1 = Game.input g /\
               (Input.shoot (Game.input g) = false -> g1 = g)).
  { subst g1. destruct (Input.shoot (Game.input g)); [|repeat split].
    destruct (Player_shoot_frame (Game.player g)) as (? & ? & ? & ? & _).
    destruct (Player.shoot (Game.player g)) as [[b|] p]; game_cbn;
      repeat split; auto; discriminate. }
  clearbody g1. destruct H1 as (L & F & I & T & S & C & In & Id).
  cbv zeta. rewrite In.
  destruct (Input.bomb (Game.input g)).
  - destruct (Player_bomb_frame (Game.player g1)) as (? & ? & ? & ? & _).
    destruct (Player.bomb (Game.player g1)) as [[b|] p]; game_cbn;
      repeat split; try congruence; discriminate.
  - repeat split; auto.
Qed.

Lemma spawnFrame_calm (g : Game.t) n g' n' :
  Game.spawnFrame host g n = (g', n') -> calm g g'.
Proof.
  unfold Game.spawnFrame. run_rand.
  destruct p as [[es ts] sm]. intros E; injection E as <- <-.
  unfold calm; game_cbn. repeat split; auto.
Qed.

(** The simulation half of a frame never adds a life; and when the
    player fires nothing, the fuel it leaves is the fuel of
    [Player.update]: one drain step, no pickup. *)
Lemma simulateFrame_eq (g : Game.t) n g' n' :
  Game.simulateFrame host g n = (g', n') ->
  Player.lives (Game.player g') <= Player.lives (Game.player g) /\
  (noPlayerFire g = true ->
   Player.fuel (Game.player g') =
     fuelStep (Player.fuelDrainRate (Game.player g)) (Player.fuel (Game.player g))).
Proof.
  unfold Game.simulateFrame. run_rand. intros E.
  repeat match goal with
    | H : Game.spawnFrame _ _ _ = _ |- _ => apply spawnFrame_calm in H
    | H : Game.updateEnemies _ _ _ = _ |- _ => apply updateEnemies_calm in H
    | H : Game.updateGroundTargets _ _ _ = _ |- _ =>
        apply updateGroundTargets_calm in H
    | H : Game.updateBombs _ _ _ = _ |- _ => apply updateBombs_calm in H
    end.
  match goal with
  | H : calm (Game.updateBullets ?a) _ |- _ =>
      pose proof (updateBullets_calm a) as Hub
  end.
  match goal with
  | H1 : calm ?a ?b, H2 : calm ?b ?c, H3 : calm ?c ?d, H4 : calm ?d ?e,
    H5 : calm ?e ?f |- _ =>
      pose proof (calm_trans _ _ _ H1
                    (calm_trans _ _ _ H2
                       (calm_trans _ _ _ H3 (calm_trans _ _ _ H4 H5))))
        as Hc
  end.
  destruct Hc as (Hp & _ & _ & _ & Hbombs & Hbullets).
  destruct (flyFrame_eq g) as ((tb & bb & Hfly) & Fb & Fbo & Fi & _).
  destruct (fireFrame_eq (Game.flyFrame host g)) as (Gl & Gf & _ & _ & _ & _ & Gid).
  destruct (Player_update_frame (Game.player g) (Game.input g) tb bb)
    as (Ul & _ & _ & Uf).
  split.
  - apply checkCollisions_lives in E. rewrite Hp, Gl, Hfly, Ul in E. exact E.
  - intros Hq. unfold noPlayerFire in Hq.
    apply andb_prop in Hq; destruct Hq as [Hq Hh].
    apply andb_prop in Hq; destruct Hq as [Hq Hb].
    apply andb_prop in Hq; destruct Hq as [Hs Hbm].
    apply negb_true_iff in Hs, Hbm.
    destruct (Game.bombs g) eqn:Eb; [|discriminate Hb].
    rewrite Fi in Gid. specialize (Gid Hs Hbm). rewrite Gid in *.
    apply checkCollisions_quiet in E.
    + rewrite E, Hp, Hfly, Uf. reflexivity.
    + apply Hbullets. rewrite Fb. exact Hh.
    + apply Hbombs. exact Fbo.
Qed.

Lemma playerCrash_lives (g : Game.t) n :
  Player.lives (Game.player (fst (Game.playerCrash host g n))) =
  Player.lives (Game.player g) - 1.
Proof.
  unfold Game.playerCrash, bind.
  destruct (Game.explode host g _ _ _ 20 n) as [g1 n1] eqn:E.
  apply explode_eq in E. destruct E as (Hp & _).
  game_cbn. cbn [Player.lives Player.with_lives].
  destruct (_ <=? 0); cbn [fst ret].
  - match goal with
    | |- context [Game.setState ?a ?b] =>
        destruct (setState_frame a b) as (-> & _)
    end.
    game_cbn. rewrite Hp. reflexivity.
  - game_cbn. rewrite Hp. reflexivity.
Qed.

(** A frame whose simulation leaves no fuel ends in crash resolution. *)
Lemma updatePlaying_out_of_fuel (g : Game.t) n g1 n1 :
  Game.simulateFrame host g n = (g1, n1) ->
  leb (Player.fuel (Game.player g1)) (ofZ 0) = true ->
  Game.updatePlaying host g n = Game.playerCrash host g1 n1.
Proof.
  intros E Hf. unfold Game.updatePlaying, bind. rewrite E.
  unfold Game.resolveFrame. rewrite Hf.
  destruct (TerrainGenerator.checkCollision _ _); reflexivity.
Qed.

(** A frame whose simulation leaves fuel and keeps the player clear of
    the walls resolves no crash: it takes no life. *)
Lemma updatePlaying_flying (g : Game.t) n g1 n1 :
  Game.simulateFrame host g n = (g1, n1) ->
  leb (Player.fuel (Game.player g1)) (ofZ 0) = false ->
  TerrainGenerator.checkCollision (Game.terrain g1) (Player.base (Game.player g1)) = None ->
  Game.player (fst (Game.updatePlaying host g n)) = Game.player g1.
Proof.
  intros E Hf Hc. unfold Game.updatePlaying, bind. rewrite E.
  unfold Game.resolveFrame. rewrite Hf, Hc.
  destruct (geb _ _); cbn [fst ret]; [|reflexivity].
  destruct (setState_frame g1 STAGE_TRANSITION) as (-> & _). reflexivity.
Qed.

Lemma resolveFrame_lives (stageConfig : Stage.t) (g : Game.t) n :
  Player.lives (Game.player (fst (Game.resolveFrame host stageConfig g n)))
  <= Player.lives (Game.player g).
Proof.
  unfold Game.resolveFrame.
  destruct (TerrainGenerator.checkCollision _ _);
    [rewrite playerCrash_lives; lia|].
  destruct (leb _ _); [rewrite playerCrash_lives; lia|].
  destruct (geb _ _); cbn [fst ret]; [|lia].
  destruct (setState_frame g STAGE_TRANSITION) as (-> & _). lia.
Qed.

Lemma updatePlaying_lives (g : Game.t) n :
  Player.lives (Game.player (fst (Game.updatePlaying host g n)))
  <= Player.lives (Game.player g).
Proof.
  unfold Game.updatePlaying, bind.
  destruct (Game.simulateFrame host g n) as [g1 n1] eqn:E.
  apply simulateFrame_eq in E. destruct E as (E & _).
  pose proof (resolveFrame_lives (Game.stageConfigAt (Game.currentStage g)) g1 n1).
  lia.
Qed.

Lemma initStage_player (g : Game.t) n g' n' :
  Game.initStage host g n = (Some g', n') -> Game.player g' = Game.player g.
Proof.
  unfold Game.initStage. run_rand.
  destruct o; intros E; [|discriminate E].
  injection E as <- <-. reflexivity.
Qed.

Lemma advanceStage_player (g : Game.t) n g' n' :
  Game.advanceStage host g n = (Some g', n') -> Game.player g' = Game.player g.
Proof.
  unfold Game.advanceStage. game_cbn.
  destruct (_ >=? _).
  - intros E. apply pair_equal_spec in E. destruct E as [E <-].
    some_inj E.
    match goal with
    | |- context [Game.setState ?a ?b] =>
        destruct (setState_frame a b) as (-> & _)
    end. reflexivity.
  - run_rand. destruct o as [g1|]; intros E; [|discriminate E].
    apply pair_equal_spec in E. destruct E as [E <-]. some_inj E.
    match goal with
    | H : Game.initStage _ _ _ = _ |- _ => apply initStage_player in H
    end.
    match goal with
    | |- context [Game.setState ?a ?b] =>
        destruct (setState_frame a b) as (-> & _)
    end. rewrite Heqp. reflexivity.
Qed.

Lemma update_lives (g : Game.t) n g' n' :
  Game.update host g n = (Some g', n') ->
  Player.lives (Game.player g') <= Player.lives (Game.player g).
Proof.
  unfold Game.update.
  change (Game.state (Game.updateParticles g)) with (Game.state g).
  destruct (Game.state g); try (intros E; injection E as <- <-; cbn; lia).
  - unfold bind.
    pose proof (updatePlaying_lives (Game.updateParticles g) n) as L.
    destruct (Game.updatePlaying host (Game.updateParticles g) n) as [g1 n1].
    intros E; injection E as <- <-. exact L.
  - game_cbn. destruct (_ <=? 0).
    + intros E. apply advanceStage_player in E. rewrite E. cbn. lia.
    + intros E; injection E as <- <-. cbn. lia.
Qed.
End PassLemmas.

(** ** Fuel exhaustion *)

(** C3, as stated, fails on the code: in the doubles the program runs on,
    a fresh player idling for 2000 frames does not have fuel exactly 0. *)
Lemma fuel_after_2000_frames_is_not_zero :
  Player.fuel (runPlayer (N := binary64) (Player.new (ofZ 800) (ofZ 600))
                         (idleFrames 2000)) <> ofZ 0.
Proof.
  intros H. vm_compute in H. discriminate H.
Qed.

(** C3, amended. Starting from fuel 100 with drain rate 0.05 and no fuel
    pickups, in double arithmetic: after exactly 2000 [Player.update]
    frames the fuel is [0x1.f2d28p-39], about 3.54e-12, which is above 0,
    so the fuel check of the 2000th [updatePlaying] does not fire (that
    frame takes a life only if the player strikes a wall); the 2001st
    [Player.update] clamps the fuel to exactly 0, and the 2001st
    [updatePlaying] resolves a crash, which takes exactly one life.
    "No pickup" is granted by [noPlayerFire]: the player has no projectile
    in flight and fires none. *)
Theorem fuel_exhaustion_scenario (p : @Player.t binary64) :
  Player.fuel p = ofZ 100 ->
  Player.fuelDrainRate p = dec 5 2 ->
  (* after 2000 frames *)
  (forall frames, List.length frames = 2000%nat ->
     Player.fuel (runPlayer p frames) = fuelAfter2000 /\
     leb (Player.fuel (runPlayer p frames)) (ofZ 0) = false /\
     Player.lives (runPlayer p frames) = Player.lives p /\
     forall input topBound bottomBound,
       Player.fuel (Player.update (runPlayer p frames) input topBound bottomBound)
       = ofZ 0) /\
  (* the 2000th updatePlaying *)
  (forall frames host g n,
     List.length frames = 1999%nat ->
     Game.player g = runPlayer p frames -> noPlayerFire g = true ->
     let (g1, n1) := Game.simulateFrame host g n in
     Player.fuel (Game.player g1) = fuelAfter2000 /\
     (TerrainGenerator.checkCollision (Game.terrain g1) (Player.base (Game.player g1)) = None ->
      Game.player (fst (Game.updatePlaying host g n)) = Game.player g1)) /\
  (* the 2001st updatePlaying *)
  (forall frames host g n,
     List.length frames = 2000%nat ->
     Game.player g = runPlayer p frames -> noPlayerFire g = true ->
     let (g1, n1) := Game.simulateFrame host g n in
     Player.fuel (Game.player g1) = ofZ 0 /\
     Game.updatePlaying host g n = Game.playerCrash host g1 n1 /\
     Player.lives (Game.player (fst (Game.updatePlaying host g n))) =
       Player.lives (Game.player g1) - 1 /\
     (Player.lives (Game.player g1) = Player.lives (Game.player g) ->
      Player.lives (Game.player (fst (Game.updatePlaying host g n))) =
        Player.lives p - 1)).
Proof.
  intros Hfuel Hrate.
  assert (H2000 : forall frames, List.length frames = 2000%nat ->
            Player.fuel (runPlayer p frames) = fuelAfter2000).
  { intros frames Hlen. destruct (runPlayer_fuel frames p) as (-> & _).
    rewrite Hlen, Hfuel, Hrate. vm_compute. reflexivity. }
  assert (H1999 : forall frames, List.length frames = 1999%nat ->
            Player.fuel (runPlayer p frames) = fuelAfter1999).
  { intros frames Hlen. destruct (runPlayer_fuel frames p) as (-> & _).
    rewrite Hlen, Hfuel, Hrate. vm_compute. reflexivity. }
  split; [|split].
  - intros frames Hlen. rewrite (H2000 frames Hlen).
    split; [reflexivity|]. split; [vm_compute; reflexivity|].
    destruct (runPlayer_fuel frames p) as (_ & Hr & Hl).
    split; [exact Hl|].
    intros input topBound bottomBound.
    destruct (Player_update_frame (runPlayer p frames) input topBound bottomBound)
      as (_ & _ & _ & ->).
    rewrite Hr, Hrate, (H2000 frames Hlen). vm_compute. reflexivity.
  - intros frames host g n Hlen Hp Hq.
    destruct (Game.simulateFrame host g n) as [g1 n1] eqn:E.
    destruct (simulateFrame_eq host g n _ _ E) as (_ & Hf).
    specialize (Hf Hq). rewrite Hp in Hf.
    destruct (runPlayer_fuel frames p) as (_ & Hr & _).
    rewrite Hr, Hrate, (H1999 frames Hlen) in Hf.
    assert (Hf' : Player.fuel (Game.player g1) = fuelAfter2000)
      by (rewrite Hf; vm_compute; reflexivity).
    split; [exact Hf'|].
    intros Hc. apply (updatePlaying_flying host g n _ _ E); [|exact Hc].
    rewrite Hf'. vm_compute. reflexivity.
  - intros frames host g n Hlen Hp Hq.
    destruct (Game.simulateFrame host g n) as [g1 n1] eqn:E.
    destruct (simulateFrame_eq host g n _ _ E) as (_ & Hf).
    specialize (Hf Hq). rewrite Hp in Hf.
    destruct (runPlayer_fuel frames p) as (_ & Hr & Hl).
    rewrite Hr, Hrate, (H2000 frames Hlen) in Hf.
    assert (Hf' : Player.fuel (Game.player g1) = ofZ 0)
      by (rewrite Hf; vm_compute; reflexivity).
    assert (Hcrash : Game.updatePlaying host g n = Game.playerCrash host g1 n1).
    { apply (updatePlaying_out_of_fuel host g n _ _ E). rewrite Hf'.
      vm_compute. reflexivity. }
    split; [exact Hf'|]. split; [exact Hcrash|].
    rewrite Hcrash, playerCrash_lives.
    split; [reflexivity|]. intros ->. rewrite Hp, Hl. reflexivity.
Qed.

Lemma player_with_player {N : JSNumber} (g : Game.t) (p : Player.t) :
  Game.player (Game.with_player g p) = p.
Proof. reflexivity. Qed.

(** C3 on a concrete run: the constructor's player on an 800 x 600 canvas,
    2000 idle frames, then one [updatePlaying] of the example game: the
    fuel before that frame is the residue, and the frame leaves 2 of the
    3 lives. *)
Lemma fuel_exhaustion_witness :
  Player.fuel (runPlayer (N := binary64) (Player.new (ofZ 800) (ofZ 600))
                         (idleFrames 2000)) = fuelAfter2000 /\
  Player.lives (Game.player (fst (Game.updatePlaying exampleHost gameAfter2000 O))) = 2.
Proof.
  assert (Hfuel : Player.fuel (Player.new (N := binary64) (ofZ 800) (ofZ 600)) = ofZ 100)
    by reflexivity.
  assert (Hrate : Player.fuelDrainRate (Player.new (N := binary64) (ofZ 800) (ofZ 600))
                  = dec 5 2) by reflexivity.
  assert (Hlen : List.length (idleFrames (N := binary64) 2000) = 2000%nat)
    by (vm_compute; reflexivity).
  assert (Hq : noPlayerFire gameAfter2000 = true) by (vm_compute; reflexivity).
  assert (Hl : Player.lives (Game.player
                 (fst (Game.simulateFrame exampleHost gameAfter2000 O))) =
               Player.lives (Game.player gameAfter2000))
    by (vm_compute; reflexivity).
  destruct (fuel_exhaustion_scenario
              (Player.new (N := binary64) (ofZ 800) (ofZ 600)) Hfuel Hrate)
    as (A & _ & C).
  split.
  - destruct (A (idleFrames 2000) Hlen) as (A1 & _). exact A1.
  - pose proof (C (idleFrames 2000) exampleHost gameAfter2000 O Hlen
                  (player_with_player exampleGame _) Hq) as C1.
    destruct (Game.simulateFrame exampleHost gameAfter2000 O) as [g1 n1].
    destruct C1 as (_ & _ & _ & C1). exact (C1 Hl).
Defined.

(** In exact arithmetic the picture is the other one: 2000 drains of
    1/20 leave exactly 0, and crash resolution is part of that same
    2000th [updatePlaying], not of the next one. *)
Lemma fuel_exhaustion_exact_arithmetic (p : @Player.t exactQ) :
  Player.fuel p = ofZ 100 ->
  Player.fuelDrainRate p = dec 5 2 ->
  (forall frames, List.length frames = 2000%nat ->
     Player.fuel (runPlayer p frames) = ofZ 0) /\
  (forall frames host g n,
     List.length frames = 1999%nat ->
     Game.player g = runPlayer p frames -> noPlayerFire g = true ->
     let (g1, n1) := Game.simulateFrame host g n in
     Game.updatePlaying host g n = Game.playerCrash host g1 n1).
Proof.
  intros Hfuel Hrate. split.
  - intros frames Hlen. destruct (runPlayer_fuel frames p) as (-> & _).
    rewrite Hlen, Hfuel, Hrate. vm_compute. reflexivity.
  - intros frames host g n Hlen Hp Hq.
    destruct (Game.simulateFrame host g n) as [g1 n1] eqn:E.
    destruct (simulateFrame_eq host g n _ _ E) as (_ & Hf).
    specialize (Hf Hq). rewrite Hp in Hf.
    destruct (runPlayer_fuel frames p) as (Hf0 & Hr & _).
    rewrite Hr, Hrate, Hf0, Hlen, Hfuel, Hrate in Hf.
    apply (updatePlaying_out_of_fuel host g n _ _ E). rewrite Hf.
    vm_compute. reflexivity.
Qed.

(** ** Lives *)

(** C9, as stated, fails on the code: [Player.reset] is a public operation
    of the player and [Game.start] (also [restart]) one of the game; on a
    player down to its last life each of them leaves 3 lives. *)
Lemma reset_and_start_raise_lives :
  let p := Game.player gameWithOneLife in
  Player.lives p = 1 /\
  ~ (Player.lives (Player.reset p (ofZ 800) (ofZ 600)) <= Player.lives p) /\
  ~ (forall g', fst (Game.start exampleHost gameWithOneLife O) = Some g' ->
                Player.lives (Game.player g') <= Player.lives p).
Proof.
  cbv zeta.
  assert (H1 : Player.lives (Game.player gameWithOneLife) = 1)
    by (vm_compute; reflexivity).
  assert (H2 : Player.lives (Player.reset (Game.player gameWithOneLife)
                                          (ofZ 800) (ofZ 600)) = 3)
    by reflexivity.
  assert (H3 : exists g', fst (Game.start exampleHost gameWithOneLife O) = Some g' /\
                          Player.lives (Game.player g') = 3).
  { destruct (fst (Game.start exampleHost gameWithOneLife O)) as [g'|] eqn:E.
    - exists g'. split; [reflexivity|].
      assert (E' : option_map (fun g => Player.lives (Game.player g))
                     (fst (Game.start exampleHost gameWithOneLife O)) = Some 3)
        by (vm_compute; reflexivity).
      rewrite E in E'. injection E' as E'. exact E'.
    - assert (E' : option_map (fun g => Player.lives (Game.player g))
                     (fst (Game.start exampleHost gameWithOneLife O)) = Some 3)
        by (vm_compute; reflexivity).
      rewrite E in E'. discriminate E'. }
  rewrite H1, H2. split; [reflexivity|]. split; [lia|].
  intros H. destruct H3 as (g' & E & L). specialize (H g' E). lia.
Qed.

(** C9, amended. No operation of play adds a life: [Player.update],
    [shoot], [bomb] and [addFuel] keep the count, [Player.hit] keeps or
    lowers it, and so do [Game.playerHit], [playerCrash] (by exactly 1),
    [checkCollisions], [updatePlaying], a whole frame [Game.update]
    (stage advance included), [pause] and [setInput]. The count is set
    back to 3 by [Player.reset] and by [Game.start]/[restart], and by
    nothing else. *)
Theorem lives_never_raised_in_play {N : JSNumber} (host : Host) :
  (forall p input topBound bottomBound,
     Player.lives (Player.update p input topBound bottomBound) = Player.lives p) /\
  (forall p, Player.lives (snd (Player.shoot p)) = Player.lives p) /\
  (forall p, Player.lives (snd (Player.bomb p)) = Player.lives p) /\
  (forall p amount, Player.lives (Player.addFuel p amount) = Player.lives p) /\
  (forall p, Player.lives (snd (Player.hit p)) <= Player.lives p) /\
  (forall g n, Player.lives (Game.player (fst (Game.playerHit host g n)))
               <= Player.lives (Game.player g)) /\
  (forall g n, Player.lives (Game.player (fst (Game.playerCrash host g n)))
               = Player.lives (Game.player g) - 1) /\
  (forall g n, Player.lives (Game.player (fst (Game.checkCollisions host g n)))
               <= Player.lives (Game.player g)) /\
  (forall g n, Player.lives (Game.player (fst (Game.updatePlaying host g n)))
               <= Player.lives (Game.player g)) /\
  (forall g n g' n', Game.update host g n = (Some g', n') ->
     Player.lives (Game.player g') <= Player.lives (Game.player g)) /\
  (forall g, Game.player (Game.pause g) = Game.player g) /\
  (forall g key value, Game.player (Game.setInput g key value) = Game.player g) /\
  (forall p cw ch, Player.lives (Player.reset p cw ch) = 3) /\
  (forall g n g' n', Game.start host g n = (Some g', n') ->
     Player.lives (Game.player g') = 3).
Proof.
  repeat match goal with |- _ /\ _ => split end.
  - intros p input topBound bottomBound.
    apply (Player_update_frame p input topBound bottomBound).
  - intros p. apply (Player_shoot_frame p).
  - intros p. apply (Player_bomb_frame p).
  - intros p amount. reflexivity.
  - intros p. apply (Player_hit_frame p).
  - intros g n. destruct (Game.playerHit host g n) as [g' n'] eqn:E.
    apply playerHit_eq in E. apply E.
  - intros g n. apply playerCrash_lives.
  - intros g n. destruct (Game.checkCollisions host g n) as [g' n'] eqn:E.
    apply checkCollisions_lives in E. exact E.
  - intros g n. apply updatePlaying_lives.
  - intros g n g' n' E. apply (update_lives host g n g' n' E).
  - intros g. unfold Game.pause.
    destruct (Game.state g); try reflexivity;
      match goal with
      | |- context [Game.setState ?a ?b] =>
          destruct (setState_frame a b) as (-> & _)
      end; reflexivity.
  - intros g key value. reflexivity.
  - intros p cw ch. reflexivity.
  - intros g n g' n'. unfold Game.start. run_rand.
    destruct o as [terrain|]; intros E; [|discriminate E].
    apply pair_equal_spec in E. destruct E as [E _]. some_inj E.
    match goal with
    | |- context [Game.setState ?a ?b] =>
        destruct (setState_frame a b) as (-> & _)
    end. reflexivity.
Qed.

(** C9 on one frame of the example game: the frame returns a game, with
    no more than the 3 lives it started with. *)
Lemma lives_witness :
  match fst (Game.update (N := binary64) exampleHost exampleGame O) with
  | Some g' => Player.lives (Game.player g') <= 3
  | None => False
  end.
Proof.
  destruct (lives_never_raised_in_play (N := binary64) exampleHost)
    as (_ & _ & _ & _ & _ & _ & _ & _ & _ & Hupdate & _).
  assert (Hsome : match fst (Game.update (N := binary64) exampleHost exampleGame O) with
                  | Some _ => true
                  | None => false
                  end = true) by (vm_compute; reflexivity).
  assert (H3 : Player.lives (Game.player (N := binary64) exampleGame) = 3)
    by (vm_compute; reflexivity).
  destruct (Game.update exampleHost exampleGame O) as [[g'|] n'] eqn:E;
    cbn [fst] in *; [|discriminate Hsome].
  rewrite <- H3. exact (Hupdate exampleGame O g' n' E).
Defined.

(** ** Hostile bullets *)

Section HostileBullets.
Context {N : JSNumber} (host : Host).

(** The passes do not read the [bullets] field of the game while they
    loop: they commute with setting it. *)
Lemma explode_with_bullets (g : Game.t) bs x y c k n :
  Game.explode host (Game.with_bullets g bs) x y c k n =
  (Game.with_bullets (fst (Game.explode host g x y c k n)) bs,
   snd (Game.explode host g x y c k n)).
Proof.
  unfold Game.explode, bind, ret.
  destruct (createExplosion host x y c k n); reflexivity.
Qed.

Lemma destroyTarget_with_bullets (g : Game.t) bs target k n :
  Game.destroyTarget host (Game.with_bullets g bs) target k n =
  (Game.with_bullets (fst (Game.destroyTarget host g target k n)) bs,
   snd (Game.destroyTarget host g target k n)).
Proof.
  unfold Game.destroyTarget, bind.
  change (Game.addScore (Game.with_bullets g bs) (GroundTarget.points target))
    with (Game.with_bullets (Game.addScore g (GroundTarget.points target)) bs).
  rewrite explode_with_bullets.
  destruct (Game.explode host (Game.addScore g (GroundTarget.points target)) _ _ _ k n)
    as [g1 n1].
  cbn [fst snd].
  destruct (GroundTarget.givesFuel target); reflexivity.
Qed.

Lemma bulletsVsEnemies_with_bullets (l : list Bullet.t) (g : Game.t) bs n :
  Game.bulletsVsEnemies host l (Game.with_bullets g bs) n =
  (let '(out, g', n') := Game.bulletsVsEnemies host l g n in
   (out, Game.with_bullets g' bs, n')).
Proof.
  revert g n. induction l as [|b rest IH]; intros g n; simpl; [reflexivity|].
  destruct (negb (Bullet.isPlayerBullet b) || negb (Bullet.active b)).
  - unfold bind. rewrite IH.
    destruct (Game.bulletsVsEnemies host rest g n) as [[out g'] n'].
    reflexivity.
  - game_cbn.
    destruct (strikeFirst _ _ _ (Game.enemies g)) as [[e es]|].
    + destruct (Enemy.takeDamage e _) as [[] e']; unfold bind.
      * change (Game.addScore (Game.with_enemies (Game.with_bullets g bs) es)
                              (Enemy.points e'))
          with (Game.with_bullets
                  (Game.addScore (Game.with_enemies g es) (Enemy.points e')) bs).
        rewrite explode_with_bullets.
        destruct (Game.explode host _ _ _ _ 10 n) as [g1 n1]. cbn [fst snd].
        rewrite IH.
        destruct (Game.bulletsVsEnemies host rest g1 n1) as [[out g'] n'].
        reflexivity.
      * unfold ret.
        change (Game.with_enemies (Game.with_bullets g bs) es)
          with (Game.with_bullets (Game.with_enemies g es) bs).
        rewrite IH.
        destruct (Game.bulletsVsEnemies host rest _ n) as [[out g'] n'].
        reflexivity.
    + unfold bind. rewrite IH.
      destruct (Game.bulletsVsEnemies host rest g n) as [[out g'] n'].
      reflexivity.
Qed.

Lemma bombsVsTargets_with_bullets (l : list Bomb.t) (g : Game.t) bs n :
  Game.bombsVsTargets host l (Game.with_bullets g bs) n =
  (let '(out, g', n') := Game.bombsVsTargets host l g n in
   (out, Game.with_bullets g' bs, n')).
Proof.
  revert g n. induction l as [|b rest IH]; intros g n; simpl; [reflexivity|].
  destruct (negb (Bomb.active b)).
  - unfold bind. rewrite IH.
    destruct (Game.bombsVsTargets host rest g n) as [[out g'] n'].
    reflexivity.
  - game_cbn.
    destruct (strikeFirst _ _ _ (Game.groundTargets g)) as [[e es]|].
    + unfold bind.
      change (Game.with_groundTargets (Game.with_bullets g bs) es)
        with (Game.with_bullets (Game.with_groundTargets g es) bs).
      rewrite destroyTarget_with_bullets.
      destruct (Game.destroyTarget host _ _ 12 n) as [g1 n1]. cbn [fst snd].
      rewrite IH.
      destruct (Game.bombsVsTargets host rest g1 n1) as [[out g'] n'].
      reflexivity.
    + unfold bind. rewrite IH.
      destruct (Game.bombsVsTargets host rest g n) as [[out g'] n'].
      reflexivity.
Qed.

Lemma bulletsVsTargets_with_bullets (l : list Bullet.t) (g : Game.t) bs n :
  Game.bulletsVsTargets host l (Game.with_bullets g bs) n =
  (let '(out, g', n') := Game.bulletsVsTargets host l g n in
   (out, Game.with_bullets g' bs, n')).
Proof.
  revert g n. induction l as [|b rest IH]; intros g n; simpl; [reflexivity|].
  destruct (negb (Bullet.isPlayerBullet b) || negb (Bullet.active b)).
  - unfold bind. rewrite IH.
    destruct (Game.bulletsVsTargets host rest g n) as [[out g'] n'].
    reflexivity.
  - game_cbn.
    destruct (strikeFirst _ _ _ (Game.groundTargets g)) as [[e es]|].
    + unfold bind.
      change (Game.with_groundTargets (Game.with_bullets g bs) es)
        with (Game.with_bullets (Game.with_groundTargets g es) bs).
      rewrite destroyTarget_with_bullets.
      destruct (Game.destroyTarget host _ _ 10 n) as [g1 n1]. cbn [fst snd].
      rewrite IH.
      destruct (Game.bulletsVsTargets host rest g1 n1) as [[out g'] n'].
      reflexivity.
    + unfold bind. rewrite IH.
      destruct (Game.bulletsVsTargets host rest g n) as [[out g'] n'].
      reflexivity.
Qed.

Lemma filter_hostile_cons (b : Bullet.t) (l : list Bullet.t) :
  filter hostile (b :: l) =
  if Bullet.isPlayerBullet b then filter hostile l else b :: filter hostile l.
Proof. unfold hostile; simpl. destruct (Bullet.isPlayerBullet b); reflexivity. Qed.

Lemma filter_player_cons (b : Bullet.t) (l : list Bullet.t) :
  filter Bullet.isPlayerBullet (b :: l) =
  if Bullet.isPlayerBullet b then b :: filter Bullet.isPlayerBullet l
  else filter Bullet.isPlayerBullet l.
Proof. reflexivity. Qed.

(** Both bullet passes run as if the hostile bullets were not in the
    list, and hand them back untouched, in place. *)
Lemma bulletsVsEnemies_erase (l : list Bullet.t) (g : Game.t) n :
  Game.bulletsVsEnemies host (filter Bullet.isPlayerBullet l) g n =
  (let '(out, g', n') := Game.bulletsVsEnemies host l g n in
   (filter Bullet.isPlayerBullet out, g', n')) /\
  filter hostile (fst (fst (Game.bulletsVsEnemies host l g n))) = filter hostile l.
Proof.
  revert g n. induction l as [|b rest IH]; intros g n;
    [split; reflexivity|].
  rewrite filter_hostile_cons, filter_player_cons.
  simpl Game.bulletsVsEnemies.
  destruct (Bullet.isPlayerBullet b) eqn:Eb; cbn [negb orb].
  - simpl Game.bulletsVsEnemies. rewrite Eb. cbn [negb orb].
    destruct (negb (Bullet.active b)).
    + unfold bind. destruct (IH g n) as (-> & IH2).
      destruct (Game.bulletsVsEnemies host rest g n) as [[out g'] n'].
      cbn [fst snd ret] in *.
      rewrite filter_hostile_cons, filter_player_cons, Eb.
      split; [reflexivity | exact IH2].
    + destruct (strikeFirst _ _ _ (Game.enemies g)) as [[e es]|].
      * destruct (Enemy.takeDamage e _) as [[] e']; unfold bind.
        -- destruct (Game.explode host _ _ _ _ 10 n) as [g1 n1].
           destruct (IH g1 n1) as (-> & IH2).
           destruct (Game.bulletsVsEnemies host rest g1 n1) as [[out g'] n'].
           cbn [fst snd ret] in *.
           rewrite filter_hostile_cons, filter_player_cons.
           change (Bullet.isPlayerBullet (Bullet.with_active b false))
             with (Bullet.isPlayerBullet b).
           rewrite Eb. split; [reflexivity | exact IH2].
        -- unfold ret.
           destruct (IH (Game.with_enemies g es) n) as (-> & IH2).
           destruct (Game.bulletsVsEnemies host rest _ n) as [[out g'] n'].
           cbn [fst snd ret] in *.
           rewrite filter_hostile_cons, filter_player_cons.
           change (Bullet.isPlayerBullet (Bullet.with_active b false))
             with (Bullet.isPlayerBullet b).
           rewrite Eb. split; [reflexivity | exact IH2].
      * unfold bind. destruct (IH g n) as (-> & IH2).
        destruct (Game.bulletsVsEnemies host rest g n) as [[out g'] n'].
        cbn [fst snd ret] in *.
        rewrite filter_hostile_cons, filter_player_cons, Eb.
        split; [reflexivity | exact IH2].
  - unfold bind. destruct (IH g n) as (-> & IH2).
    destruct (Game.bulletsVsEnemies host rest g n) as [[out g'] n'].
    cbn [fst snd ret] in *.
    rewrite filter_hostile_cons, filter_player_cons, Eb.
    split; [reflexivity | rewrite IH2; reflexivity].
Qed.

Lemma bulletsVsTargets_erase (l : list Bullet.t) (g : Game.t) n :
  Game.bulletsVsTargets host (filter Bullet.isPlayerBullet l) g n =
  (let '(out, g', n') := Game.bulletsVsTargets host l g n in
   (filter Bullet.isPlayerBullet out, g', n')) /\
  filter hostile (fst (fst (Game.bulletsVsTargets host l g n))) = filter hostile l.
Proof.
  revert g n. induction l as [|b rest IH]; intros g n;
    [split; reflexivity|].
  rewrite filter_hostile_cons, filter_player_cons.
  simpl Game.bulletsVsTargets.
  destruct (Bullet.isPlayerBullet b) eqn:Eb; cbn [negb orb].
  - simpl Game.bulletsVsTargets. rewrite Eb. cbn [negb orb].
    destruct (negb (Bullet.active b)).
    + unfold bind. destruct (IH g n) as (-> & IH2).
      destruct (Game.bulletsVsTargets host rest g n) as [[out g'] n'].
      cbn [fst snd ret] in *.
      rewrite filter_hostile_cons, filter_player_cons, Eb.
      split; [reflexivity | exact IH2].
    + destruct (strikeFirst _ _ _ (Game.groundTargets g)) as [[e es]|].
      * unfold bind.
        destruct (Game.destroyTarget host _ _ 10 n) as [g1 n1].
        destruct (IH g1 n1) as (-> & IH2).
        destruct (Game.bulletsVsTargets host rest g1 n1) as [[out g'] n'].
        cbn [fst snd ret] in *.
        rewrite filter_hostile_cons, filter_player_cons.
        change (Bullet.isPlayerBullet (Bullet.with_active b false))
          with (Bullet.isPlayerBullet b).
        rewrite Eb. split; [reflexivity | exact IH2].
      * unfold bind. destruct (IH g n) as (-> & IH2).
        destruct (Game.bulletsVsTargets host rest g n) as [[out g'] n'].
        cbn [fst snd ret] in *.
        rewrite filter_hostile_cons, filter_player_cons, Eb.
        split; [reflexivity | exact IH2].
  - unfold bind. destruct (IH g n) as (-> & IH2).
    destruct (Game.bulletsVsTargets host rest g n) as [[out g'] n'].
    cbn [fst snd ret] in *.
    rewrite filter_hostile_cons, filter_player_cons, Eb.
    split; [reflexivity | rewrite IH2; reflexivity].
Qed.

(** What [strikeFirst] finds and what it returns. *)
Lemma strikeFirst_spec {A} (live hits : A -> bool) (struck : A -> A)
      (l : list A) :
  match strikeFirst live hits struck l with
  | Some (a, l') =>
      exists before after,
        l = before ++ a :: after /\ l' = before ++ struck a :: after /\
        live a = true /\ hits a = true /\
        forall c, In c before -> live c && hits c = false
  | None => forall c, In c l -> live c && hits c = false
  end.
Proof.
  induction l as [|a rest IH]; simpl.
  - intros c [].
  - destruct (live a && hits a) eqn:E.
    + exists [], rest. apply andb_prop in E. destruct E as [E1 E2].
      repeat split; auto. intros c [].
    + destruct (strikeFirst live hits struck rest) as [[found rest']|].
      * destruct IH as (before & after & -> & -> & Hl & Hh & Hb).
        exists (a :: before), after. repeat split; auto.
        intros c [<- | Hc]; [exact E | apply Hb, Hc].
      * intros c [<- | Hc]; [exact E | apply IH, Hc].
Qed.

(** The body-collision pass decides the fate of the enemies from the
    player's box alone, and touches nothing else of the world. *)
Lemma playerVsEnemies_world (g : Game.t) n :
  world (fst (Game.playerVsEnemies host g n)) =
  (match strikeFirst Enemy.active
           (fun enemy => Entity.collidesWith (Player.base (Game.player g)) (Enemy.base enemy))
           (fun enemy => Enemy.with_active enemy false)
           (Game.enemies g) with
   | Some (_, es) => es
   | None => Game.enemies g
   end,
   Game.groundTargets g, Game.score g, Player.fuel (Game.player g)).
Proof.
  unfold Game.playerVsEnemies.
  destruct (strikeFirst _ _ _ (Game.enemies g)) as [[e es]|]; [|reflexivity].
  unfold bind.
  destruct (Game.explode host g _ _ _ 10 n) as [g1 n1] eqn:E.
  apply explode_eq in E. destruct E as (Hp & _ & _ & Ht & _ & _ & Hs & _).
  destruct (Game.playerHit host (Game.with_enemies g1 es) n1) as [g2 n2] eqn:E2.
  apply playerHit_eq in E2. destruct E2 as (_ & Hf & He & Hg & Hsc).
  unfold world. cbn [fst]. game_cbn.
  rewrite He, Hg, Hsc, Hf, Ht, Hs, Hp. reflexivity.
Qed.

Lemma playerHit_base (g : Game.t) n :
  Player.base (Game.player (fst (Game.playerHit host g n))) =
  Player.base (Game.player g).
Proof.
  unfold Game.playerHit, Player.hit.
  destruct (Player.isInvincible (Game.player g)).
  - rewrite with_player_same. reflexivity.
  - unfold bind.
    destruct (Game.explode host _ _ _ _ 15 n) as [g1 n1] eqn:E.
    apply explode_eq in E. destruct E as (Hp & _).
    destruct (_ <=? 0); cbn [fst ret].
    + destruct (setState_frame g1 GAME_OVER) as (-> & _).
      rewrite Hp. reflexivity.
    + rewrite Hp. reflexivity.
Qed.

Lemma hostileBulletsVsPlayer_world (g : Game.t) n :
  let g' := fst (Game.hostileBulletsVsPlayer host g n) in
  world g' = world g /\
  Player.base (Game.player g') = Player.base (Game.player g).
Proof.
  cbv zeta.
  destruct (Game.hostileBulletsVsPlayer host g n) as [g' n'] eqn:E.
  pose proof E as E'. apply hostileBulletsVsPlayer_eq in E'.
  destruct E' as (_ & Hf & He & Ht & Hs). cbn [fst].
  split; [unfold world; rewrite He, Ht, Hs, Hf; reflexivity|].
  unfold Game.hostileBulletsVsPlayer in E.
  destruct (strikeFirst _ _ _ (Game.bullets g)) as [[b bs]|].
  - replace g' with (fst (Game.playerHit host (Game.with_bullets g bs) n))
      by (rewrite E; reflexivity).
    rewrite playerHit_base. reflexivity.
  - injection E as <- <-. reflexivity.
Qed.

Lemma with_bullets_twice (g : Game.t) (a b : list Bullet.t) :
  Game.with_bullets (Game.with_bullets g a) b = Game.with_bullets g b.
Proof. reflexivity. Qed.

Lemma with_bombs_with_bullets (g : Game.t) (a : list Bullet.t) (bo : list Bomb.t) :
  Game.with_bombs (Game.with_bullets g a) bo =
  Game.with_bullets (Game.with_bombs g bo) a.
Proof. reflexivity. Qed.

(** Collision resolution leaves the same world whether the hostile
    bullets are in the game or not. *)
Lemma checkCollisions_erase (g : Game.t) n :
  world (fst (Game.checkCollisions host g n)) =
  world (fst (Game.checkCollisions host
                (Game.with_bullets g (filter Bullet.isPlayerBullet (Game.bullets g)))
                n)).
Proof.
  assert (Htail : forall ga gb na nb,
            world ga = world gb ->
            Player.base (Game.player ga) = Player.base (Game.player gb) ->
            world (fst (bind (Game.hostileBulletsVsPlayer host ga)
                             (Game.playerVsEnemies host) na)) =
            world (fst (bind (Game.hostileBulletsVsPlayer host gb)
                             (Game.playerVsEnemies host) nb))).
  { intros ga gb na nb Hw Hb. unfold bind.
    destruct (hostileBulletsVsPlayer_world ga na) as (Wa & Ba).
    destruct (hostileBulletsVsPlayer_world gb nb) as (Wb & Bb).
    destruct (Game.hostileBulletsVsPlayer host ga na) as [ga' na'].
    destruct (Game.hostileBulletsVsPlayer host gb nb) as [gb' nb'].
    cbn [fst] in *.
    rewrite !playerVsEnemies_world.
    rewrite Ba, Bb, Hb.
    rewrite <- Hw in Wb. rewrite <- Wa in Wb. unfold world in Wb.
    injection Wb as -> -> -> ->. reflexivity. }
  unfold Game.checkCollisions.
  set (fb := filter Bullet.isPlayerBullet (Game.bullets g)).
  change (Game.bullets (Game.with_bullets g fb)) with fb.
  unfold bind.
  rewrite bulletsVsEnemies_with_bullets.
  subst fb. destruct (bulletsVsEnemies_erase (Game.bullets g) g n) as (-> & _).
  destruct (Game.bulletsVsEnemies host (Game.bullets g) g n) as [[out1 g1] n1].
  cbv beta iota.
  game_cbn.
  rewrite !bombsVsTargets_with_bullets.
  rewrite ?with_bullets_twice.
  destruct (Game.bombsVsTargets host (Game.bombs g1) g1 n1) as [[bo g2] n2].
  cbv beta iota.
  game_cbn.
  rewrite ?with_bullets_twice, ?with_bombs_with_bullets.
  rewrite !bulletsVsTargets_with_bullets.
  destruct (bulletsVsTargets_erase out1 (Game.with_bombs g2 bo) n2) as (-> & _).
  destruct (Game.bulletsVsTargets host out1 (Game.with_bombs g2 bo) n2)
    as [[out3 g3] n3].
  cbv beta iota. rewrite ?with_bullets_twice.
  apply (Htail (Game.with_bullets g3 out3)
               (Game.with_bullets g3 (filter Bullet.isPlayerBullet out3)));
    reflexivity.
Qed.
End HostileBullets.

(** C10. Hostile bullets interact only with the player. Both bullet
    passes of [checkCollisions] (against enemies, against ground targets)
    give the same game and make the same draws as on the list without the
    hostile bullets, and return every hostile bullet as it was. The only
    pass that looks at a hostile bullet either does nothing or deactivates
    one live hostile bullet that touches the player and runs
    [playerHit]; it leaves enemies, ground targets, score and fuel as
    they were. End to end, the enemies, ground targets, score and fuel
    that [checkCollisions] leaves do not depend on the hostile bullets. *)
Theorem hostile_bullets_only_meet_the_player {N : JSNumber} (host : Host)
        (g : Game.t) (n : nat) :
  (forall l,
     Game.bulletsVsEnemies host (filter Bullet.isPlayerBullet l) g n =
       (let '(out, g', n') := Game.bulletsVsEnemies host l g n in
        (filter Bullet.isPlayerBullet out, g', n')) /\
     filter hostile (fst (fst (Game.bulletsVsEnemies host l g n))) = filter hostile l) /\
  (forall l,
     Game.bulletsVsTargets host (filter Bullet.isPlayerBullet l) g n =
       (let '(out, g', n') := Game.bulletsVsTargets host l g n in
        (filter Bullet.isPlayerBullet out, g', n')) /\
     filter hostile (fst (fst (Game.bulletsVsTargets host l g n))) = filter hostile l) /\
  (Game.hostileBulletsVsPlayer host g n = (g, n) \/
   exists before b after,
     Game.bullets g = before ++ b :: after /\
     Bullet.isPlayerBullet b = false /\ Bullet.active b = true /\
     Entity.collidesWith (Bullet.base b) (Player.base (Game.player g)) = true /\
     Game.hostileBulletsVsPlayer host g n =
       Game.playerHit host
         (Game.with_bullets g (before ++ Bullet.with_active b false :: after)) n) /\
  world (fst (Game.hostileBulletsVsPlayer host g n)) = world g /\
  world (fst (Game.checkCollisions host g n)) =
    world (fst (Game.checkCollisions host
                  (Game.with_bullets g (filter Bullet.isPlayerBullet (Game.bullets g)))
                  n)).
Proof.
  split; [intros l; apply bulletsVsEnemies_erase|].
  split; [intros l; apply bulletsVsTargets_erase|].
  split; [|split].
  - unfold Game.hostileBulletsVsPlayer.
    pose proof (strikeFirst_spec
                  (fun bullet => negb (Bullet.isPlayerBullet bullet) && Bullet.active bullet)
                  (fun bullet => Entity.collidesWith (Bullet.base bullet)
                                   (Player.base (Game.player g)))
                  (fun bullet => Bullet.with_active bullet false)
                  (Game.bullets g)) as S.
    destruct (strikeFirst _ _ _ (Game.bullets g)) as [[b bs]|].
    + right. destruct S as (before & after & E1 & E2 & Hl & Hh & _).
      apply andb_prop in Hl. destruct Hl as [Hl1 Hl2].
      apply negb_true_iff in Hl1.
      exists before, b, after. rewrite E2. repeat split; assumption.
    + left. reflexivity.
  - apply (hostileBulletsVsPlayer_world host g n).
  - apply checkCollisions_erase.
Qed.

(** ** Terrain queries *)

Lemma covers_covering {N : JSNumber} (x : num) (s : TerrainSegment.t) :
  TerrainGenerator.covers x s = true <-> covering x s.
Proof.
  unfold TerrainGenerator.covers, covering. rewrite geb_leb.
  rewrite andb_true_iff. reflexivity.
Qed.

(** C7. Terrain bounds fallback: [getBoundsAt] is a total function; if
    some segment covers [x], the result is the top height of a covering
    segment, the first one of the sequence, with [canvasHeight] minus its
    bottom height; if no segment covers [x], the result is the stage's
    base top height with [canvasHeight] minus its base bottom height. *)
Theorem getBoundsAt_covering_or_base {N : JSNumber}
        (g : TerrainGenerator.t) (x : num) :
  ((exists s, In s (TerrainGenerator.segments g) /\ covering x s) ->
   exists before s after,
     TerrainGenerator.segments g = before ++ s :: after /\
     covering x s /\
     (forall s', In s' before -> ~ covering x s') /\
     TerrainGenerator.getBoundsAt g x =
       Zone.mk (TerrainSegment.topHeight s)
               (sub (TerrainGenerator.canvasHeight g) (TerrainSegment.bottomHeight s))) /\
  ((forall s, In s (TerrainGenerator.segments g) -> ~ covering x s) ->
   TerrainGenerator.getBoundsAt g x =
     Zone.mk (Stage.baseTopHeight (TerrainGenerator.config g))
             (sub (TerrainGenerator.canvasHeight g)
                  (Stage.baseBottomHeight (TerrainGenerator.config g)))).
Proof.
  unfold TerrainGenerator.getBoundsAt.
  assert (Hfind : forall l : list TerrainSegment.t,
            match find (TerrainGenerator.covers x) l with
            | Some s => exists before after,
                          l = before ++ s :: after /\ covering x s /\
                          forall s', In s' before -> ~ covering x s'
            | None => forall s, In s l -> ~ covering x s
            end).
  { induction l as [|a rest IH]; simpl.
    - intros s [].
    - destruct (TerrainGenerator.covers x a) eqn:E.
      + exists [], rest. apply covers_covering in E.
        repeat split; try apply E. intros s' [].
      + assert (Ha : ~ covering x a)
          by (intros C; apply covers_covering in C; congruence).
        destruct (find (TerrainGenerator.covers x) rest) as [s|].
        * destruct IH as (before & after & -> & C & Hb).
          exists (a :: before), after. repeat split; try apply C.
          intros s' [<- | Hin]; [exact Ha | apply Hb, Hin].
        * intros s [<- | Hin]; [exact Ha | apply IH, Hin]. }
  specialize (Hfind (TerrainGenerator.segments g)).
  destruct (find (TerrainGenerator.covers x) (TerrainGenerator.segments g)) as [s|].
  - split.
    + intros _. destruct Hfind as (before & after & E & C & Hb).
      exists before, s, after. repeat split; try apply C; assumption.
    + intros Hnone. destruct Hfind as (before & after & E & C & _).
      exfalso. apply (Hnone s); [|exact C].
      rewrite E. apply in_or_app. right. left. reflexivity.
  - split.
    + intros (s & Hin & C). exfalso. exact (Hfind s Hin C).
    + intros _. reflexivity.
Qed.

(** C7 on the terrain of the example game: at [x = 100] a segment covers
    and gives its heights (40 and 600 - 80 on this flat terrain); at
    [x = 850], beyond the last segment, the stage's base heights are
    returned. *)
Lemma getBoundsAt_witness :
  let terrain := Game.terrain (N := binary64) exampleGame in
  (exists s, In s (TerrainGenerator.segments terrain) /\ covering (ofZ 100) s) /\
  (forall s, In s (TerrainGenerator.segments terrain) -> ~ covering (ofZ 850) s) /\
  Zone.top (TerrainGenerator.getBoundsAt terrain (ofZ 100)) = ofZ 40 /\
  TerrainGenerator.getBoundsAt terrain (ofZ 850) = Zone.mk (ofZ 40) (sub (ofZ 600) (ofZ 80)).
Proof.
  cbv zeta.
  set (terrain := Game.terrain (N := binary64) exampleGame).
  destruct (getBoundsAt_covering_or_base terrain (ofZ 850)) as (_ & Hout).
  assert (Hcov : exists s, In s (TerrainGenerator.segments terrain) /\
                           covering (ofZ 100) s).
  { exists (nth 25 (TerrainGenerator.segments terrain)
                (TerrainSegment.mk (ofZ 0) (ofZ 0) (ofZ 0) (ofZ 0))).
    split.
    - apply nth_In. vm_compute. lia.
    - split; vm_compute; reflexivity. }
  assert (Hnone : forall s, In s (TerrainGenerator.segments terrain) ->
                            ~ covering (ofZ 850) s).
  { assert (F : forallb (fun s => negb (TerrainGenerator.covers (ofZ 850) s))
                        (TerrainGenerator.segments terrain) = true)
      by (vm_compute; reflexivity).
    rewrite forallb_forall in F. intros s Hs C.
    apply covers_covering in C. specialize (F s Hs). rewrite C in F.
    discriminate F. }
  split; [exact Hcov|]. split; [exact Hnone|]. split.
  - vm_compute. reflexivity.
  - rewrite (Hout Hnone). reflexivity.
Defined.

(** ** The stage table *)

Lemma getStage_defined {N : JSNumber} (index : nat) :
  getStage (Z.of_nat index) <> None.
Proof.
  unfold getStage, arrayGet. cbn [STAGES List.length].
  destruct (Z.min (Z.of_nat index) (Z.of_nat 5 - 1) <? 0) eqn:E;
    [apply Z.ltb_lt in E; lia|].
  apply nth_error_Some. cbn [STAGES List.length]. lia.
Qed.

(** C8, as stated, fails on the code: [getStage(-1)] is [STAGES[-1]],
    which is [undefined], not a stage record. *)
Lemma getStage_of_negative_index :
  ~ exists stage, getStage (N := binary64) (-1) = Some stage.
Proof. intros (stage & H). discriminate H. Qed.

(** C8, amended. [getStage] clamps from above only: for every index at or
    beyond the number of stages it returns the final stage record; for
    every index from 0 on it returns a record of the table (the one at
    that index while the index is inside the table); for a negative
    index the lookup falls outside the table and yields no record. *)
Theorem getStage_clamps_from_above {N : JSNumber} (index : Z) :
  (getTotalStages <= index -> getStage index = Some FINAL_FORTRESS) /\
  (0 <= index -> exists stage, getStage index = Some stage /\ In stage STAGES) /\
  (0 <= index < getTotalStages ->
     getStage index = nth_error STAGES (Z.to_nat index)) /\
  (index < 0 -> getStage index = None).
Proof.
  unfold getStage, getTotalStages, arrayGet. cbn [STAGES List.length].
  change (Z.of_nat 5) with 5.
  repeat split.
  - intros H. rewrite Z.min_r by lia. reflexivity.
  - intros H.
    destruct (Z.min index (5 - 1) <? 0) eqn:E; [apply Z.ltb_lt in E; lia|].
    destruct (nth_error _ (Z.to_nat (Z.min index (5 - 1)))) as [stage|] eqn:En.
    + exists stage. split; [reflexivity|]. eapply nth_error_In, En.
    + apply nth_error_None in En. cbn [STAGES List.length] in En. lia.
  - intros H. rewrite Z.min_l by lia.
    destruct (index <? 0) eqn:E; [apply Z.ltb_lt in E; lia|]. reflexivity.
  - intros H. rewrite Z.min_l by lia.
    destruct (index <? 0) eqn:E; [reflexivity | apply Z.ltb_ge in E; lia].
Qed.

(** C8 on the index the transition screen may ask for after the last
    stage, and on one far beyond. *)
Lemma getStage_witness :
  getStage (N := binary64) 5 = Some FINAL_FORTRESS /\
  getStage (N := binary64) 1000 = Some FINAL_FORTRESS.
Proof.
  split.
  - destruct (getStage_clamps_from_above (N := binary64) 5) as (H & _).
    apply H. vm_compute. discriminate.
  - destruct (getStage_clamps_from_above (N := binary64) 1000) as (H & _).
    apply H. vm_compute. discriminate.
Defined.

(** ** The terrain's frame *)

(** C4, as stated, fails on the code at the boundary: after six frames of
    the second stage the leftmost segment is at [x = -12]; the seventh
    moves it to [x = -14], where [x + width] is exactly [-10], which is
    not below [-10], and the segment is evicted all the same. *)
Lemma update_evicts_at_the_boundary :
  let t := scrollTerrain 6 stageTwoTerrain (ofZ 0) in
  exists s,
    In s (TerrainGenerator.segments t) /\
    let s' := TerrainSegment.update s (ofZ 2) in
    TerrainSegment.x s' = ofZ (-14) /\
    add (TerrainSegment.x s') (TerrainSegment.width s') = ofZ (-10) /\
    ltb (add (TerrainSegment.x s') (TerrainSegment.width s')) (ofZ (-10)) = false /\
    ~ In s' (TerrainGenerator.segments
               (TerrainGenerator.update exampleHost t (ofZ 2) (ofZ 14))).
Proof.
  cbv zeta.
  set (t := scrollTerrain 6 stageTwoTerrain (ofZ 0)).
  set (s := nth 0 (TerrainGenerator.segments t)
                (TerrainSegment.mk (ofZ 0) (ofZ 0) (ofZ 0) (ofZ 0))).
  exists s.
  assert (Hlen : (0 < List.length (TerrainGenerator.segments t))%nat)
    by (vm_compute; lia).
  split; [apply nth_In, Hlen|].
  split; [vm_compute; reflexivity|].
  split; [vm_compute; reflexivity|].
  split; [vm_compute; reflexivity|].
  intros Hin.
  assert (F : forallb (fun c => ltb (ofZ (-14)) (TerrainSegment.x c))
                (TerrainGenerator.segments
                   (TerrainGenerator.update exampleHost t (ofZ 2) (ofZ 14))) = true)
    by (vm_compute; reflexivity).
  rewrite forallb_forall in F. specialize (F _ Hin).
  vm_compute in F. discriminate F.
Qed.

(** C4, amended. One call of [TerrainGenerator.update(scrollSpeed,
    worldDistance)] moves every segment left by [scrollSpeed] (nothing
    else of a segment changes), keeps, in order, exactly the moved
    segments with [x + width > -10] (so it evicts those with
    [x + width <= -10]), and then appends one new segment, at the last
    kept segment's [x] plus the segment width, if and only if there is a
    last kept segment and its [x] is below [canvasWidth + 50]; it never
    appends more than one. *)
Theorem TerrainGenerator_update_step {N : JSNumber} (host : Host)
        (g : TerrainGenerator.t) (scrollSpeed worldDistance : num) :
  let moved := map (fun s => TerrainSegment.update s scrollSpeed)
                   (TerrainGenerator.segments g) in
  let kept := filter (fun s => gtb (add (TerrainSegment.x s) (TerrainSegment.width s))
                                   (ofZ (-10))) moved in
  let g' := TerrainGenerator.update host g scrollSpeed worldDistance in
  let fresh l :=
    TerrainGenerator.createSegment host g
      (add (TerrainSegment.x l) (TerrainGenerator.segmentWidth g))
      (add worldDistance (add (TerrainSegment.x l) (TerrainGenerator.segmentWidth g))) in
  (forall s, TerrainSegment.update s scrollSpeed =
             TerrainSegment.mk (sub (TerrainSegment.x s) scrollSpeed)
                               (TerrainSegment.topHeight s)
                               (TerrainSegment.bottomHeight s)
                               (TerrainSegment.width s)) /\
  (forall s, In s kept <->
             In s moved /\
             gtb (add (TerrainSegment.x s) (TerrainSegment.width s)) (ofZ (-10)) = true) /\
  (forall s, In s moved -> ~ In s kept <->
             gtb (add (TerrainSegment.x s) (TerrainSegment.width s)) (ofZ (-10)) = false) /\
  (TerrainGenerator.segments g' = kept \/
   exists l, TerrainGenerator.segments g' = kept ++ [fresh l]) /\
  ((exists l, lastOf kept = Some l /\
              ltb (TerrainSegment.x l)
                  (add (TerrainGenerator.canvasWidth g) (ofZ 50)) = true) <->
   (exists l, lastOf kept = Some l /\
              TerrainGenerator.segments g' = kept ++ [fresh l])) /\
  (~ (exists l, lastOf kept = Some l /\
                ltb (TerrainSegment.x l)
                    (add (TerrainGenerator.canvasWidth g) (ofZ 50)) = true) ->
   TerrainGenerator.segments g' = kept) /\
  (forall l, TerrainSegment.x (fresh l) =
             add (TerrainSegment.x l) (TerrainGenerator.segmentWidth g)) /\
  (List.length (TerrainGenerator.segments g') <= S (List.length kept))%nat.
Proof.
  cbv zeta.
  set (moved := map _ (TerrainGenerator.segments g)).
  set (kept := filter _ moved).
  split; [reflexivity|].
  split; [intros s; apply filter_In|].
  split.
  { intros s Hin. unfold kept. rewrite filter_In. split.
    - intros Hn. destruct (gtb _ _) eqn:E; [|reflexivity].
      exfalso. apply Hn. split; [exact Hin | reflexivity].
    - intros E [_ E']. congruence. }
  unfold TerrainGenerator.update. fold moved. fold kept.
  assert (Hneq : forall (l : list TerrainSegment.t) a, l <> l ++ [a]).
  { intros l a E. apply (f_equal (@List.length _)) in E.
    rewrite length_app in E. simpl in E. lia. }
  destruct (lastOf kept) as [l|] eqn:El.
  - destruct (ltb (TerrainSegment.x l) _) eqn:Ex;
      cbn [TerrainGenerator.segments TerrainGenerator.with_segments].
    + split; [right; exists l; reflexivity|].
      split; [split; intros _; exists l; split; reflexivity || exact Ex|].
      split; [intros Hn; exfalso; apply Hn; exists l; split;
              reflexivity || exact Ex|].
      split; [reflexivity|].
      rewrite length_app. simpl. lia.
    + split; [left; reflexivity|].
      split.
      { split.
        - intros (l' & [= <-] & E). congruence.
        - intros (l' & _ & E). exfalso. exact (Hneq _ _ E). }
      split; [reflexivity|]. split; [reflexivity|]. lia.
  - cbn [TerrainGenerator.segments TerrainGenerator.with_segments].
    split; [left; reflexivity|].
    split.
    { split; intros (l' & E & _); discriminate E. }
    split; [reflexivity|]. split; [reflexivity|]. lia.
Qed.

(** C4 on the second-stage terrain after six frames: the seventh update
    evicts the leftmost segment, whose [x + width] is then [-10], not
    above [-10]; and it appends one segment, as the last one is on
    screen. *)
Lemma TerrainGenerator_update_witness :
  let t := scrollTerrain 6 stageTwoTerrain (ofZ 0) in
  let moved := map (fun s => TerrainSegment.update s (ofZ 2))
                   (TerrainGenerator.segments t) in
  let kept := filter (fun s => gtb (add (TerrainSegment.x s) (TerrainSegment.width s))
                                   (ofZ (-10))) moved in
  let leftmost := nth 0 moved (TerrainSegment.mk (ofZ 0) (ofZ 0) (ofZ 0) (ofZ 0)) in
  ~ In leftmost kept /\
  (List.length (TerrainGenerator.segments
                  (TerrainGenerator.update exampleHost t (ofZ 2) (ofZ 14)))
   <= S (List.length kept))%nat.
Proof.
  cbv zeta.
  set (t := scrollTerrain 6 stageTwoTerrain (ofZ 0)).
  destruct (TerrainGenerator_update_step exampleHost t (ofZ 2) (ofZ 14))
    as (_ & _ & Hevict & _ & _ & _ & _ & Hlen).
  split; [|exact Hlen].
  apply Hevict.
  - apply nth_In. vm_compute. lia.
  - vm_compute. reflexivity.
Defined.

(** ** Spawning *)

Section SpawnLemmas.
Context {N : JSNumber} (host : Host).

Lemma spawnEnemy_cases (m : SpawnManager.t) (terrain : TerrainGenerator.t) (n : nat) :
  let type := arrayGet (Stage.enemyTypes (SpawnManager.config m))
                (floorZ (mul (Math_random host n)
                             (ofZ (Z.of_nat (List.length
                                (Stage.enemyTypes (SpawnManager.config m))))))) in
  match type, SpawnManager.lookupType ENEMY_TYPES type with
  | Some key, Some config =>
      let minY := spawnMinY terrain in
      let maxY := spawnMaxY terrain (EnemyConfig.height config) in
      if leb maxY minY then
        SpawnManager.spawnEnemy host m terrain n = (None, S n)
      else
        exists e,
          SpawnManager.spawnEnemy host m terrain n = (Some e, S (S (S n))) /\
          Enemy.x e = add (SpawnManager.canvasWidth m) (ofZ 50) /\
          Enemy.y e = add minY (mul (Math_random host (S n)) (sub maxY minY)) /\
          Entity.width (Enemy.base e) = EnemyConfig.width config /\
          Entity.height (Enemy.base e) = EnemyConfig.height config /\
          Enemy.active e = true
  | _, _ => SpawnManager.spawnEnemy host m terrain n = (None, S n)
  end.
Proof.
  cbv zeta. unfold SpawnManager.spawnEnemy, SpawnManager.pickType, bind, random, ret.
  destruct (arrayGet _ _) as [key|]; [|reflexivity].
  cbn [SpawnManager.lookupType].
  destruct (ENEMY_TYPES key) as [config|]; [|reflexivity].
  fold (spawnMinY terrain). fold (spawnMaxY terrain (EnemyConfig.height config)).
  destruct (leb _ _); [reflexivity|].
  unfold Enemy.new, bind, random, ret.
  eexists. split; [reflexivity|]. repeat split.
Qed.
End SpawnLemmas.




(** The same spawn on doubles, at the two ends of what [Math.random] can
    return: [0] and [1 - 2^-53]. *)
Lemma spawnEnemy_binary64_extreme_draws :
  placedInRange (N := binary64) (hostDrawing (ofZ 0))
    (Game.spawnManager exampleGame) (Game.terrain exampleGame) O = true /\
  placedInRange (N := binary64)
    (hostDrawing (N := binary64) (S754_finite false 9007199254740991 (-53)))
    (Game.spawnManager exampleGame) (Game.terrain exampleGame) O = true.
Proof. split; vm_compute; reflexivity. Qed.

(** * Further properties

    Properties of the code beyond the specification: cool-downs and
    timers, the passes of a frame, the state machine, the score, exact
    trajectories and the hex codec. *)

(** ** Cool-downs and the invincibility window *)

Section PlayerClocks.
Context {N : JSNumber}.

Lemma Player_move_clocks (p : Player.t) input topBound bottomBound :
  let p' := Player.move p input topBound bottomBound in
  clocks p' = clocks p /\ build p' = build p.
Proof.
  pose (obs := fun q : Player.t => (clocks q, build q)).
  assert (Hy : forall (c : bool) q v, obs (if c then Player.with_y q v else q) = obs q)
    by (intros [] q v; reflexivity).
  assert (Hx : forall (c : bool) q v, obs (if c then Player.with_x q v else q) = obs q)
    by (intros [] q v; reflexivity).
  assert (H : obs (Player.move p input topBound bottomBound) = obs p).
  { unfold Player.move. rewrite Hx, Hx, Hy, Hy. reflexivity. }
  unfold obs in H. apply pair_equal_spec in H. exact H.
Qed.

Lemma Player_coolDown_clocks (p : Player.t) :
  let p' := Player.coolDown p in
  clocks p' =
    (coolStep (Player.shootCooldown p), Player.shootCooldownMax p,
     coolStep (Player.bombCooldown p), Player.bombCooldownMax p,
     Player.isInvincible p, Player.invincibleTimer p,
     Player.invincibleDuration p) /\
  build p' = build p.
Proof.
  unfold Player.coolDown, coolStep.
  destruct (Player.shootCooldown p >? 0)%Z;
    match goal with |- context [if ?c then _ else _] => destruct c eqn:E end;
    cbn in *; rewrite ?E; split; reflexivity.
Qed.

Lemma Player_tickInvincibility_clocks (p : Player.t) :
  let p' := Player.tickInvincibility p in
  clocks p' =
    (Player.shootCooldown p, Player.shootCooldownMax p,
     Player.bombCooldown p, Player.bombCooldownMax p,
     Player.isInvincible p && negb (Player.invincibleTimer p - 1 <=? 0),
     (if Player.isInvincible p then Player.invincibleTimer p - 1
      else Player.invincibleTimer p),
     Player.invincibleDuration p) /\
  build p' = build p.
Proof.
  unfold Player.tickInvincibility.
  destruct (Player.isInvincible p) eqn:I;
    [|unfold clocks; rewrite I; split; reflexivity].
  cbn. destruct (_ <=? 0); unfold clocks; cbn; rewrite ?I; split; reflexivity.
Qed.

Lemma Player_drainFuel_clocks (p : Player.t) :
  let p' := Player.drainFuel p in
  clocks p' = clocks p /\ build p' = build p.
Proof.
  unfold Player.drainFuel. cbn.
  destruct (leb _ _); cbn; split; reflexivity.
Qed.

(** The timers after one [Player.update]. *)
Lemma Player_update_clocks (p : Player.t) input topBound bottomBound :
  let p' := Player.update p input topBound bottomBound in
  clocks p' =
    (coolStep (Player.shootCooldown p), Player.shootCooldownMax p,
     coolStep (Player.bombCooldown p), Player.bombCooldownMax p,
     Player.isInvincible p && negb (Player.invincibleTimer p - 1 <=? 0),
     (if Player.isInvincible p then Player.invincibleTimer p - 1
      else Player.invincibleTimer p),
     Player.invincibleDuration p) /\
  build p' = build p.
Proof.
  unfold Player.update. cbv zeta.
  destruct (Player_move_clocks p input topBound bottomBound) as (M & Mb).
  set (p1 := Player.move p input topBound bottomBound) in *.
  destruct (Player_coolDown_clocks p1) as (C & Cb).
  set (p2 := Player.coolDown p1) in *.
  destruct (Player_tickInvincibility_clocks p2) as (T & Tb).
  set (p3 := Player.tickInvincibility p2) in *.
  destruct (Player_drainFuel_clocks p3) as (D & Db).
  cbv zeta in *.
  split; [|congruence].
  rewrite D, T.
  unfold clocks in M, C.
  injection C as C1 C2 C3 C4 C5 C6 C7.
  injection M as M1 M2 M3 M4 M5 M6 M7.
  rewrite C1, C2, C3, C4, C5, C6, C7, M1, M2, M3, M4, M5, M6, M7.
  reflexivity.
Qed.

Lemma iterate_coolStep (k : nat) (c : Z) :
  0 <= c -> iterate k coolStep c = Z.max 0 (c - Z.of_nat k).
Proof.
  revert c. induction k as [|k IH]; intros c Hc; simpl iterate.
  - lia.
  - unfold coolStep at 2. destruct (c >? 0) eqn:E.
    + rewrite IH by lia. lia.
    + rewrite IH by lia. lia.
Qed.

Lemma runPlayer_cooldowns (frames : list (Input.t * num * num)) (p : Player.t) :
  Player.shootCooldown (runPlayer p frames)
    = iterate (List.length frames) coolStep (Player.shootCooldown p) /\
  Player.bombCooldown (runPlayer p frames)
    = iterate (List.length frames) coolStep (Player.bombCooldown p).
Proof.
  revert p. induction frames as [|[[i t] b] rest IH]; intros p; simpl.
  - split; reflexivity.
  - destruct (Player_update_clocks p i t b) as (C & _).
    unfold clocks in C. injection C as C1 _ C3 _ _ _ _.
    destruct (IH (Player.update p i t b)) as (-> & ->).
    rewrite C1, C3. split; reflexivity.
Qed.
End PlayerClocks.

(** X1. Fire rate of the cannon. After a shot that went off, [shoot()]
    returns [null] on each of the next [shootCooldownMax] frames and a
    bullet again from then on: the next shot is possible exactly when at
    least [shootCooldownMax] calls of [update] lie in between. *)
Theorem shoot_rate_limit {N : JSNumber} (p : Player.t)
        (frames : list (Input.t * num * num)) :
  fst (Player.shoot p) <> None ->
  0 <= Player.shootCooldownMax p ->
  fst (Player.shoot (runPlayer (snd (Player.shoot p)) frames)) = None <->
  Z.of_nat (List.length frames) < Player.shootCooldownMax p.
Proof.
  intros Hshot Hmax.
  destruct (runPlayer_cooldowns frames (snd (Player.shoot p))) as (Hc & _).
  assert (H1 : Player.shootCooldown (snd (Player.shoot p)) = Player.shootCooldownMax p).
  { unfold Player.shoot in *. destruct (Player.shootCooldown p >? 0).
    - exfalso. apply Hshot. reflexivity.
    - reflexivity. }
  rewrite H1, iterate_coolStep in Hc by exact Hmax.
  unfold Player.shoot at 1. rewrite Hc.
  destruct (Z.max 0 _ >? 0) eqn:E; cbn [fst].
  - split; [intros _|reflexivity]. lia.
  - split; [discriminate|]. lia.
Qed.

Ltac js_eval :=
  cbv -[binary64 exactQ ofZ dec add sub mul div ltb leb gtb geb Math_max Math_min
        floorZ ceilZ
        truthy Z.lt Z.le].

Lemma shoot_rate_limit_witness :
  let p := Player.new (N := binary64) (ofZ 800) (ofZ 600) in
  fst (Player.shoot (runPlayer (snd (Player.shoot p)) (idleFrames 9))) = None /\
  fst (Player.shoot (runPlayer (snd (Player.shoot p)) (idleFrames 10))) <> None.
Proof.
  cbv zeta.
  set (p := Player.new (N := binary64) (ofZ 800) (ofZ 600)).
  assert (Hshot : fst (Player.shoot p) <> None) by (js_eval; discriminate).
  assert (Hmax : 0 <= Player.shootCooldownMax p) by (js_eval; lia).
  split.
  - apply (shoot_rate_limit p (idleFrames 9) Hshot Hmax). js_eval. lia.
  - intros E. apply (shoot_rate_limit p (idleFrames 10) Hshot Hmax) in E.
    revert E. js_eval. lia.
Defined.

(** X2. Drop rate of bombs: the same for [bomb()] and [bombCooldownMax]. *)
Theorem bomb_rate_limit {N : JSNumber} (p : Player.t)
        (frames : list (Input.t * num * num)) :
  fst (Player.bomb p) <> None ->
  0 <= Player.bombCooldownMax p ->
  fst (Player.bomb (runPlayer (snd (Player.bomb p)) frames)) = None <->
  Z.of_nat (List.length frames) < Player.bombCooldownMax p.
Proof.
  intros Hshot Hmax.
  destruct (runPlayer_cooldowns frames (snd (Player.bomb p))) as (_ & Hc).
  assert (H1 : Player.bombCooldown (snd (Player.bomb p)) = Player.bombCooldownMax p).
  { unfold Player.bomb in *. destruct (Player.bombCooldown p >? 0).
    - exfalso. apply Hshot. reflexivity.
    - reflexivity. }
  rewrite H1, iterate_coolStep in Hc by exact Hmax.
  unfold Player.bomb at 1. rewrite Hc.
  destruct (Z.max 0 _ >? 0) eqn:E; cbn [fst].
  - split; [intros _|reflexivity]. lia.
  - split; [discriminate|]. lia.
Qed.

Lemma bomb_rate_limit_witness :
  let p := Player.new (N := binary64) (ofZ 800) (ofZ 600) in
  fst (Player.bomb (runPlayer (snd (Player.bomb p)) (idleFrames 29))) = None /\
  fst (Player.bomb (runPlayer (snd (Player.bomb p)) (idleFrames 30))) <> None.
Proof.
  cbv zeta.
  set (p := Player.new (N := binary64) (ofZ 800) (ofZ 600)).
  assert (Hshot : fst (Player.bomb p) <> None) by (js_eval; discriminate).
  assert (Hmax : 0 <= Player.bombCooldownMax p) by (js_eval; lia).
  split.
  - apply (bomb_rate_limit p (idleFrames 29) Hshot Hmax). js_eval. lia.
  - intros E. apply (bomb_rate_limit p (idleFrames 30) Hshot Hmax) in E.
    revert E. js_eval. lia.
Defined.

Section PlayerWindow.
Context {N : JSNumber}.

Lemma runPlayer_vulnerable (frames : list (Input.t * num * num)) (p : Player.t) :
  Player.isInvincible p = false ->
  Player.isInvincible (runPlayer p frames) = false.
Proof.
  revert p. induction frames as [|[[i t] b] rest IH]; intros p Hp; simpl.
  - exact Hp.
  - apply IH. destruct (Player_update_clocks p i t b) as (C & _).
    unfold clocks in C. injection C as _ _ _ _ C _ _.
    rewrite C, Hp. reflexivity.
Qed.

Lemma runPlayer_invincible (frames : list (Input.t * num * num)) (p : Player.t) :
  Player.isInvincible p = true -> 1 <= Player.invincibleTimer p ->
  Player.isInvincible (runPlayer p frames) = true <->
  Z.of_nat (List.length frames) < Player.invincibleTimer p.
Proof.
  revert p. induction frames as [|[[i t] b] rest IH]; intros p Hp Ht.
  - simpl. split; [lia | intros _; exact Hp].
  - cbn [runPlayer List.length].
    destruct (Player_update_clocks p i t b) as (C & _).
    unfold clocks in C. injection C as _ _ _ _ C5 C6 _.
    rewrite Hp in C5, C6. cbn [andb] in C5.
    destruct (Player.invincibleTimer p - 1 <=? 0) eqn:E.
    + cbn in C5. rewrite (runPlayer_vulnerable rest _ C5).
      apply Z.leb_le in E. split; [discriminate | lia].
    + cbn in C5. apply Z.leb_gt in E.
      rewrite (IH _ C5) by lia. rewrite C6. lia.
Qed.

Lemma callPlayer_build (p : Player.t) (c : PlayerCall) :
  build (callPlayer p c) = build p.
Proof.
  destruct c as [i t b| | | |a]; cbn [callPlayer].
  - apply Player_update_clocks.
  - unfold Player.shoot. destruct (_ >? 0); reflexivity.
  - unfold Player.bomb. destruct (_ >? 0); reflexivity.
  - unfold Player.hit. destruct (Player.isInvincible p); reflexivity.
  - reflexivity.
Qed.

Lemma playPlayer_build (calls : list PlayerCall) (p : Player.t) :
  build (playPlayer p calls) = build p.
Proof.
  revert p. induction calls as [|c rest IH]; intros p.
  - reflexivity.
  - change (playPlayer p (c :: rest)) with (playPlayer (callPlayer p c) rest).
    rewrite IH. apply callPlayer_build.
Qed.

Lemma reset_of_build (p : Player.t) (cw ch cw' : num) :
  build p = build (Player.new cw ch) ->
  Player.reset p cw' ch = Player.new cw ch.
Proof.
  destruct p as [[x y w h a] sp l sc scm bc bcm inv it idur pcw pch f mf r].
  unfold build, Player.new. cbn. intros E.
  injection E as -> -> -> -> -> -> -> -> -> -> ->.
  reflexivity.
Qed.
End PlayerWindow.

(** X3. The invincibility window. A hit that counts takes one life and
    makes the player invincible for exactly [invincibleDuration] frames:
    after fewer calls of [update] the flag is still set and a further
    [hit()] does not count; after that many or more, it is clear again and
    the next hit counts. *)
Theorem invincibility_window {N : JSNumber} (p : Player.t)
        (frames : list (Input.t * num * num)) :
  Player.isInvincible p = false ->
  1 <= Player.invincibleDuration p ->
  let p1 := snd (Player.hit p) in
  fst (Player.hit p) = true /\
  Player.lives p1 = Player.lives p - 1 /\
  (Player.isInvincible (runPlayer p1 frames) = true <->
   Z.of_nat (List.length frames) < Player.invincibleDuration p) /\
  (fst (Player.hit (runPlayer p1 frames)) = false <->
   Z.of_nat (List.length frames) < Player.invincibleDuration p).
Proof.
  intros Hv Hd. cbv zeta.
  assert (Hhit : Player.hit p =
                 (true, Player.with_invincibleTimer
                          (Player.with_isInvincible
                             (Player.with_lives p (Player.lives p - 1)) true)
                          (Player.invincibleDuration p))).
  { unfold Player.hit. rewrite Hv. reflexivity. }
  rewrite Hhit. cbn [fst snd].
  set (p1 := Player.with_invincibleTimer _ _).
  assert (W : Player.isInvincible (runPlayer p1 frames) = true <->
              Z.of_nat (List.length frames) < Player.invincibleDuration p).
  { apply (runPlayer_invincible frames p1); [reflexivity | exact Hd]. }
  split; [reflexivity|]. split; [reflexivity|]. split; [exact W|].
  rewrite <- W. unfold Player.hit.
  destruct (Player.isInvincible (runPlayer p1 frames)); cbn [fst];
    split; congruence.
Qed.

Lemma invincibility_window_witness :
  let p1 := snd (Player.hit (Player.new (N := binary64) (ofZ 800) (ofZ 600))) in
  Player.lives p1 = 2 /\
  Player.isInvincible (runPlayer p1 (idleFrames 119)) = true /\
  Player.isInvincible (runPlayer p1 (idleFrames 120)) <> true.
Proof.
  cbv zeta.
  set (p := Player.new (N := binary64) (ofZ 800) (ofZ 600)).
  assert (Hv : Player.isInvincible p = false) by reflexivity.
  assert (Hd : 1 <= Player.invincibleDuration p) by (js_eval; lia).
  split; [|split].
  - destruct (invincibility_window p [] Hv Hd) as (_ & L & _). exact L.
  - destruct (invincibility_window p (idleFrames 119) Hv Hd) as (_ & _ & W & _).
    apply W. js_eval. lia.
  - destruct (invincibility_window p (idleFrames 120) Hv Hd) as (_ & _ & W & _).
    intros E. apply W in E. revert E. js_eval. lia.
Defined.

(** X4. [reset()] undoes play. Whatever calls of [update], [shoot], [bomb],
    [hit] and [addFuel] a player has been through since its constructor,
    [reset(canvasWidth, canvasHeight)] with the constructor's canvas
    height makes it the constructor's player again; the [canvasWidth]
    passed to [reset] is not looked at. *)
Theorem reset_restores_new {N : JSNumber} (cw ch cw' : num)
        (calls : list PlayerCall) :
  Player.reset (playPlayer (Player.new cw ch) calls) cw' ch = Player.new cw ch.
Proof.
  apply reset_of_build. apply playPlayer_build.
Qed.

(** Order facts of doubles. *)
Lemma SFcompare_refl (a : spec_float) :
  SFcompare a a = Some Eq \/ SFcompare a a = None.
Proof.
  destruct a as [s|s| |s m e]; simpl.
  - left; reflexivity.
  - left; destruct s; reflexivity.
  - right; reflexivity.
  - left. destruct s; rewrite Z.compare_refl;
      change (Pos.compare_cont Eq m m) with (Pos.compare m m);
      rewrite Pos.compare_refl; reflexivity.
Qed.

Lemma binary64_leb_false_ltb (a b : @num binary64) :
  leb a b = false -> ltb a b = false.
Proof.
  change (B64.leb a b = false -> B64.ltb a b = false).
  unfold B64.leb, B64.ltb. destruct (SFcompare a b) as [[]|]; congruence.
Qed.

Lemma B64_gtb_refl (a : spec_float) : B64.gtb a a = false.
Proof.
  unfold B64.gtb. destruct (SFcompare_refl a) as [-> | ->]; reflexivity.
Qed.

Lemma binary64_min_le (a b : @num binary64) : gtb (Math_min a b) a = false.
Proof.
  change (B64.gtb (B64.Math_min a b) a = false).
  unfold B64.Math_min.
  destruct (SFcompare a b) as [[]|] eqn:E.
  - destruct a as [[]|?| |? ? ?]; try apply B64_gtb_refl;
      rewrite B64.gtb_ltb; unfold B64.ltb; rewrite E; reflexivity.
  - apply B64_gtb_refl.
  - rewrite B64.gtb_ltb. unfold B64.ltb. rewrite E. reflexivity.
  - reflexivity.
Qed.

Lemma binary64_max_ge (a b : @num binary64) :
  ltb b b = false -> ltb (Math_max a b) b = false.
Proof.
  change (B64.ltb b b = false -> B64.ltb (B64.Math_max a b) b = false).
  intros Hb. unfold B64.Math_max.
  destruct (SFcompare a b) as [[]|] eqn:E.
  - destruct a as [[]|?| |? ? ?]; try exact Hb;
      unfold B64.ltb; rewrite E; reflexivity.
  - exact Hb.
  - unfold B64.ltb. rewrite E. reflexivity.
  - reflexivity.
Qed.

Lemma playerCrash_survivor {N : JSNumber} (host : Host) (g : Game.t) (n : nat) :
  let p' := Game.player (fst (Game.playerCrash host g n)) in
  0 < Player.lives p' ->
  Player.fuel p' = Math_max (Player.fuel (Game.player g)) (ofZ 30).
Proof.
  cbv zeta. unfold Game.playerCrash, bind.
  destruct (Game.explode host g _ _ _ 20 n) as [g1 n1] eqn:E.
  apply explode_eq in E. destruct E as (Hp & _).
  game_cbn. cbn [Player.lives Player.with_lives].
  destruct (_ <=? 0) eqn:L; cbn [fst ret].
  - match goal with
    | |- context [Game.setState ?a ?b] =>
        destruct (setState_frame a b) as (-> & _)
    end.
    game_cbn. cbn [Player.lives Player.with_lives]. apply Z.leb_le in L. lia.
  - intros _. game_cbn. rewrite Hp. reflexivity.
Qed.

(** X5. The fuel gauge in doubles. In the arithmetic the program runs on:
    after [Player.update] the fuel is never below 0; after [addFuel] it is
    never above [maxFuel]; after a crash that leaves a life it is never
    below 30. (A NaN compares neither way.) *)
Theorem fuel_gauge_binary64 (host : @Host binary64) :
  (forall (p : @Player.t binary64) input topBound bottomBound,
     ltb (Player.fuel (Player.update p input topBound bottomBound)) (ofZ 0) = false) /\
  (forall (p : @Player.t binary64) amount,
     gtb (Player.fuel (Player.addFuel p amount)) (Player.maxFuel p) = false) /\
  (forall (g : @Game.t binary64) n,
     let p' := Game.player (fst (Game.playerCrash host g n)) in
     0 < Player.lives p' -> ltb (Player.fuel p') (ofZ 30) = false).
Proof.
  split; [|split].
  - intros p input topBound bottomBound.
    destruct (Player_update_frame p input topBound bottomBound) as (_ & _ & _ & ->).
    unfold fuelStep. cbv zeta.
    destruct (leb _ (ofZ 0)) eqn:E.
    + vm_compute. reflexivity.
    + apply binary64_leb_false_ltb. exact E.
  - intros p amount. cbn [Player.addFuel Player.fuel Player.with_fuel].
    apply binary64_min_le.
  - intros g n p' Hl. subst p'.
    rewrite (playerCrash_survivor host g n Hl).
    apply binary64_max_ge. vm_compute. reflexivity.
Qed.

(** ** Enemies and explosions *)

Lemma damaged_health {N : JSNumber} (e : Enemy.t) (amount : Z) (k : nat) :
  Enemy.health (damaged e amount k) = Enemy.health e - Z.of_nat k * amount.
Proof.
  unfold damaged. revert e. induction k as [|k IH]; intros e.
  - simpl. lia.
  - cbn [iterate]. rewrite IH.
    assert (H : Enemy.health (snd (Enemy.takeDamage e amount))
                = Enemy.health e - amount).
    { unfold Enemy.takeDamage. cbv zeta. destruct (_ <=? 0); reflexivity. }
    rewrite H, Nat2Z.inj_succ. lia.
Qed.

(** X6. Hit points. The [k+1]-th call of [takeDamage(amount)] reports the
    enemy destroyed exactly when the damage dealt so far, this hit
    included, has used up its health; the enemy it leaves is then
    inactive. With the damage 1 of every bullet, an enemy of health [h]
    falls to the [h]-th bullet and to none before. *)
Theorem takeDamage_counts_hits {N : JSNumber} (e : Enemy.t) (amount : Z) (k : nat) :
  let hit := Enemy.takeDamage (damaged e amount k) amount in
  (fst hit = true <-> Enemy.health e <= (Z.of_nat k + 1) * amount) /\
  (fst hit = true -> Enemy.active (snd hit) = false) /\
  (fst hit = false -> Enemy.active (snd hit) = Enemy.active (damaged e amount k)) /\
  Enemy.health (snd hit) = Enemy.health e - (Z.of_nat k + 1) * amount /\
  Enemy.base (snd hit) =
    Entity.with_active (Enemy.base (damaged e amount k)) (Enemy.active (snd hit)).
Proof.
  cbv zeta. pose proof (damaged_health e amount k) as H.
  set (d := damaged e amount k) in *.
  unfold Enemy.takeDamage. cbv zeta.
  cbn [Enemy.health Enemy.with_health].
  destruct (Enemy.health d - amount <=? 0) eqn:E; cbn [fst snd].
  - apply Z.leb_le in E. split; [split; [lia|reflexivity]|].
    split; [reflexivity|]. split; [discriminate|].
    split; [cbn; lia|]. reflexivity.
  - apply Z.leb_gt in E. split; [split; [discriminate|lia]|].
    split; [discriminate|]. split; [reflexivity|].
    split; [cbn; lia|].
    cbn. destruct d as [[x y w h a] ? ? ? ? ? ? ? ? ? ? ? ? ? ?]. reflexivity.
Qed.

Section EnemyFlight.
Context {N : JSNumber} (host : Host).

Lemma Enemy_update_anim (e : Enemy.t) (scrollSpeed : num) :
  let e' := Enemy.update host e scrollSpeed in
  (Enemy.animFrame e', Enemy.animTimer e') =
    (if Enemy.animTimer e + 1 >? 15 then (1 - Enemy.animFrame e, 0)
     else (Enemy.animFrame e, Enemy.animTimer e + 1)) /\
  Enemy.health e' = Enemy.health e /\ Enemy.points e' = Enemy.points e /\
  (Enemy.active e = false -> Enemy.active e' = false).
Proof.
  unfold Enemy.update. cbv zeta.
  set (e1 := Enemy.with_x e _).
  set (e2 := match Enemy.behavior e1 with
             | straight => e1 | wave => _ | dive => _ | chase => e1 end).
  assert (H2 : Enemy.animFrame e2 = Enemy.animFrame e /\
               Enemy.animTimer e2 = Enemy.animTimer e /\
               Enemy.health e2 = Enemy.health e /\
               Enemy.points e2 = Enemy.points e /\
               Enemy.active e2 = Enemy.active e).
  { subst e2. destruct (Enemy.behavior e1); repeat split. }
  clearbody e2. destruct H2 as (F & T & Hh & Hp & Ha).
  cbn [Enemy.animTimer Enemy.with_anim Enemy.animFrame].
  rewrite F, T.
  destruct (Enemy.animTimer e + 1 >? 15);
    match goal with |- context [if ?c then _ else _] => destruct c end;
    cbn; rewrite ?F, ?T, ?Hh, ?Hp; repeat split; try congruence;
    intros Hi; unfold Enemy.active in *; cbn; congruence.
Qed.

Lemma flown_anim (e : Enemy.t) (scrollSpeed : num) (k : nat) :
  0 <= Enemy.animTimer e <= 15 ->
  Enemy.animTimer (flown host e scrollSpeed k)
    = (Enemy.animTimer e + Z.of_nat k) mod 16 /\
  Enemy.animFrame (flown host e scrollSpeed k)
    = (if Z.even ((Enemy.animTimer e + Z.of_nat k) / 16)
       then Enemy.animFrame e else 1 - Enemy.animFrame e).
Proof.
  unfold flown. revert e. induction k as [|k IH]; intros e Ht.
  - cbn [iterate]. rewrite Z.add_0_r, Z.mod_small, Z.div_small by lia.
    split; reflexivity.
  - cbn [iterate].
    destruct (Enemy_update_anim e scrollSpeed) as (A & _).
    cbv zeta in A.
    set (e' := Enemy.update host e scrollSpeed) in *.
    destruct (Enemy.animTimer e + 1 >? 15) eqn:E;
      apply pair_equal_spec in A; destruct A as [AF AT].
    + assert (Et : Enemy.animTimer e = 15) by lia.
      destruct (IH e') as (-> & ->); [lia|].
      rewrite AT, AF, Et.
      replace (15 + Z.of_nat (S k)) with (Z.of_nat k + 1 * 16) by lia.
      rewrite Z.add_0_l, Z.mod_add, Z.div_add by lia.
      split; [reflexivity|].
      rewrite Z.even_add.
      destruct (Z.even (Z.of_nat k / 16)); cbn [Z.even Bool.eqb]; lia.
    + destruct (IH e') as (-> & ->); [lia|].
      rewrite AT, AF.
      replace (Enemy.animTimer e + 1 + Z.of_nat k)
        with (Enemy.animTimer e + Z.of_nat (S k)) by lia.
      split; reflexivity.
Qed.
End EnemyFlight.

(** X7. The animation clock of an enemy. Started within its range,
    [animTimer] counts the calls of [update] modulo 16 and [animFrame]
    flips between its two values each time the timer wraps: after [k]
    updates they are [(t + k) mod 16] and the frame flipped
    [(t + k) / 16] times. *)
Theorem Enemy_animation_clock {N : JSNumber} (host : Host) (e : Enemy.t)
        (scrollSpeed : num) (k : nat) :
  0 <= Enemy.animTimer e <= 15 ->
  let e' := flown host e scrollSpeed k in
  Enemy.animTimer e' = (Enemy.animTimer e + Z.of_nat k) mod 16 /\
  0 <= Enemy.animTimer e' <= 15 /\
  Enemy.animFrame e' = (if Z.even ((Enemy.animTimer e + Z.of_nat k) / 16)
                        then Enemy.animFrame e else 1 - Enemy.animFrame e) /\
  (Enemy.animFrame e = 0 \/ Enemy.animFrame e = 1 ->
   Enemy.animFrame e' = 0 \/ Enemy.animFrame e' = 1).
Proof.
  intros Ht. cbv zeta.
  destruct (flown_anim host e scrollSpeed k Ht) as (T & F).
  rewrite T, F. split; [reflexivity|].
  split; [pose proof (Z.mod_pos_bound (Enemy.animTimer e + Z.of_nat k) 16); lia|].
  split; [reflexivity|].
  destruct (Z.even _); lia.
Qed.

Section ExplosionCount.
Context {N : JSNumber} (host : Host).

Lemma createExplosion_spec (x y : num) (color : string) (count n : nat) :
  let '(ps, n') := createExplosion host x y color count n in
  List.length ps = count /\ n' = (n + 4 * count)%nat /\
  Forall (fun p => Particle.x p = x /\ Particle.y p = y /\
                   Particle.color p = color /\ Particle.active p = true /\
                   Particle.maxLife p = Particle.life p) ps.
Proof.
  revert n. induction count as [|k IH]; intros n.
  - cbn. repeat split; [lia | constructor].
  - cbn [createExplosion]. unfold bind at 1.
    unfold Particle.new at 1. unfold bind, random, ret.
    specialize (IH (S (S (S (S n))))).
    destruct (createExplosion host x y color k (S (S (S (S n))))) as [ps n'].
    destruct IH as (L & Hn & F).
    cbn [List.length]. split; [lia|]. split; [lia|].
    constructor; [|exact F]. cbn. repeat split.
Qed.
End ExplosionCount.

(** X8. [createExplosion(x, y, color, count)] returns exactly [count]
    particles, draws exactly four random numbers for each, and every
    particle starts at [(x, y)] in the given colour, active and at full
    life. *)
Theorem createExplosion_count {N : JSNumber} (host : Host) (x y : num)
        (color : string) (count n : nat) :
  let ps := fst (createExplosion host x y color count n) in
  List.length ps = count /\
  snd (createExplosion host x y color count n) = (n + 4 * count)%nat /\
  (forall p, In p ps ->
     Particle.x p = x /\ Particle.y p = y /\ Particle.color p = color /\
     Particle.active p = true /\ Particle.maxLife p = Particle.life p).
Proof.
  cbv zeta. pose proof (createExplosion_spec host x y color count n) as H.
  destruct (createExplosion host x y color count n) as [ps n'].
  destruct H as (L & Hn & F). cbn [fst snd].
  split; [exact L|]. split; [exact Hn|].
  rewrite Forall_forall in F. exact F.
Qed.

(** X9. Deactivation is final. No method of an entity sets [active] back
    to [true]: after [update] of a bullet, a bomb, an enemy, a ground
    target or a particle, and after [takeDamage] of an enemy, an entity
    that was inactive is inactive. *)
Theorem deactivation_is_final {N : JSNumber} (host : Host) :
  (forall (b : Bullet.t) cw ch,
     Bullet.active b = false -> Bullet.active (Bullet.update b cw ch) = false) /\
  (forall (b : Bomb.t) cw ch,
     Bomb.active b = false -> Bomb.active (Bomb.update b cw ch) = false) /\
  (forall (e : Enemy.t) v,
     Enemy.active e = false -> Enemy.active (Enemy.update host e v) = false) /\
  (forall (e : Enemy.t) amount,
     Enemy.active e = false ->
     Enemy.active (snd (Enemy.takeDamage e amount)) = false) /\
  (forall (t : GroundTarget.t) v,
     GroundTarget.active t = false ->
     GroundTarget.active (GroundTarget.update t v) = false) /\
  (forall (p : Particle.t),
     Particle.active p = false -> Particle.active (Particle.update p) = false).
Proof.
  split; [|split; [|split; [|split; [|split]]]].
  - intros b cw ch H. unfold Bullet.update. cbv zeta.
    match goal with |- context [if ?c then _ else _] => destruct c end;
      [reflexivity | exact H].
  - intros b cw ch H. unfold Bomb.update. cbv zeta.
    match goal with |- context [if ?c then _ else _] => destruct c end;
      [reflexivity | exact H].
  - intros e v H. apply Enemy_update_anim. exact H.
  - intros e amount H. unfold Enemy.takeDamage. cbv zeta.
    match goal with |- context [if ?c then _ else _] => destruct c end;
      [reflexivity | exact H].
  - intros t v H. unfold GroundTarget.update. cbv zeta.
    match goal with |- context [if ?c then _ else _] => destruct c end;
      [reflexivity | exact H].
  - intros p H. unfold Particle.update. cbv zeta. cbn [Particle.active].
    rewrite H. destruct (leb _ _); reflexivity.
Qed.

Lemma Enemy_animation_clock_witness :
  let e' := flown (N := binary64) exampleHost exampleFighter (ofZ 2) 16 in
  Enemy.animTimer e' = 0 /\ Enemy.animFrame e' = 1.
Proof.
  cbv zeta.
  assert (Ht : 0 <= Enemy.animTimer (N := binary64) exampleFighter <= 15)
    by (js_eval; lia).
  destruct (Enemy_animation_clock exampleHost exampleFighter (ofZ 2) 16 Ht)
    as (T & _ & F & _).
  split; [rewrite T | rewrite F]; reflexivity.
Defined.

(** ** Terrain queries, again *)

Section TerrainQueries.
Context {N : JSNumber}.

Lemma checkSegments_none (l : list TerrainSegment.t) (entity : Entity.t) (ch : num) :
  TerrainGenerator.checkSegments l entity ch = None <->
  forall s, In s l -> TerrainSegment.collidesWithEntity s entity ch = None.
Proof.
  induction l as [|a rest IH]; simpl.
  - split; [intros _ s [] | reflexivity].
  - destruct (TerrainSegment.collidesWithEntity a entity ch) eqn:E.
    + split; [discriminate|]. intros H. specialize (H a (or_introl eq_refl)).
      congruence.
    + rewrite IH. split.
      * intros H s [<- | Hin]; [exact E | apply H, Hin].
      * intros H s Hin. apply H. right. exact Hin.
Qed.

Lemma checkSegments_some (l : list TerrainSegment.t) (entity : Entity.t) (ch : num)
      (w : Wall) :
  TerrainGenerator.checkSegments l entity ch = Some w <->
  exists before s after,
    l = before ++ s :: after /\
    (forall s', In s' before -> TerrainSegment.collidesWithEntity s' entity ch = None) /\
    TerrainSegment.collidesWithEntity s entity ch = Some w.
Proof.
  induction l as [|a rest IH]; simpl.
  - split; [discriminate|]. intros (before & s & after & E & _).
    destruct before; discriminate E.
  - destruct (TerrainSegment.collidesWithEntity a entity ch) eqn:E.
    + split.
      * intros [= ->]. exists [], a, rest. repeat split; [intros s' []|exact E].
      * intros ([|b before] & s & after & El & Hb & Hs).
        -- injection El as <- _. congruence.
        -- injection El as <- _. rewrite (Hb a (or_introl eq_refl)) in E.
           discriminate E.
    + rewrite IH. split.
      * intros (before & s & after & -> & Hb & Hs).
        exists (a :: before), s, after. repeat split; [|exact Hs].
        intros s' [<- | Hin]; [exact E | apply Hb, Hin].
      * intros ([|b before] & s & after & El & Hb & Hs).
        -- injection El as <- _. congruence.
        -- injection El as <- ->. exists before, s, after.
           repeat split; [|exact Hs]. intros s' Hin. apply Hb. right. exact Hin.
Qed.
End TerrainQueries.

(** X10. Terrain collision. [checkCollision(entity)] is [false] for an
    inactive entity, whatever the terrain; it is [false] exactly when no
    segment reports a wall; otherwise it is the wall reported by the first
    segment, in list order, that reports one. A segment reports ['top']
    whenever the entity overlaps it horizontally and starts above its
    ceiling, also when the entity reaches below its floor as well. *)
Theorem checkCollision_first_wall {N : JSNumber} (g : TerrainGenerator.t)
        (entity : Entity.t) :
  let wall s := TerrainSegment.collidesWithEntity s entity
                  (TerrainGenerator.canvasHeight g) in
  (Entity.active entity = false ->
   TerrainGenerator.checkCollision g entity = None) /\
  (TerrainGenerator.checkCollision g entity = None <->
   forall s, In s (TerrainGenerator.segments g) -> wall s = None) /\
  (forall w, TerrainGenerator.checkCollision g entity = Some w <->
     exists before s after,
       TerrainGenerator.segments g = before ++ s :: after /\
       (forall s', In s' before -> wall s' = None) /\ wall s = Some w) /\
  (forall s,
     Entity.active entity = true ->
     ltb (Entity.y entity) (TerrainSegment.topHeight s) = true ->
     ltb (Entity.x entity) (add (TerrainSegment.x s) (TerrainSegment.width s)) = true ->
     gtb (add (Entity.x entity) (Entity.width entity)) (TerrainSegment.x s) = true ->
     wall s = Some top).
Proof.
  cbv zeta. unfold TerrainGenerator.checkCollision.
  split; [|split; [|split]].
  - intros Ha. apply checkSegments_none. intros s _.
    unfold TerrainSegment.collidesWithEntity. rewrite Ha. reflexivity.
  - apply checkSegments_none.
  - intros w. apply checkSegments_some.
  - intros s Ha H1 H2 H3. unfold TerrainSegment.collidesWithEntity.
    rewrite Ha. cbn. rewrite H1, H2, H3. reflexivity.
Qed.

Section SafeZone.
Context {N : JSNumber}.

Lemma safeZone_fold (g : TerrainGenerator.t) (l : list TerrainSegment.t)
      (a b : num) (c : Z) :
  fold_left
    (fun (acc : num * num * Z) segment =>
       let '(avgTop, avgBottom, count) := acc in
       if geb (TerrainSegment.x segment) (ofZ 0) &&
          leb (TerrainSegment.x segment) (TerrainGenerator.canvasWidth g)
       then (add avgTop (TerrainSegment.topHeight segment),
             add avgBottom (sub (TerrainGenerator.canvasHeight g)
                                (TerrainSegment.bottomHeight segment)),
             (count + 1)%Z)
       else acc)
    l (a, b, c) =
  (sumFrom a (map TerrainSegment.topHeight (filter (visible g) l)),
   sumFrom b (map (fun s => sub (TerrainGenerator.canvasHeight g)
                                (TerrainSegment.bottomHeight s))
                  (filter (visible g) l)),
   c + Z.of_nat (List.length (filter (visible g) l))).
Proof.
  revert a b c. induction l as [|s rest IH]; intros a b c.
  - cbn. rewrite Z.add_0_r. reflexivity.
  - cbn [fold_left filter].
    change (geb (TerrainSegment.x s) (ofZ 0) &&
            leb (TerrainSegment.x s) (TerrainGenerator.canvasWidth g))
      with (visible g s).
    destruct (visible g s).
    + rewrite IH. cbn [map List.length]. unfold sumFrom. cbn [fold_left].
      rewrite Nat2Z.inj_succ. f_equal. lia.
    + apply IH.
Qed.
End SafeZone.

(** X11. The safe zone is the average of the visible terrain.
    [getSafeZone()] looks at the segments with [0 <= x <= canvasWidth]
    only: with none of them it returns the stage's base heights, the
    fallback of [getBoundsAt]; otherwise the sums, added up in list order
    from 0, of their ceilings and of their floors
    [canvasHeight - bottomHeight], each divided by their number. *)
Theorem getSafeZone_average {N : JSNumber} (g : TerrainGenerator.t) :
  let seen := filter (visible g) (TerrainGenerator.segments g) in
  let count := ofZ (Z.of_nat (List.length seen)) in
  TerrainGenerator.getSafeZone g =
    match seen with
    | [] =>
        Zone.mk (Stage.baseTopHeight (TerrainGenerator.config g))
                (sub (TerrainGenerator.canvasHeight g)
                     (Stage.baseBottomHeight (TerrainGenerator.config g)))
    | _ :: _ =>
        Zone.mk
          (div (sumFrom (ofZ 0) (map TerrainSegment.topHeight seen)) count)
          (div (sumFrom (ofZ 0)
                  (map (fun s => sub (TerrainGenerator.canvasHeight g)
                                     (TerrainSegment.bottomHeight s)) seen))
               count)
    end.
Proof.
  cbv zeta. unfold TerrainGenerator.getSafeZone.
  rewrite safeZone_fold.
  destruct (filter (visible g) (TerrainGenerator.segments g)) as [|s rest].
  - reflexivity.
  - cbn [List.length]. rewrite Z.add_0_l.
    destruct (Z.of_nat (S (List.length rest)) =? 0) eqn:E.
    + apply Z.eqb_eq in E. lia.
    + reflexivity.
Qed.

(** ** Spawning, again *)

Section SpawnFacts.
Context {N : JSNumber} (host : Host).

Lemma spawnEnemy_facts (m : SpawnManager.t) (terrain : TerrainGenerator.t) (n : nat) :
  let '(e, n') := SpawnManager.spawnEnemy host m terrain n in
  (n + 1 <= n' <= n + 3)%nat /\
  (forall e', e = Some e' ->
     Enemy.active e' = true /\
     Enemy.x e' = add (SpawnManager.canvasWidth m) (ofZ 50)).
Proof.
  pose proof (spawnEnemy_cases host m terrain n) as C. cbv zeta in C.
  destruct (arrayGet _ _) as [key|].
  - cbn [SpawnManager.lookupType] in C.
    destruct (ENEMY_TYPES key) as [config|].
    + destruct (leb _ _).
      * rewrite C. split; [lia | discriminate].
      * destruct C as (e & -> & Hx & _ & _ & _ & Ha).
        split; [lia|]. intros e' [= <-]. split; assumption.
    + rewrite C. split; [lia | discriminate].
  - rewrite C. split; [lia | discriminate].
Qed.

Lemma spawnGroundTarget_facts (m : SpawnManager.t) (terrain : TerrainGenerator.t)
      (n : nat) :
  let '(t, n') := SpawnManager.spawnGroundTarget host m terrain n in
  n' = S n /\
  (forall t', t = Some t' ->
     GroundTarget.active t' = true /\
     GroundTarget.x t' = add (SpawnManager.canvasWidth m) (ofZ 50)).
Proof.
  unfold SpawnManager.spawnGroundTarget, SpawnManager.pickType, bind, random, ret.
  destruct (arrayGet _ _) as [key|]; [|split; [reflexivity | discriminate]].
  cbn [SpawnManager.lookupType].
  destruct (GROUND_TARGET_TYPES key) as [config|];
    [|split; [reflexivity | discriminate]].
  split; [reflexivity|]. intros t' [= <-]. split; reflexivity.
Qed.
End SpawnFacts.

Ltac spawn_done He Ht :=
  try contradiction;
  match goal with
  | H : _ \/ False |- _ =>
      destruct H as [<- | []];
      first [apply (He _ eq_refl) | apply (Ht _ eq_refl)]
  end.

(** X12. One frame of spawning. [SpawnManager.update(terrain,
    worldDistance)] advances each of its two timers by one, makes between
    two and six random draws, and returns at most one enemy and at most
    one ground target; whatever it returns is active and placed at
    [x = canvasWidth + 50], off the right edge. No enemy is spawned when
    the first draw is not below [enemyDensity]. The [worldDistance]
    passed in plays no part. *)
Theorem SpawnManager_update_spawns {N : JSNumber} (host : Host)
        (m : SpawnManager.t) (terrain : TerrainGenerator.t)
        (worldDistance : num) (n : nat) :
  let r := SpawnManager.update host m terrain worldDistance n in
  let es := fst (fst (fst r)) in
  let ts := snd (fst (fst r)) in
  let m' := snd (fst r) in
  let n' := snd r in
  (List.length es <= 1)%nat /\ (List.length ts <= 1)%nat /\
  SpawnManager.spawnTimer m' = SpawnManager.spawnTimer m + 1 /\
  SpawnManager.groundSpawnTimer m' = SpawnManager.groundSpawnTimer m + 1 /\
  SpawnManager.canvasWidth m' = SpawnManager.canvasWidth m /\
  SpawnManager.canvasHeight m' = SpawnManager.canvasHeight m /\
  SpawnManager.config m' = SpawnManager.config m /\
  (n + 2 <= n' <= n + 6)%nat /\
  (forall e, In e es ->
     Enemy.active e = true /\
     Enemy.x e = add (SpawnManager.canvasWidth m) (ofZ 50)) /\
  (forall t, In t ts ->
     GroundTarget.active t = true /\
     GroundTarget.x t = add (SpawnManager.canvasWidth m) (ofZ 50)) /\
  (ltb (Math_random host n) (Stage.enemyDensity (SpawnManager.config m)) = false ->
   es = []) /\
  (forall d, SpawnManager.update host m terrain d n = r).
Proof.
  cbv zeta. unfold SpawnManager.update. cbv zeta.
  cbn [SpawnManager.canvasWidth SpawnManager.canvasHeight SpawnManager.config
       SpawnManager.spawnTimer SpawnManager.groundSpawnTimer].
  unfold bind, random, ret. cbv beta.
  set (m1 := SpawnManager.mk _ _ _ _ (SpawnManager.groundSpawnTimer m)).
  set (m2 := SpawnManager.mk _ _ _ _ (SpawnManager.groundSpawnTimer m + 1)).
  assert (Hm1 : SpawnManager.canvasWidth m1 = SpawnManager.canvasWidth m)
    by reflexivity.
  assert (Hm2 : SpawnManager.canvasWidth m2 = SpawnManager.canvasWidth m)
    by reflexivity.
  destruct (ltb (Math_random host n) _) eqn:D1.
  - pose proof (spawnEnemy_facts host m1 terrain (S n)) as F.
    destruct (SpawnManager.spawnEnemy host m1 terrain (S n)) as [e n1].
    destruct F as (Hn1 & He). rewrite Hm1 in He.
    destruct (ltb (Math_random host n1) _) eqn:D2.
    + pose proof (spawnGroundTarget_facts host m2 terrain (S n1)) as G.
      destruct (SpawnManager.spawnGroundTarget host m2 terrain (S n1)) as [t n2].
      destruct G as (-> & Ht). rewrite Hm2 in Ht. cbn [fst snd].
      destruct e as [e|], t as [t|]; cbn [SpawnManager.optList List.length In];
        repeat split; try lia; try discriminate; spawn_done He Ht.
    + cbn [fst snd].
      destruct e as [e|]; cbn [SpawnManager.optList List.length In];
        repeat split; try lia; try discriminate; spawn_done He He.
  - destruct (ltb (Math_random host (S n)) _) eqn:D2.
    + pose proof (spawnGroundTarget_facts host m2 terrain (S (S n))) as G.
      destruct (SpawnManager.spawnGroundTarget host m2 terrain (S (S n))) as [t n2].
      destruct G as (-> & Ht). rewrite Hm2 in Ht. cbn [fst snd].
      destruct t as [t|]; cbn [SpawnManager.optList List.length In];
        repeat split; try lia; spawn_done Ht Ht.
    + cbn [fst snd List.length In]. repeat split; try lia; contradiction.
Qed.

Section PickInRange.
End PickInRange.

Section Tables.
Context {N : JSNumber}.

End Tables.


(** ** Where a game stands *)

Section Standing.
Context {N : JSNumber} (host : Host).

Lemma standing_inv (g : Game.t) a b c d :
  standing g = (a, b, c, d) ->
  Game.state g = a /\ Game.stateTimer g = b /\ Game.bestScore g = c /\
  Game.currentStage g = d.
Proof.
  unfold standing. intros H.
  apply pair_equal_spec in H. destruct H as [H H4].
  apply pair_equal_spec in H. destruct H as [H H3].
  apply pair_equal_spec in H. destruct H as [H1 H2].
  repeat split; assumption.
Qed.

Lemma standing_same (g g' : Game.t) :
  standing g' = standing g ->
  Game.state g' = Game.state g /\ Game.stateTimer g' = Game.stateTimer g /\
  Game.bestScore g' = Game.bestScore g /\
  Game.currentStage g' = Game.currentStage g.
Proof. apply standing_inv. Qed.

Lemma explode_standing (g : Game.t) x y c k n g' n' :
  Game.explode host g x y c k n = (g', n') -> standing g' = standing g.
Proof.
  unfold Game.explode, bind, ret.
  destruct (createExplosion host x y c k n). intros [= <- <-]. reflexivity.
Qed.

Lemma stepBombs_standing (bs : list Bomb.t) (g : Game.t) n bs' g' n' :
  Game.stepBombs host bs g n = (bs', g', n') ->
  standing g' = standing g /\ Game.score g' = Game.score g.
Proof.
  revert g n bs' g' n'. induction bs as [|b rest IH]; intros g n bs' g' n' E;
    simpl in E.
  - injection E as <- <- <-. split; reflexivity.
  - destruct (TerrainGenerator.checkCollision _ _); revert E; run_rand;
      intros E; injection E as <- <- <-;
      repeat match goal with
        | H : Game.explode _ _ _ _ _ _ _ = _ |- _ =>
            pose proof (explode_standing _ _ _ _ _ _ _ _ H);
            apply explode_eq in H;
            destruct H as (_ & _ & _ & _ & _ & _ & ? & _)
        | H : Game.stepBombs _ _ _ _ = _ |- _ =>
            apply IH in H; destruct H as (? & ?)
        end; split; congruence.
Qed.

Lemma updateBombs_standing (g : Game.t) n g' n' :
  Game.updateBombs host g n = (g', n') ->
  standing g' = standing g /\ Game.score g' = Game.score g.
Proof.
  unfold Game.updateBombs. run_rand. intros E. injection E as <- <-.
  match goal with
  | H : Game.stepBombs _ _ _ _ = _ |- _ =>
      apply stepBombs_standing in H; destruct H as (? & ?)
  end.
  split; [unfold standing in *|]; game_cbn; assumption.
Qed.

Lemma updateEnemies_standing (g : Game.t) n g' n' :
  Game.updateEnemies host g n = (g', n') ->
  standing g' = standing g /\ Game.score g' = Game.score g.
Proof.
  unfold Game.updateEnemies. run_rand. intros E. injection E as <- <-.
  split; reflexivity.
Qed.

Lemma updateGroundTargets_standing (g : Game.t) n g' n' :
  Game.updateGroundTargets host g n = (g', n') ->
  standing g' = standing g /\ Game.score g' = Game.score g.
Proof.
  unfold Game.updateGroundTargets. run_rand. intros E. injection E as <- <-.
  split; reflexivity.
Qed.

Lemma spawnFrame_standing (g : Game.t) n g' n' :
  Game.spawnFrame host g n = (g', n') ->
  standing g' = standing g /\ Game.score g' = Game.score g.
Proof.
  unfold Game.spawnFrame. run_rand.
  destruct p as [[es ts] sm]. intros E; injection E as <- <-.
  split; reflexivity.
Qed.

Lemma fireFrame_standing (g : Game.t) :
  standing (Game.fireFrame g) = standing g /\
  Game.score (Game.fireFrame g) = Game.score g.
Proof.
  unfold Game.fireFrame.
  set (g1 := if Input.shoot (Game.input g) then _ else g).
  assert (H1 : standing g1 = standing g /\ Game.score g1 = Game.score g).
  { subst g1. destruct (Input.shoot (Game.input g)); [|split; reflexivity].
    destruct (Player.shoot (Game.player g)) as [[b|] p]; split; reflexivity. }
  clearbody g1. destruct H1 as (<- & <-). cbv zeta.
  destruct (Input.bomb (Game.input g1)); [|split; reflexivity].
  destruct (Player.bomb (Game.player g1)) as [[b|] p]; split; reflexivity.
Qed.

Lemma bulletsVsEnemies_standing (bs : list Bullet.t) (g : Game.t) n bs' g' n' :
  Game.bulletsVsEnemies host bs g n = (bs', g', n') -> standing g' = standing g.
Proof.
  revert g n bs' g' n'. induction bs as [|b rest IH]; intros g n bs' g' n' E;
    simpl in E.
  - injection E as <- <- <-. reflexivity.
  - destruct (negb (Bullet.isPlayerBullet b) || negb (Bullet.active b)).
    + revert E; run_rand; intros E; injection E as <- <- <-.
      match goal with
      | H : Game.bulletsVsEnemies _ _ _ _ = _ |- _ => apply IH in H
      end. assumption.
    + destruct (strikeFirst _ _ _ (Game.enemies g)) as [[e es]|].
      * destruct (Enemy.takeDamage e _) as [[] e'];
          revert E; run_rand; intros E; injection E as <- <- <-;
          repeat match goal with
            | H : Game.explode _ _ _ _ _ _ _ = _ |- _ =>
                apply explode_standing in H
            | H : Game.bulletsVsEnemies _ _ _ _ = _ |- _ => apply IH in H
            | H : ret _ _ = _ |- _ => unfold ret in H; injection H as <- <-
            | H : (_, _) = (_, _) |- _ => injection H as <- <-
            end; unfold standing in *; game_cbn; congruence.
      * revert E; run_rand; intros E; injection E as <- <- <-.
        match goal with
        | H : Game.bulletsVsEnemies _ _ _ _ = _ |- _ => apply IH in H
        end. assumption.
Qed.

Lemma destroyTarget_standing (g : Game.t) target k n g' n' :
  Game.destroyTarget host g target k n = (g', n') -> standing g' = standing g.
Proof.
  unfold Game.destroyTarget. run_rand.
  match goal with
  | H : Game.explode _ _ _ _ _ _ _ = _ |- _ => apply explode_standing in H
  end.
  destruct (GroundTarget.givesFuel target); intros E; injection E as <- <-;
    unfold standing in *; game_cbn; assumption.
Qed.

Lemma bombsVsTargets_standing (bs : list Bomb.t) (g : Game.t) n bs' g' n' :
  Game.bombsVsTargets host bs g n = (bs', g', n') -> standing g' = standing g.
Proof.
  revert g n bs' g' n'. induction bs as [|b rest IH]; intros g n bs' g' n' E;
    simpl in E.
  - injection E as <- <- <-. reflexivity.
  - destruct (negb (Bomb.active b));
      [| destruct (strikeFirst _ _ _ (Game.groundTargets g)) as [[e es]|]];
      revert E; run_rand; intros E; injection E as <- <- <-;
      repeat match goal with
        | H : Game.destroyTarget _ _ _ _ _ = _ |- _ =>
            apply destroyTarget_standing in H
        | H : Game.bombsVsTargets _ _ _ _ = _ |- _ => apply IH in H
        end; unfold standing in *; game_cbn; congruence.
Qed.

Lemma bulletsVsTargets_standing (bs : list Bullet.t) (g : Game.t) n bs' g' n' :
  Game.bulletsVsTargets host bs g n = (bs', g', n') -> standing g' = standing g.
Proof.
  revert g n bs' g' n'. induction bs as [|b rest IH]; intros g n bs' g' n' E;
    simpl in E.
  - injection E as <- <- <-. reflexivity.
  - destruct (negb (Bullet.isPlayerBullet b) || negb (Bullet.active b));
      [| destruct (strikeFirst _ _ _ (Game.groundTargets g)) as [[e es]|]];
      revert E; run_rand; intros E; injection E as <- <- <-;
      repeat match goal with
        | H : Game.destroyTarget _ _ _ _ _ = _ |- _ =>
            apply destroyTarget_standing in H
        | H : Game.bulletsVsTargets _ _ _ _ = _ |- _ => apply IH in H
        end; unfold standing in *; game_cbn; congruence.
Qed.

(** What [setState] does to where the game stands. *)
Lemma setState_standing (g : Game.t) (st : GameState) :
  standing (Game.setState g st) =
    (st,
     match st with STAGE_TRANSITION => 120 | _ => 0 end,
     match st with
     | GAME_OVER | VICTORY => Z.max (Game.bestScore g) (Game.score g)
     | _ => Game.bestScore g
     end,
     Game.currentStage g) /\
  Game.score (Game.setState g st) = Game.score g.
Proof.
  unfold Game.setState, Game.onStateEnter, Game.saveBestScore, standing.
  destruct st; game_cbn; try (split; reflexivity);
    destruct (Game.score g >? Game.bestScore g) eqn:E; game_cbn;
    (split; [|reflexivity]); f_equal; f_equal; lia.
Qed.

Lemma settled_refl (g g' : Game.t) :
  standing g' = standing g -> Game.score g' = Game.score g -> settled g g'.
Proof.
  intros H Hs. unfold settled.
  destruct (standing_same _ _ H) as (H1 & H2 & H3 & H4).
  repeat split; try assumption; try lia.
  left. exact H.
Qed.

Lemma settled_trans (g1 g2 g3 : Game.t) :
  recorded g1 -> settled g1 g2 -> settled g2 g3 -> settled g1 g3.
Proof.
  unfold settled, recorded.
  intros R (A1 & A2 & A3 & A4) (B1 & B2 & B3 & B4).
  repeat split; try congruence; try lia.
  destruct B4 as [B4 | (B4 & B5)]; [|right; split; assumption].
  destruct A4 as [A4 | (A4 & A5)].
  - left. congruence.
  - right. destruct (standing_same _ _ B4) as (H1 & H2 & H3 & H4).
    split; [congruence | lia].
Qed.

Lemma setState_GAME_OVER_settled (g : Game.t) :
  settled g (Game.setState g GAME_OVER).
Proof.
  destruct (setState_standing g GAME_OVER) as (S & Sc).
  apply standing_inv in S. destruct S as (S1 & S2 & S3 & S4).
  unfold settled. rewrite S1, S3, S4, Sc.
  repeat split; try lia. right. split; [reflexivity | lia].
Qed.

Lemma playerHit_settled (g : Game.t) n g' n' :
  Game.playerHit host g n = (g', n') -> settled g g'.
Proof.
  unfold Game.playerHit.
  destruct (Player.hit (Game.player g)) as [[] p].
  - run_rand.
    match goal with
    | H : Game.explode _ _ _ _ _ _ _ = _ |- _ =>
        pose proof (explode_standing _ _ _ _ _ _ _ _ H) as Hst;
        apply explode_eq in H;
        destruct H as (_ & _ & _ & _ & _ & _ & Hsc & _)
    end.
    game_cbn.
    destruct (Player.lives _ <=? 0); intros E;
      apply pair_equal_spec in E; destruct E as [<- <-].
    + pose proof (setState_GAME_OVER_settled t) as S.
      destruct (setState_standing t GAME_OVER) as (S5 & _).
      apply standing_inv in S5. destruct S5 as (S5 & _ & S6 & _).
      destruct (standing_same _ _ Hst) as (H1 & H2 & H3 & H4).
      unfold settled in *. game_cbn.
      destruct S as (S1 & S2 & S3 & S4).
      repeat split; try congruence; try lia.
      right. split; [exact S5 | lia].
    + apply settled_refl; [exact Hst | exact Hsc].
  - intros E; injection E as <- <-. apply settled_refl; reflexivity.
Qed.

Lemma hostileBulletsVsPlayer_settled (g : Game.t) n g' n' :
  Game.hostileBulletsVsPlayer host g n = (g', n') -> settled g g'.
Proof.
  unfold Game.hostileBulletsVsPlayer.
  destruct (strikeFirst _ _ _ (Game.bullets g)) as [[b bs]|].
  - intros E. apply playerHit_settled in E. exact E.
  - intros E; injection E as <- <-. apply settled_refl; reflexivity.
Qed.

Lemma playerVsEnemies_settled (g : Game.t) n g' n' :
  Game.playerVsEnemies host g n = (g', n') -> settled g g'.
Proof.
  unfold Game.playerVsEnemies.
  destruct (strikeFirst _ _ _ (Game.enemies g)) as [[e es]|].
  - run_rand. intros E. apply playerHit_settled in E.
    match goal with
    | H : Game.explode _ _ _ _ _ _ _ = _ |- _ =>
        pose proof (explode_standing _ _ _ _ _ _ _ _ H) as Hst;
        apply explode_eq in H;
        destruct H as (_ & _ & _ & _ & _ & _ & Hsc & _)
    end.
    destruct (standing_same _ _ Hst) as (H1 & H2 & H3 & H4).
    unfold settled, standing in *. game_cbn.
    rewrite H1, H2, H3, H4, Hsc in E. exact E.
  - intros E; injection E as <- <-. apply settled_refl; reflexivity.
Qed.

Lemma playerCrash_settled (g : Game.t) n g' n' :
  Game.playerCrash host g n = (g', n') -> settled g g'.
Proof.
  unfold Game.playerCrash. run_rand.
  match goal with
  | H : Game.explode _ _ _ _ _ _ _ = _ |- _ =>
      pose proof (explode_standing _ _ _ _ _ _ _ _ H) as Hst;
      apply explode_eq in H;
      destruct H as (_ & _ & _ & _ & _ & _ & Hsc & _)
  end.
  game_cbn.
  destruct (Player.lives _ <=? 0); intros E;
    apply pair_equal_spec in E; destruct E as [<- <-].
  - match goal with
    | |- settled _ (Game.setState ?a _) =>
        pose proof (setState_GAME_OVER_settled a) as S;
        destruct (setState_standing a GAME_OVER) as (S5 & _)
    end.
    apply standing_inv in S5. destruct S5 as (S5 & _ & S6 & _).
    destruct (standing_same _ _ Hst) as (H1 & H2 & H3 & H4).
    unfold settled in *. game_cbn.
    destruct S as (S1 & S2 & S3 & S4).
    repeat split; try congruence; try lia.
    right. split; [exact S5 | lia].
  - apply settled_refl; [exact Hst | exact Hsc].
Qed.
End Standing.

Section Frames.
Context {N : JSNumber} (host : Host).

Lemma flyFrame_standing (g : Game.t) :
  standing (Game.flyFrame host g) = standing g /\
  Game.score (Game.flyFrame host g) = Game.score g.
Proof. split; reflexivity. Qed.

Lemma updateBullets_standing (g : Game.t) :
  standing (Game.updateBullets g) = standing g /\
  Game.score (Game.updateBullets g) = Game.score g.
Proof. split; reflexivity. Qed.

(** Before collisions are checked, a frame leaves the game standing
    where it stood, and the score as it was. *)
Lemma simulateFrame_standing (g : Game.t) n g' n' :
  Game.simulateFrame host g n = (g', n') ->
  Game.state g = PLAYING ->
  Game.currentStage g' = Game.currentStage g /\
  Game.bestScore g <= Game.bestScore g' /\
  (Game.state g' = PLAYING \/
   Game.state g' = GAME_OVER /\ Game.score g' <= Game.bestScore g').
Proof.
  unfold Game.simulateFrame, Game.checkCollisions. run_rand. intros E Hst.
  repeat match goal with
    | H : Game.spawnFrame _ _ _ = _ |- _ =>
        apply spawnFrame_standing in H; destruct H as (? & _)
    | H : Game.updateEnemies _ _ _ = _ |- _ =>
        apply updateEnemies_standing in H; destruct H as (? & _)
    | H : Game.updateGroundTargets _ _ _ = _ |- _ =>
        apply updateGroundTargets_standing in H; destruct H as (? & _)
    | H : Game.updateBombs _ _ _ = _ |- _ =>
        apply updateBombs_standing in H; destruct H as (? & _)
    | H : Game.bulletsVsEnemies _ _ _ _ = _ |- _ =>
        apply bulletsVsEnemies_standing in H
    | H : Game.bombsVsTargets _ _ _ _ = _ |- _ =>
        apply bombsVsTargets_standing in H
    | H : Game.bulletsVsTargets _ _ _ _ = _ |- _ =>
        apply bulletsVsTargets_standing in H
    | H : Game.hostileBulletsVsPlayer _ _ _ = _ |- _ =>
        apply hostileBulletsVsPlayer_settled in H
    end.
  apply playerVsEnemies_settled in E.
  destruct (fireFrame_standing (Game.flyFrame host g)) as (Hf & _).
  destruct (flyFrame_standing g) as (Hy & _).
  match goal with
  | H1 : settled ?a ?b, H2 : settled ?b ?c |- _ =>
      assert (Ha : standing a = standing g)
  end.
  { unfold standing, Game.updateBullets in *. game_cbn. congruence. }
  match goal with
  | H1 : settled ?a ?b, H2 : settled ?b ?c |- _ =>
      assert (R : recorded a)
  end.
  { apply standing_same in Ha. destruct Ha as (Ha & _).
    unfold recorded. rewrite Ha, Hst. intros [? | ?]; discriminate. }
  match goal with
  | H1 : settled ?a ?b, H2 : settled ?b ?c |- _ =>
      pose proof (settled_trans _ _ _ R H1 H2) as S
  end.
  apply standing_same in Ha. destruct Ha as (A1 & A2 & A3 & A4).
  destruct S as (S1 & S2 & S3 & S4).
  split; [congruence|]. split; [lia|].
  destruct S4 as [S4 | S4]; [|right; exact S4].
  left. apply standing_same in S4. destruct S4 as (S4 & _). congruence.
Qed.

Lemma resolveFrame_over (stageConfig : Stage.t) (g : Game.t) n g' n' :
  Game.resolveFrame host stageConfig g n = (g', n') ->
  Game.state g = PLAYING \/
  Game.state g = GAME_OVER /\ Game.score g <= Game.bestScore g ->
  Game.currentStage g' = Game.currentStage g /\
  Game.bestScore g <= Game.bestScore g' /\
  (Game.state g' = PLAYING \/
   Game.state g' = STAGE_TRANSITION /\ Game.stateTimer g' = 120 \/
   Game.state g' = GAME_OVER /\ Game.score g' <= Game.bestScore g').
Proof.
  intros E Hst.
  assert (R : recorded g).
  { unfold recorded. destruct Hst as [-> | (_ & H)];
      [intros [? | ?]; discriminate | intros _; exact H]. }
  assert (Crash : forall g' n', Game.playerCrash host g n = (g', n') ->
            Game.currentStage g' = Game.currentStage g /\
            Game.bestScore g <= Game.bestScore g' /\
            (Game.state g' = PLAYING \/
             Game.state g' = STAGE_TRANSITION /\ Game.stateTimer g' = 120 \/
             Game.state g' = GAME_OVER /\ Game.score g' <= Game.bestScore g')).
  { intros g1 n1 C. apply playerCrash_settled in C.
    destruct C as (C1 & C2 & C3 & C4).
    split; [exact C1|]. split; [exact C3|].
    destruct C4 as [C4 | C4]; [|right; right; exact C4].
    apply standing_same in C4. destruct C4 as (D1 & _ & D3 & _).
    destruct Hst as [Hst | (Hst & Hsc)].
    - left. congruence.
    - right; right. split; [congruence | lia]. }
  unfold Game.resolveFrame in E.
  destruct (TerrainGenerator.checkCollision _ _); [exact (Crash _ _ E)|].
  destruct (leb _ _); [exact (Crash _ _ E)|].
  destruct (geb _ _); unfold ret in E;
    apply pair_equal_spec in E; destruct E as [<- <-].
  - destruct (setState_standing g STAGE_TRANSITION) as (S & _).
    apply standing_inv in S. destruct S as (S1 & S2 & S3 & S4).
    split; [exact S4|]. split; [lia|]. right; left. split; assumption.
  - split; [reflexivity|]. split; [lia|].
    destruct Hst as [Hst | Hst]; [left; exact Hst | right; right; exact Hst].
Qed.

Lemma updatePlaying_over (g : Game.t) n g' n' :
  Game.updatePlaying host g n = (g', n') ->
  Game.state g = PLAYING ->
  Game.currentStage g' = Game.currentStage g /\
  Game.bestScore g <= Game.bestScore g' /\
  (Game.state g' = PLAYING \/
   Game.state g' = STAGE_TRANSITION /\ Game.stateTimer g' = 120 \/
   Game.state g' = GAME_OVER /\ Game.score g' <= Game.bestScore g').
Proof.
  unfold Game.updatePlaying, bind. intros E Hst.
  destruct (Game.simulateFrame host g n) as [g1 n1] eqn:E1.
  apply simulateFrame_standing in E1; [|exact Hst].
  destruct E1 as (A1 & A2 & A3).
  apply resolveFrame_over in E; [|exact A3].
  destruct E as (B1 & B2 & B3).
  split; [congruence|]. split; [lia | exact B3].
Qed.

Lemma initStage_standing (g : Game.t) n g' n' :
  Game.initStage host g n = (Some g', n') ->
  standing g' = standing g /\ Game.score g' = Game.score g.
Proof.
  unfold Game.initStage. run_rand.
  destruct o; intros E; [|discriminate E].
  injection E as <- <-. split; reflexivity.
Qed.

(** [advanceStage]: the next index, and victory exactly when it is off
    the table. *)
Lemma advanceStage_standing (g : Game.t) n g' n' :
  Game.advanceStage host g n = (Some g', n') ->
  Game.currentStage g' = S (Game.currentStage g) /\
  Game.score g' = Game.score g /\
  Game.bestScore g <= Game.bestScore g' /\
  (if (Z.of_nat (S (Game.currentStage g)) >=? getTotalStages (N := N))%Z
   then Game.state g' = VICTORY /\ Game.score g' <= Game.bestScore g'
   else Game.state g' = PLAYING /\ Game.bestScore g' = Game.bestScore g).
Proof.
  unfold Game.advanceStage. game_cbn.
  destruct (_ >=? _).
  - intros E. apply pair_equal_spec in E. destruct E as [E <-].
    some_inj E.
    match goal with
    | |- context [Game.setState ?a ?b] =>
        destruct (setState_standing a b) as (S & Sc)
    end.
    apply standing_inv in S. destruct S as (S1 & S2 & S3 & S4).
    rewrite S1, S3, S4, Sc. game_cbn.
    repeat split; lia.
  - run_rand. destruct o as [g1|]; intros E; [|discriminate E].
    apply pair_equal_spec in E. destruct E as [E <-]. some_inj E.
    match goal with
    | H : Game.initStage _ _ _ = _ |- _ =>
        apply initStage_standing in H; destruct H as (I & Isc)
    end.
    apply standing_same in I. destruct I as (I1 & I2 & I3 & I4).
    destruct (setState_standing g1 PLAYING) as (S & Sc).
    apply standing_inv in S. destruct S as (S1 & S2 & S3 & S4).
    rewrite S1, S3, S4, Sc, I3, I4, Isc. game_cbn.
    repeat split; lia.
Qed.
End Frames.

(** X14. A hit that counts. For a player that is not invincible,
    [playerHit()] takes exactly one life and starts the invincibility
    window at [invincibleDuration], without moving the player or touching
    the fuel (unlike a crash); it adds the 15 particles of an explosion,
    drawing 60 random numbers, and leaves enemies, targets, bullets, bombs
    and score alone. With no life left the game is over and the best
    score is brought up to the score; otherwise the game stands where it
    stood. *)
Theorem playerHit_vulnerable {N : JSNumber} (host : Host) (g : Game.t) (n : nat) :
  Player.isInvincible (Game.player g) = false ->
  let g' := fst (Game.playerHit host g n) in
  let p := Game.player g in
  let p' := Game.player g' in
  Player.lives p' = Player.lives p - 1 /\
  Player.isInvincible p' = true /\
  Player.invincibleTimer p' = Player.invincibleDuration p /\
  Player.base p' = Player.base p /\ Player.fuel p' = Player.fuel p /\
  snd (Game.playerHit host g n) = (n + 60)%nat /\
  List.length (Game.particles g') = (List.length (Game.particles g) + 15)%nat /\
  Game.enemies g' = Game.enemies g /\
  Game.groundTargets g' = Game.groundTargets g /\
  Game.bullets g' = Game.bullets g /\ Game.bombs g' = Game.bombs g /\
  Game.score g' = Game.score g /\
  (Player.lives p' <= 0 ->
   Game.state g' = GAME_OVER /\
   Game.bestScore g' = Z.max (Game.bestScore g) (Game.score g)) /\
  (0 < Player.lives p' -> standing g' = standing g).
Proof.
  intros Hv. cbv zeta. unfold Game.playerHit, Player.hit. rewrite Hv.
  unfold Game.explode, bind, ret. game_cbn.
  match goal with
  | |- context [createExplosion host ?x ?y ?c 15 n] =>
      pose proof (createExplosion_spec host x y c 15 n) as X;
      destruct (createExplosion host x y c 15 n) as [ps n1]
  end.
  destruct X as (L & -> & _). game_cbn.
  cbn [Player.lives Player.with_lives Player.with_isInvincible
       Player.with_invincibleTimer].
  destruct (Player.lives (Game.player g) - 1 <=? 0) eqn:E; cbn [fst snd].
  - match goal with
    | |- context [Game.setState ?a ?b] =>
        destruct (setState_frame a b) as (F1 & F2 & F3 & F4 & F5 & F6 & _);
        destruct (setState_standing a b) as (S & _);
        assert (Hps : Game.particles (Game.setState a b) = Game.particles a)
          by (unfold Game.setState, Game.onStateEnter, Game.saveBestScore;
              destruct (_ >? _); reflexivity)
    end.
    apply standing_inv in S. destruct S as (S1 & _ & S3 & _).
    cbv zeta in *. rewrite F1, F2, F3, F4, F5, F6, Hps, S1, S3. game_cbn.
    rewrite length_app, L. apply Z.leb_le in E.
    repeat split; try reflexivity; try lia.
    intros Hl. exfalso. revert Hl.
    cbn [Player.lives Player.with_lives Player.with_isInvincible
         Player.with_invincibleTimer]. lia.
  - game_cbn. rewrite length_app, L. apply Z.leb_gt in E.
    repeat split; try reflexivity; try lia;
      exfalso; revert H;
      cbn [Player.lives Player.with_lives Player.with_isInvincible
           Player.with_invincibleTimer]; lia.
Qed.

Lemma playerHit_vulnerable_witness :
  let g' := fst (Game.playerHit (N := binary64) exampleHost exampleGame O) in
  Player.lives (Game.player g') = 2 /\
  Player.invincibleTimer (Game.player g') = 120 /\
  Player.base (Game.player g') = Player.base (Game.player exampleGame).
Proof.
  cbv zeta.
  assert (Hv : Player.isInvincible (Game.player (N := binary64) exampleGame) = false)
    by (vm_compute; reflexivity).
  destruct (playerHit_vulnerable exampleHost exampleGame O Hv)
    as (L & _ & T & B & _).
  split; [|split].
  - rewrite L. vm_compute. reflexivity.
  - rewrite T. vm_compute. reflexivity.
  - exact B.
Defined.



Section Idle.
Context {N : JSNumber} (host : Host).

Lemma with_particles_twice (g : Game.t) (a b : list Particle.t) :
  Game.with_particles (Game.with_particles g a) b = Game.with_particles g b.
Proof. reflexivity. Qed.

(** A game in a state [update] does not act on only ages its
    particles, frame after frame, and draws nothing. *)
Lemma runFrames_idle (k : nat) (g : Game.t) (n : nat) :
  Game.state g <> PLAYING -> Game.state g <> STAGE_TRANSITION ->
  runFrames host k g n =
    (Some (Game.with_particles g (iterate k agedParticles (Game.particles g))), n).
Proof.
  revert g. induction k as [|k IH]; intros g H1 H2.
  - cbn [runFrames iterate]. unfold ret. destruct g; reflexivity.
  - cbn [runFrames iterate]. unfold bind.
    assert (U : Game.update host g n = (Some (Game.updateParticles g), n)).
    { unfold Game.update.
      change (Game.state (Game.updateParticles g)) with (Game.state g).
      destruct (Game.state g); try reflexivity; congruence. }
    rewrite U, IH by assumption. reflexivity.
Qed.

(** A game waiting on the transition screen counts its timer down. *)
Lemma runFrames_waiting (k : nat) (g : Game.t) (n : nat) :
  Game.state g = STAGE_TRANSITION -> Z.of_nat k < Game.stateTimer g ->
  runFrames host k g n =
    (Some (Game.with_stateTimer
             (Game.with_particles g (iterate k agedParticles (Game.particles g)))
             (Game.stateTimer g - Z.of_nat k)), n).
Proof.
  revert g. induction k as [|k IH]; intros g Hst Hk.
  - cbn [runFrames iterate]. unfold ret. rewrite Z.sub_0_r.
    destruct g; reflexivity.
  - cbn [runFrames iterate]. unfold bind.
    assert (U : Game.update host g n =
                (Some (Game.with_stateTimer (Game.updateParticles g)
                         (Game.stateTimer g - 1)), n)).
    { unfold Game.update.
      change (Game.state (Game.updateParticles g)) with (Game.state g).
      rewrite Hst. game_cbn.
      change (Game.stateTimer (Game.updateParticles g)) with (Game.stateTimer g).
      destruct (Game.stateTimer g - 1 <=? 0) eqn:E; [|reflexivity].
      apply Z.leb_le in E. lia. }
    rewrite U, IH.
    + game_cbn. unfold Game.updateParticles. game_cbn.
      replace (Game.stateTimer g - 1 - Z.of_nat k)
        with (Game.stateTimer g - Z.of_nat (S k)) by lia.
      reflexivity.
    + exact Hst.
    + game_cbn. lia.
Qed.
End Idle.

(** X16. Pausing costs nothing. For a game that is PLAYING, [pause()],
    any number [k] of frames, and [pause()] again give back the game as
    it was, but for the particles, which have aged [k] frames, and the
    state timer, which is 0 (as it is in every PLAYING game that [start]
    or [advanceStage] made): no entity moved, no fuel was used, no random
    number drawn. In the states other than PLAYING and PAUSED [pause()]
    does nothing. *)
Theorem pause_round_trip {N : JSNumber} (host : Host) (g : Game.t) (k n : nat) :
  Game.state g = PLAYING ->
  let aged := iterate k agedParticles (Game.particles g) in
  Game.state (Game.pause g) = PAUSED /\
  runFrames host k (Game.pause g) n
    = (Some (Game.with_particles (Game.pause g) aged), n) /\
  Game.pause (Game.with_particles (Game.pause g) aged)
    = Game.with_stateTimer (Game.with_particles g aged) 0 /\
  (Game.stateTimer g = 0 ->
   Game.pause (Game.with_particles (Game.pause g) aged)
     = Game.with_particles g aged) /\
  (forall g0 : Game.t,
     Game.state g0 <> PLAYING -> Game.state g0 <> PAUSED -> Game.pause g0 = g0).
Proof.
  intros Hst. cbv zeta.
  assert (P : Game.pause g = Game.with_stateTimer (Game.with_state g PAUSED) 0).
  { unfold Game.pause. rewrite Hst. reflexivity. }
  split; [rewrite P; reflexivity|].
  split.
  { rewrite (runFrames_idle host k (Game.pause g) n).
    - rewrite P. reflexivity.
    - rewrite P. discriminate.
    - rewrite P. discriminate. }
  split; [|split].
  - rewrite P. unfold Game.pause. game_cbn.
    unfold Game.setState, Game.onStateEnter. game_cbn.
    destruct g; cbn in Hst; subst; reflexivity.
  - intros Ht. rewrite P. unfold Game.pause. game_cbn.
    unfold Game.setState, Game.onStateEnter. game_cbn.
    destruct g; cbn in Hst, Ht; subst; reflexivity.
  - intros g0 H1 H2. unfold Game.pause.
    destruct (Game.state g0); congruence.
Qed.

Lemma pause_round_trip_witness :
  Game.pause (N := binary64)
    (Game.with_particles (Game.pause exampleGame)
       (iterate 7 agedParticles (Game.particles exampleGame)))
  = Game.with_particles exampleGame
      (iterate 7 agedParticles (Game.particles exampleGame)).
Proof.
  assert (Hst : Game.state (N := binary64) exampleGame = PLAYING)
    by (vm_compute; reflexivity).
  destruct (pause_round_trip exampleHost exampleGame 7 O Hst) as (_ & _ & _ & R & _).
  apply R. vm_compute. reflexivity.
Defined.

(** X17. The transition screen. From a game in STAGE_TRANSITION with a
    timer [T >= 1], the first [T - 1] frames only count the timer down
    and age the particles, drawing nothing; the [T]-th frame hands over
    to [advanceStage]. As [setState] enters the state with a timer of
    120, the screen stays for 120 frames. *)
Theorem stage_transition_countdown {N : JSNumber} (host : Host) (g : Game.t)
        (k n : nat) :
  Game.state g = STAGE_TRANSITION ->
  Z.of_nat k < Game.stateTimer g ->
  let waiting :=
    Game.with_stateTimer
      (Game.with_particles g (iterate k agedParticles (Game.particles g)))
      (Game.stateTimer g - Z.of_nat k) in
  runFrames host k g n = (Some waiting, n) /\
  Game.state waiting = STAGE_TRANSITION /\
  (Z.of_nat k = Game.stateTimer g - 1 ->
   Game.update host waiting n =
     Game.advanceStage host
       (Game.with_stateTimer (Game.updateParticles waiting) 0) n) /\
  (forall g0 : Game.t,
     Game.state (Game.setState g0 STAGE_TRANSITION) = STAGE_TRANSITION /\
     Game.stateTimer (Game.setState g0 STAGE_TRANSITION) = 120).
Proof.
  intros Hst Hk. cbv zeta.
  split; [apply runFrames_waiting; assumption|].
  split; [exact Hst|]. split.
  - intros E. unfold Game.update.
    match goal with
    | |- context [Game.state (Game.updateParticles ?w)] =>
        change (Game.state (Game.updateParticles w)) with (Game.state g)
    end.
    rewrite Hst. game_cbn.
    match goal with
    | |- context [Game.stateTimer (Game.updateParticles ?w)] =>
        change (Game.stateTimer (Game.updateParticles w))
          with (Game.stateTimer g - Z.of_nat k)
    end.
    replace (Game.stateTimer g - Z.of_nat k - 1) with 0 by lia.
    reflexivity.
  - intros g0. destruct (setState_standing g0 STAGE_TRANSITION) as (S & _).
    apply standing_inv in S. destruct S as (S1 & S2 & _). split; assumption.
Qed.

(** X18. The stage index stays on the table. A frame of [update] leaves
    the stage index as it is or raises it by one, the latter only when
    the transition screen's timer runs out; an index below the number of
    stages stays below it or reaches it together with VICTORY, and from
    there on nothing moves it. *)
Theorem stage_index_on_table {N : JSNumber} (host : Host) (g : Game.t)
        (n : nat) (g' : Game.t) (n' : nat) :
  onTable g ->
  Game.update host g n = (Some g', n') ->
  onTable g' /\
  (Game.currentStage g' = Game.currentStage g \/
   Game.currentStage g' = S (Game.currentStage g) /\
   Game.state g = STAGE_TRANSITION /\ Game.stateTimer g <= 1 /\
   (Game.state g' = VICTORY \/ Game.state g' = PLAYING)).
Proof.
  intros T. unfold Game.update.
  change (Game.state (Game.updateParticles g)) with (Game.state g).
  destruct (Game.state g) eqn:Hst;
    try (intros E; injection E as <- <-;
         split; [|left; reflexivity];
         unfold onTable in *; cbn; rewrite Hst in *; exact T).
  - unfold bind.
    destruct (Game.updatePlaying host (Game.updateParticles g) n) as [g1 n1] eqn:E.
    apply updatePlaying_over in E; [|exact Hst].
    intros E'; injection E' as <- <-.
    destruct E as (C & _ & _). cbn in C.
    split; [|left; exact C].
    unfold onTable in *. rewrite C.
    destruct T as [T | (_ & T)]; [left; exact T | congruence].
  - game_cbn.
    change (Game.stateTimer (Game.updateParticles g)) with (Game.stateTimer g).
    destruct (Game.stateTimer g - 1 <=? 0) eqn:Et.
    + intros E. apply advanceStage_standing in E.
      unfold Game.updateParticles in E. game_cbn.
      destruct E as (C & _ & _ & S). apply Z.leb_le in Et.
      rewrite Nat2Z.inj_succ in S.
      split.
      * unfold onTable in *. rewrite C, Nat2Z.inj_succ.
        destruct T as [T | (_ & T)]; [|congruence].
        destruct (_ >=? _) eqn:Eg.
        -- right. split; [|apply S]. apply Z.geb_le in Eg. lia.
        -- left. rewrite Z.geb_leb in Eg. apply Z.leb_gt in Eg. lia.
      * right. split; [exact C|]. split; [reflexivity|]. split; [lia|].
        destruct (_ >=? _); [left | right]; apply S.
    + intros E; injection E as <- <-. split; [|left; reflexivity].
      unfold onTable in *. cbn. rewrite Hst in *. exact T.
Qed.

Lemma stage_index_on_table_witness :
  match fst (Game.update (N := binary64) exampleHost exampleGame O) with
  | Some g' => onTable g'
  | None => False
  end.
Proof.
  assert (T : onTable (N := binary64) exampleGame).
  { left. vm_compute. reflexivity. }
  destruct (Game.update exampleHost exampleGame O) as [[g'|] n'] eqn:E;
    cbn [fst].
  - destruct (stage_index_on_table exampleHost exampleGame O g' n' T E) as (T' & _).
    exact T'.
  - assert (S : match fst (Game.update (N := binary64) exampleHost exampleGame O)
                with Some _ => true | None => false end = true)
      by (vm_compute; reflexivity).
    rewrite E in S. discriminate S.
Defined.

Section Sweep.
Context {N : JSNumber} (host : Host).

Lemma filter_keeps_all {A} (f : A -> bool) (l : list A) :
  Forall (fun a => f a = true) (filter f l).
Proof.
  apply Forall_forall. intros a Ha. apply filter_In in Ha. apply Ha.
Qed.

Lemma filter_shorter {A} (f : A -> bool) (l : list A) :
  (List.length (filter f l) <= List.length l)%nat.
Proof.
  induction l as [|a l IH]; simpl; [lia|]. destruct (f a); simpl; lia.
Qed.

Lemma stepEnemies_length (es : list Enemy.t) v n es' fired n' :
  Game.stepEnemies host es v n = (es', fired, n') ->
  List.length es' = List.length es.
Proof.
  revert n es' fired n'. induction es as [|e rest IH]; intros n es' fired n' E;
    simpl in E.
  - injection E as <- <- <-. reflexivity.
  - destruct (negb (Enemy.active e)); revert E; run_rand; intros E;
      injection E as <- <- <-;
      match goal with
      | H : Game.stepEnemies _ _ _ _ = _ |- _ => apply IH in H
      end; subst; cbn [fst snd List.length] in *; congruence.
Qed.

Lemma stepGroundTargets_length (ts : list GroundTarget.t) v n ts' fired n' :
  Game.stepGroundTargets host ts v n = (ts', fired, n') ->
  List.length ts' = List.length ts.
Proof.
  revert n ts' fired n'. induction ts as [|e rest IH]; intros n ts' fired n' E;
    simpl in E.
  - injection E as <- <- <-. reflexivity.
  - destruct (negb (GroundTarget.active e)); revert E; run_rand; intros E;
      injection E as <- <- <-;
      match goal with
      | H : Game.stepGroundTargets _ _ _ _ = _ |- _ => apply IH in H
      end; subst; cbn [fst snd List.length] in *; congruence.
Qed.

Lemma stepBombs_length (bs : list Bomb.t) (g : Game.t) n bs' g' n' :
  Game.stepBombs host bs g n = (bs', g', n') ->
  List.length bs' = List.length bs.
Proof.
  revert g n bs' g' n'. induction bs as [|b rest IH]; intros g n bs' g' n' E;
    simpl in E.
  - injection E as <- <- <-. reflexivity.
  - destruct (TerrainGenerator.checkCollision _ _); revert E; run_rand;
      intros E; injection E as <- <- <-;
      match goal with
      | H : Game.stepBombs _ _ _ _ = _ |- _ => apply IH in H
      end; subst; cbn [fst snd List.length] in *; congruence.
Qed.
End Sweep.

(** X19. Each frame sweeps out what is spent. After [updateEnemies],
    [updateGroundTargets], [updateBullets], [updateBombs] and
    [updateParticles], the list each of them maintains holds active
    entries only, and it is no longer than it was: these passes remove,
    they never add. *)
Theorem updates_sweep_inactive {N : JSNumber} (host : Host) (g : Game.t) (n : nat) :
  (let g' := fst (Game.updateEnemies host g n) in
   Forall (fun e => Enemy.active e = true) (Game.enemies g') /\
   (List.length (Game.enemies g') <= List.length (Game.enemies g))%nat) /\
  (let g' := fst (Game.updateGroundTargets host g n) in
   Forall (fun t => GroundTarget.active t = true) (Game.groundTargets g') /\
   (List.length (Game.groundTargets g') <= List.length (Game.groundTargets g))%nat) /\
  (let g' := Game.updateBullets g in
   Forall (fun b => Bullet.active b = true) (Game.bullets g') /\
   (List.length (Game.bullets g') <= List.length (Game.bullets g))%nat) /\
  (let g' := fst (Game.updateBombs host g n) in
   Forall (fun b => Bomb.active b = true) (Game.bombs g') /\
   (List.length (Game.bombs g') <= List.length (Game.bombs g))%nat) /\
  (let g' := Game.updateParticles g in
   Forall (fun p => Particle.active p = true) (Game.particles g') /\
   (List.length (Game.particles g') <= List.length (Game.particles g))%nat).
Proof.
  cbv zeta. split; [|split; [|split; [|split]]].
  - unfold Game.updateEnemies, bind, ret.
    destruct (Game.stepEnemies host _ _ n) as [[es f] n'] eqn:L.
    apply stepEnemies_length in L. cbn [fst snd] in *.
    game_cbn. split; [apply filter_keeps_all|].
    rewrite <- L. apply filter_shorter.
  - unfold Game.updateGroundTargets, bind, ret.
    destruct (Game.stepGroundTargets host _ _ n) as [[es f] n'] eqn:L.
    apply stepGroundTargets_length in L. cbn [fst snd] in *.
    game_cbn. split; [apply filter_keeps_all|].
    rewrite <- L. apply filter_shorter.
  - unfold Game.updateBullets. game_cbn. split; [apply filter_keeps_all|].
    eapply Nat.le_trans; [apply filter_shorter|]. rewrite length_map. lia.
  - unfold Game.updateBombs, bind, ret.
    destruct (Game.stepBombs host _ g n) as [[bs g1] n'] eqn:L.
    apply stepBombs_length in L. cbn [fst snd] in *.
    game_cbn. split; [apply filter_keeps_all|].
    rewrite <- L. apply filter_shorter.
  - unfold Game.updateParticles. game_cbn. split; [apply filter_keeps_all|].
    eapply Nat.le_trans; [apply filter_shorter|]. rewrite length_map. lia.
Qed.

Lemma stage_transition_countdown_witness :
  option_map Game.stateTimer (fst (runFrames exampleHost 119 gameInTransition O))
  = Some 1.
Proof.
  assert (Hst : Game.state gameInTransition = STAGE_TRANSITION)
    by (vm_compute; reflexivity).
  assert (Hk : Z.of_nat 119 < Game.stateTimer gameInTransition)
    by (vm_compute; reflexivity).
  destruct (stage_transition_countdown exampleHost gameInTransition 119 O Hst Hk)
    as (R & _).
  rewrite R. cbn [fst option_map]. game_cbn. vm_compute. reflexivity.
Defined.

(** ** The score *)

Section Score.
Context {N : JSNumber} (host : Host).


Lemma gaining_trans (g1 g2 g3 : Game.t) :
  gaining g1 g2 -> gaining g2 g3 -> gaining g1 g3.
Proof.
  unfold gaining. intros A B F. destruct (A F) as (A1 & A2).
  destruct (B A2) as (B1 & B2). split; [lia | exact B2].
Qed.





























End Score.



(** ** The last life *)

Section LastLife.
Context {N : JSNumber} (host : Host).


Lemma vitals_of_player (g g' : Game.t) :
  Game.player g' = Game.player g -> Game.state g' = Game.state g ->
  vitals g' = vitals g.
Proof. unfold vitals. intros -> ->. reflexivity. Qed.


End LastLife.

Section LastLifeFrame.
Context {N : JSNumber} (host : Host).



End LastLifeFrame.

Section LastLifeResolve.
Context {N : JSNumber} (host : Host).



End LastLifeResolve.

Section LastLifeUpdate.
Context {N : JSNumber} (host : Host).


End LastLifeUpdate.



(** ** Exact arithmetic: trajectories *)

Section BombFall.
Local Open Scope Q_scope.

End BombFall.



Section Fading.
Local Open Scope Q_scope.



Lemma iterate_aged_nil (k : nat) :
  iterate k (agedParticles (N := exactQ)) [] = [].
Proof. induction k as [|k IH]; [reflexivity|]. cbn [iterate]. exact IH. Qed.


End Fading.



Section InitialTerrain.
Context {N : JSNumber} (host : Host).


End InitialTerrain.


Section Band.
Context {N : JSNumber}.


End Band.



Section EnemyMotion.
Context {N : JSNumber} (host : Host).


End EnemyMotion.


Section EnemyPath.
Local Open Scope Q_scope.
Context (host : @Host exactQ).

End EnemyPath.



(** ** The hex codec of the Nostr helpers *)

Section HexRoundTrip.
Import Nostr.
Local Open Scope N_scope.

Lemma hexToBytes_byte (b : Byte.byte) (rest : JSString) :
  hexToBytes (padStart2 (toString16 b) ++ rest) = b :: hexToBytes rest.
Proof. destruct b; reflexivity. Qed.

Lemma padStart2_length (b : Byte.byte) :
  List.length (padStart2 (toString16 b)) = 2%nat.
Proof. destruct b; reflexivity. Qed.

Lemma below_forallb (P : N -> bool) (k : nat) :
  forallb P (map N.of_nat (seq 0 k)) = true ->
  forall c, c < N.of_nat k -> P c = true.
Proof.
  intros H c Hc. rewrite forallb_forall in H. apply H.
  apply in_map_iff. exists (N.to_nat c). split; [apply N2Nat.id|].
  apply in_seq. lia.
Qed.

Lemma isHexDigit_below (c : N) : isHexDigit c = true -> c < 103.
Proof.
  unfold isHexDigit, Nostr.digitValue16.
  destruct ((48 <=? c) && (c <=? 57)) eqn:E1;
    [apply andb_prop in E1; destruct E1 as [_ E]; apply N.leb_le in E; lia|].
  destruct ((97 <=? c) && (c <=? 102)) eqn:E2;
    [apply andb_prop in E2; destruct E2 as [_ E]; apply N.leb_le in E; lia|].
  destruct ((65 <=? c) && (c <=? 70)) eqn:E3;
    [apply andb_prop in E3; destruct E3 as [_ E]; apply N.leb_le in E; lia|].
  discriminate.
Qed.

Lemma pairRoundTrip_all :
  forallb (fun c1 => forallb (pairRoundTrip c1) (map N.of_nat (seq 0 103)))
          (map N.of_nat (seq 0 103)) = true.
Proof. vm_compute. reflexivity. Qed.

Lemma bytesToHex_pair (c1 c2 : N) :
  isHexDigit c1 = true -> isHexDigit c2 = true ->
  bytesToHex (hexToBytes [c1; c2]) = [lowerHex c1; lowerHex c2].
Proof.
  intros H1 H2.
  pose proof (below_forallb _ 103 pairRoundTrip_all c1 (isHexDigit_below c1 H1)) as P.
  cbv beta in P.
  pose proof (below_forallb _ 103 P c2 (isHexDigit_below c2 H2)) as Q.
  unfold pairRoundTrip in Q. rewrite H1, H2 in Q. cbn [andb implb] in Q.
  destruct (bytesToHex (hexToBytes [c1; c2])) as [|a [|b [|? ?]]];
    try discriminate Q.
  apply andb_prop in Q. destruct Q as [Qa Qb].
  apply N.eqb_eq in Qa, Qb. subst. reflexivity.
Qed.

Lemma bytesToHex_app (a b : list Byte.byte) :
  bytesToHex (a ++ b) = bytesToHex a ++ bytesToHex b.
Proof. unfold bytesToHex. rewrite map_app, concat_app. reflexivity. Qed.
End HexRoundTrip.

(** X27. Hex encoding round trip. [hexToBytes(bytesToHex(buf))] is [buf]
    for every Byte.byte array, and [bytesToHex] writes exactly two code units
    per Byte.byte. *)
Theorem hexToBytes_bytesToHex (buf : list Byte.byte) :
  Nostr.hexToBytes (Nostr.bytesToHex buf) = buf /\
  List.length (Nostr.bytesToHex buf) = (2 * List.length buf)%nat.
Proof.
  unfold Nostr.bytesToHex. induction buf as [|b rest (IH1 & IH2)].
  - split; reflexivity.
  - cbn [map List.concat]. split.
    + rewrite hexToBytes_byte, IH1. reflexivity.
    + rewrite length_app, padStart2_length, IH2. cbn [List.length]. lia.
Qed.

(** X28. Hex decoding. [hexToBytes] never fails: for every string it
    returns [floor(length / 2)] bytes (a code unit that is no hex digit
    ends the digits of its pair, a pair without digits is 0). On a string
    of an even number of hex digits, [bytesToHex(hexToBytes(hex))] is
    [hex] in lower case. *)
Theorem bytesToHex_hexToBytes (hex : Nostr.JSString) :
  List.length (Nostr.hexToBytes hex) = Nat.div2 (List.length hex) /\
  (Nat.even (List.length hex) = true ->
   forallb isHexDigit hex = true ->
   Nostr.bytesToHex (Nostr.hexToBytes hex) = map lowerHex hex).
Proof.
  assert (H : forall (k : nat) (hex : Nostr.JSString),
            (List.length hex <= k)%nat ->
            List.length (Nostr.hexToBytes hex) = Nat.div2 (List.length hex) /\
            (Nat.even (List.length hex) = true ->
             forallb isHexDigit hex = true ->
             Nostr.bytesToHex (Nostr.hexToBytes hex) = map lowerHex hex)).
  { clear hex. induction k as [|k IH]; intros hex Hk.
    - destruct hex; [|simpl in Hk; lia]. split; [reflexivity|]. intros _ _. reflexivity.
    - destruct hex as [|c1 [|c2 rest]].
      + split; [reflexivity|]. intros _ _. reflexivity.
      + split; [reflexivity|]. intros E. discriminate E.
      + destruct (IH rest) as (L & R); [simpl in Hk; lia|].
        split.
        * cbn [Nostr.hexToBytes List.length Nat.div2]. rewrite L. reflexivity.
        * intros He Hd. cbn [List.length Nat.even] in He.
          cbn [forallb] in Hd.
          apply andb_prop in Hd. destruct Hd as [H1 Hd].
          apply andb_prop in Hd. destruct Hd as [H2 Hd].
          change (Nostr.hexToBytes (c1 :: c2 :: rest))
            with (Nostr.hexToBytes [c1; c2] ++ Nostr.hexToBytes rest).
          rewrite bytesToHex_app.
          rewrite (bytesToHex_pair c1 c2 H1 H2), (R He Hd). reflexivity. }
  apply (H (List.length hex)). lia.
Qed.

Lemma bytesToHex_hexToBytes_witness :
  Nostr.bytesToHex (Nostr.hexToBytes (Nostr.lit "DEADbeef00")) = Nostr.lit "deadbeef00".
Proof.
  destruct (bytesToHex_hexToBytes (Nostr.lit "DEADbeef00")) as (_ & R).
  rewrite R; reflexivity.
Defined.

(** X29. [getShortNpub]. A missing [npub] and a string of fewer than 20
    code units come back as they are; a longer one is cut to exactly 21
    code units, its first twelve, three dots and its last six. (A string
    of 20 code units is thus made longer by one.) *)
Theorem getShortNpub_shape (s : Nostr.JSString) :
  Nostr.getShortNpub None = None /\
  ((List.length s < 20)%nat -> Nostr.getShortNpub (Some s) = Some s) /\
  ((20 <= List.length s)%nat ->
   exists short,
     Nostr.getShortNpub (Some s) = Some short /\
     List.length short = 21%nat /\
     firstn 12 short = firstn 12 s /\
     firstn 3 (skipn 12 short) = Nostr.lit "..." /\
     skipn 15 short = skipn (List.length s - 6) s).
Proof.
  split; [reflexivity|]. unfold Nostr.getShortNpub. split.
  - intros H.
    destruct (Nat.eqb (List.length s) 0); [reflexivity|].
    destruct (Nat.ltb (List.length s) 20) eqn:E; [reflexivity|].
    apply Nat.ltb_ge in E. lia.
  - intros H.
    destruct (Nat.eqb (List.length s) 0) eqn:E0;
      [apply Nat.eqb_eq in E0; lia|].
    destruct (Nat.ltb (List.length s) 20) eqn:E;
      [apply Nat.ltb_lt in E; lia|].
    cbn [orb]. eexists. split; [reflexivity|].
    assert (L12 : List.length (firstn 12 s) = 12%nat)
      by (rewrite length_firstn; lia).
    assert (L6 : List.length (skipn (List.length s - 6) s) = 6%nat)
      by (rewrite length_skipn; lia).
    split; [|split; [|split]].
    + rewrite !length_app, L12, L6. reflexivity.
    + rewrite firstn_app, L12, Nat.sub_diag, firstn_O, app_nil_r.
      rewrite firstn_firstn. reflexivity.
    + rewrite skipn_app, L12, Nat.sub_diag.
      rewrite (skipn_all2 (n := 12)) by lia. reflexivity.
    + rewrite skipn_app, L12.
      rewrite (skipn_all2 (n := 15)) by lia. reflexivity.
Qed.
